(** * phaser-dev-ui: layout and scroll core

    A shallow embedding of the three coordinating pieces of the library:
    the scroll viewport ([DebugScrollContainer.ts]), the frame-batched layout
    scheduler ([layoutAuto.ts]) and the viewport anchoring helper
    ([anchorToViewport.ts]), together with the properties stated for them.

    JavaScript numbers are modelled by [JsNum.num]: exact rationals extended
    with [+Infinity], [-Infinity] and [NaN].  Comparison, [Math.max],
    [Math.min] and [===] follow IEEE-754 on those four kinds of value.
    Rounding, overflow and the sign of zero are not modelled: finite
    arithmetic is exact. *)

From Stdlib Require Import QArith Qcanon Lqa Lia List Bool ZArith String.
Import ListNotations.

(** A destructuring default: [const { x = d } = options]. *)
Definition dflt {A : Type} (x : option A) (d : A) : A :=
  match x with Some v => v | None => d end.

(* ================================================================== *)
(** ** JavaScript numbers *)
(* ================================================================== *)

Module JsNum.

Inductive num : Type :=
| Fin (q : Qc)
| PInf
| NInf
| NaN.

Definition of_Z (z : Z) : num := Fin (Q2Qc (inject_Z z)).

Definition zero : num := of_Z 0.
Definition one : num := of_Z 1.
Definition two : num := of_Z 2.

Definition is_nan (a : num) : bool :=
  match a with NaN => true | _ => false end.

(** [Number.isFinite] *)
Definition isFinite (a : num) : bool :=
  match a with Fin _ => true | _ => false end.

(** [a === b] on numbers: [NaN] equals nothing, itself included. *)
Definition eqb (a b : num) : bool :=
  match a, b with
  | Fin x, Fin y => match Qccompare x y with Eq => true | _ => false end
  | PInf, PInf => true
  | NInf, NInf => true
  | _, _ => false
  end.

(** [a < b] *)
Definition ltb (a b : num) : bool :=
  match a, b with
  | NaN, _ | _, NaN => false
  | Fin x, Fin y => match Qccompare x y with Lt => true | _ => false end
  | NInf, NInf => false
  | NInf, _ => true
  | PInf, _ => false
  | Fin _, PInf => true
  | Fin _, NInf => false
  end.

(** [a <= b] *)
Definition leb (a b : num) : bool :=
  match a, b with
  | NaN, _ | _, NaN => false
  | Fin x, Fin y => match Qccompare x y with Gt => false | _ => true end
  | NInf, _ => true
  | PInf, PInf => true
  | PInf, _ => false
  | Fin _, PInf => true
  | Fin _, NInf => false
  end.

Definition lt (a b : num) : Prop := ltb a b = true.
Definition le (a b : num) : Prop := leb a b = true.

(** [Math.max(a, b)] and [Math.min(a, b)]: [NaN] if either argument is. *)
Definition max (a b : num) : num :=
  match a, b with
  | NaN, _ | _, NaN => NaN
  | _, _ => if ltb a b then b else a
  end.

Definition min (a b : num) : num :=
  match a, b with
  | NaN, _ | _, NaN => NaN
  | _, _ => if ltb b a then b else a
  end.

Definition neg (a : num) : num :=
  match a with
  | Fin x => Fin (- x)
  | PInf => NInf
  | NInf => PInf
  | NaN => NaN
  end.

Definition add (a b : num) : num :=
  match a, b with
  | NaN, _ | _, NaN => NaN
  | Fin x, Fin y => Fin (x + y)
  | PInf, NInf | NInf, PInf => NaN
  | PInf, _ | _, PInf => PInf
  | NInf, _ | _, NInf => NInf
  end.

Definition sub (a b : num) : num := add a (neg b).

(** Sign of a rational, used by the infinite cases of [mul] and [div]. *)
Definition sgn (x : Qc) : comparison := Qccompare x (Q2Qc 0).

Definition inf_of_sign (c : comparison) : num :=
  match c with Gt => PInf | Lt => NInf | Eq => NaN end.

Definition flip (c : comparison) : comparison := CompOpp c.

Definition mul (a b : num) : num :=
  match a, b with
  | NaN, _ | _, NaN => NaN
  | Fin x, Fin y => Fin (x * y)
  | Fin x, PInf | PInf, Fin x => inf_of_sign (sgn x)
  | Fin x, NInf | NInf, Fin x => inf_of_sign (flip (sgn x))
  | PInf, PInf | NInf, NInf => PInf
  | PInf, NInf | NInf, PInf => NInf
  end.

(** Division.  A zero divisor is taken as [+0]: [x / 0] is [+Infinity],
    [-Infinity] or [NaN] by the sign of [x]. *)
Definition div (a b : num) : num :=
  match a, b with
  | NaN, _ | _, NaN => NaN
  | Fin x, Fin y =>
      match sgn y with
      | Eq => inf_of_sign (sgn x)
      | _ => Fin (x / y)
      end
  | Fin _, (PInf | NInf) => zero
  | PInf, Fin y => match sgn y with Lt => NInf | _ => PInf end
  | NInf, Fin y => match sgn y with Lt => PInf | _ => NInf end
  | (PInf | NInf), (PInf | NInf) => NaN
  end.

(** [Phaser.Math.Clamp(value, min, max)], from the Phaser library:
    [Math.max(min, Math.min(max, value))]. *)
Definition Clamp (value lo hi : num) : num := max lo (min hi value).

(** [x ?? d] for an optional numeric property. *)
Definition orElse (x : option num) (d : num) : num :=
  match x with Some v => v | None => d end.

Declare Scope num_scope.
Delimit Scope num_scope with num.
Bind Scope num_scope with num.
Infix "+" := add : num_scope.
Infix "-" := sub : num_scope.
Infix "*" := mul : num_scope.
Infix "/" := div : num_scope.
Notation "- x" := (neg x) : num_scope.
Infix "<" := lt : num_scope.
Infix "<=" := le : num_scope.
Infix "<?" := ltb : num_scope.
Infix "<=?" := leb : num_scope.
Infix "===" := eqb (at level 70, no associativity) : num_scope.
Notation "a <= b <= c" := (le a b /\ le b c) : num_scope.

End JsNum.

(* ================================================================== *)
(** ** DebugScrollContainer.ts *)
(* ================================================================== *)

Module Scroll.
Import JsNum.
Local Open Scope string_scope.
Local Open Scope list_scope.
Local Open Scope num_scope.

Definition HexColor := string.

(** A content child, seen through the capabilities the container probes:
    its [y], [displayHeight], [height] (present when [typeof] gives
    ["number"]) and the height of [getBounds()] when that method exists.
    JavaScript compares objects by reference ([indexOf]); [item_ref] stands
    for the reference, so two records are the same object exactly when
    their [item_ref] agree. *)
Record Item : Type := mkItem {
  item_ref : nat;
  item_y : option num;
  item_displayHeight : option num;
  item_height : option num;
  item_getBounds : option num
}.

(** A [Phaser.GameObjects.Graphics] object is the list of drawing commands
    issued since its last [clear()], oldest first.  Colours are kept as the
    hex strings handed to [hexToColorAlpha]. *)
Inductive DrawOp : Type :=
| fillStyle (c : HexColor)
| lineStyle (thickness : num) (c : HexColor)
| fillRoundedRect (x y w h r : num)
| strokeRoundedRect (x y w h r : num).

Definition Graphics := list DrawOp.

Record Zone : Type := mkZone {
  zone_x : num; zone_y : num; zone_width : num; zone_height : num
}.

Inductive ScrollEvent : Type :=
| scroll_changed (scrollY maxScrollY : num).

(** The style fields assigned from the options in the constructor. *)
Record Style : Type := mkStyle {
  st_width : num;
  st_height : num;
  st_paddingLeft : num;
  st_paddingRight : num;
  st_paddingTop : num;
  st_paddingBottom : num;
  st_bgColor : HexColor;
  st_strokeColor : HexColor;
  st_strokeThickness : num;
  st_cornerRadius : num;
  st_scrollbarEnabled : bool;
  st_scrollbarWidth : num;
  st_scrollbarColor : HexColor;
  st_scrollbarTrackColor : HexColor;
  st_scrollbarMinThumbHeight : num;
  st_wheelEnabled : bool;
  st_wheelStep : num
}.

Record DebugScrollContainer : Type := mkContainer {
  style : Style;
  _contentMinY : num;
  _contentHeight : num;
  _scrollY : num;
  (* inherited Container state *)
  position : num * num;
  size : num * num;
  (* child objects *)
  _panel : Graphics;
  content_list : list Item;       (* this._content.list *)
  content_pos : num * num;        (* this._content.x, this._content.y *)
  _maskGraphics : Graphics;
  _scrollbar : Graphics;
  _wheelZone : Zone;
  (* events emitted so far, oldest first *)
  emitted : list ScrollEvent
}.

Definition _width s := st_width (style s).
Definition _height s := st_height (style s).
Definition _paddingLeft s := st_paddingLeft (style s).
Definition _paddingRight s := st_paddingRight (style s).
Definition _paddingTop s := st_paddingTop (style s).
Definition _paddingBottom s := st_paddingBottom (style s).
Definition _bgColor s := st_bgColor (style s).
Definition _strokeColor s := st_strokeColor (style s).
Definition _strokeThickness s := st_strokeThickness (style s).
Definition _cornerRadius s := st_cornerRadius (style s).
Definition _scrollbarEnabled s := st_scrollbarEnabled (style s).
Definition _scrollbarWidth s := st_scrollbarWidth (style s).
Definition _scrollbarColor s := st_scrollbarColor (style s).
Definition _scrollbarTrackColor s := st_scrollbarTrackColor (style s).
Definition _scrollbarMinThumbHeight s := st_scrollbarMinThumbHeight (style s).

(** Field assignments. *)
Definition set_metrics (s : DebugScrollContainer) (minY h : num) :=
  mkContainer (style s) minY h (_scrollY s) (position s) (size s) (_panel s)
    (content_list s) (content_pos s) (_maskGraphics s) (_scrollbar s)
    (_wheelZone s) (emitted s).

Definition set_scrollY (s : DebugScrollContainer) (v : num) :=
  mkContainer (style s) (_contentMinY s) (_contentHeight s) v (position s)
    (size s) (_panel s) (content_list s) (content_pos s) (_maskGraphics s)
    (_scrollbar s) (_wheelZone s) (emitted s).

Definition setSize (s : DebugScrollContainer) (w h : num) :=
  mkContainer (style s) (_contentMinY s) (_contentHeight s) (_scrollY s)
    (position s) (w, h) (_panel s) (content_list s) (content_pos s)
    (_maskGraphics s) (_scrollbar s) (_wheelZone s) (emitted s).

Definition set_panel (s : DebugScrollContainer) (g : Graphics) :=
  mkContainer (style s) (_contentMinY s) (_contentHeight s) (_scrollY s)
    (position s) (size s) g (content_list s) (content_pos s)
    (_maskGraphics s) (_scrollbar s) (_wheelZone s) (emitted s).

Definition set_content_list (s : DebugScrollContainer) (l : list Item) :=
  mkContainer (style s) (_contentMinY s) (_contentHeight s) (_scrollY s)
    (position s) (size s) (_panel s) l (content_pos s) (_maskGraphics s)
    (_scrollbar s) (_wheelZone s) (emitted s).

Definition set_content_pos (s : DebugScrollContainer) (x y : num) :=
  mkContainer (style s) (_contentMinY s) (_contentHeight s) (_scrollY s)
    (position s) (size s) (_panel s) (content_list s) (x, y)
    (_maskGraphics s) (_scrollbar s) (_wheelZone s) (emitted s).

Definition set_mask_zone (s : DebugScrollContainer) (g : Graphics) (z : Zone) :=
  mkContainer (style s) (_contentMinY s) (_contentHeight s) (_scrollY s)
    (position s) (size s) (_panel s) (content_list s) (content_pos s) g
    (_scrollbar s) z (emitted s).

Definition set_scrollbar (s : DebugScrollContainer) (g : Graphics) :=
  mkContainer (style s) (_contentMinY s) (_contentHeight s) (_scrollY s)
    (position s) (size s) (_panel s) (content_list s) (content_pos s)
    (_maskGraphics s) g (_wheelZone s) (emitted s).

Definition emit (s : DebugScrollContainer) (e : ScrollEvent) :=
  mkContainer (style s) (_contentMinY s) (_contentHeight s) (_scrollY s)
    (position s) (size s) (_panel s) (content_list s) (content_pos s)
    (_maskGraphics s) (_scrollbar s) (_wheelZone s) (emitted s ++ [e]).

(** *** Viewport geometry *)

Definition getViewportLeft s : num := - _width s / two + _paddingLeft s.
Definition getViewportTop s : num := - _height s / two + _paddingTop s.
Definition getViewportWidth s : num :=
  max one (_width s - _paddingLeft s - _paddingRight s).
Definition getViewportHeight s : num :=
  max one (_height s - _paddingTop s - _paddingBottom s).

Definition getScrollY s : num := _scrollY s.
Definition getContentHeight s : num := _contentHeight s.
Definition getMaxScrollY s : num :=
  max zero (_contentHeight s - getViewportHeight s).

(** *** Content bounds scan *)

(** [typeof x === "number" && x > 0] *)
Definition positive_number (x : option num) : option num :=
  match x with
  | Some v => if zero <? v then Some v else None
  | None => None
  end.

Definition getItemHalfHeight (item : Item) : num :=
  match positive_number (item_displayHeight item) with
  | Some displayHeight => displayHeight / two
  | None =>
      match positive_number (item_height item) with
      | Some height => height / two
      | None =>
          match item_getBounds item with
          | Some bounds_height => bounds_height / two
          | None => zero
          end
      end
  end.

(** The top and bottom edge of a child, as the scan takes them. *)
Definition item_top (item : Item) : num :=
  orElse (item_y item) zero - getItemHalfHeight item.

Definition item_bottom (item : Item) : num :=
  orElse (item_y item) zero + getItemHalfHeight item.

(** One iteration of the loop of [updateContentMetrics] on [(minY, maxY)]. *)
Definition scan_step (acc : num * num) (item : Item) : num * num :=
  let y := orElse (item_y item) zero in
  let halfHeight := getItemHalfHeight item in
  (min (fst acc) (y - halfHeight), max (snd acc) (y + halfHeight)).

Definition scan_items (items : list Item) : num * num :=
  fold_left scan_step items (PInf, NInf).

(** The [(contentMinY, contentHeight)] that [updateContentMetrics] assigns. *)
Definition content_metrics (items : list Item) : num * num :=
  match items with
  | [] => (zero, zero)
  | _ =>
      let '(minY, maxY) := scan_items items in
      if negb (isFinite minY) || negb (isFinite maxY)
      then (zero, zero)
      else (minY, max zero (maxY - minY))
  end.

Definition updateContentMetrics s : DebugScrollContainer :=
  let '(minY, h) := content_metrics (content_list s) in
  set_metrics s minY h.

(** *** Drawing *)

Definition redrawPanel s : DebugScrollContainer :=
  let halfW := _width s / two in
  let halfH := _height s / two in
  let fill :=
    [fillStyle (_bgColor s);
     fillRoundedRect (- halfW) (- halfH) (_width s) (_height s) (_cornerRadius s)] in
  if _strokeThickness s <=? zero then set_panel s fill
  else
    set_panel s
      (fill ++
       [lineStyle (_strokeThickness s) (_strokeColor s);
        strokeRoundedRect (- halfW) (- halfH) (_width s) (_height s)
          (_cornerRadius s)]).

Definition redrawMaskAndWheelZone s : DebugScrollContainer :=
  let viewportLeft := getViewportLeft s in
  let viewportTop := getViewportTop s in
  let viewportWidth := getViewportWidth s in
  let viewportHeight := getViewportHeight s in
  let clipRadius := max zero (_cornerRadius s - _strokeThickness s) in
  set_mask_zone s
    [fillStyle "#ffffff";
     fillRoundedRect viewportLeft viewportTop viewportWidth viewportHeight
       clipRadius]
    (mkZone (viewportLeft + viewportWidth / two)
            (viewportTop + viewportHeight / two)
            viewportWidth viewportHeight).

Definition applyScroll s : DebugScrollContainer :=
  set_content_pos s (getViewportLeft s)
    (getViewportTop s - _contentMinY s - _scrollY s).

Definition redrawScrollbar s : DebugScrollContainer :=
  let cleared := set_scrollbar s [] in
  if negb (_scrollbarEnabled s) then cleared else
  let maxScroll := getMaxScrollY s in
  if maxScroll <=? zero then cleared else
  let viewportLeft := getViewportLeft s in
  let viewportTop := getViewportTop s in
  let viewportWidth := getViewportWidth s in
  let viewportHeight := getViewportHeight s in
  let barWidth := max two (_scrollbarWidth s) in
  if viewportWidth <=? barWidth then cleared else
  let x := viewportLeft + viewportWidth - barWidth in
  let trackRadius := barWidth / two in
  let rawThumbHeight := (viewportHeight / _contentHeight s) * viewportHeight in
  let thumbHeight :=
    Clamp rawThumbHeight (_scrollbarMinThumbHeight s) viewportHeight in
  let travel := max zero (viewportHeight - thumbHeight) in
  let thumbY := viewportTop + (_scrollY s / maxScroll) * travel in
  set_scrollbar s
    [fillStyle (_scrollbarTrackColor s);
     fillRoundedRect x viewportTop barWidth viewportHeight trackRadius;
     fillStyle (_scrollbarColor s);
     fillRoundedRect x thumbY barWidth thumbHeight trackRadius].

(** *** Public operations *)

Definition layout s : DebugScrollContainer :=
  let s := setSize s (_width s) (_height s) in
  let s := redrawPanel s in
  let s := redrawMaskAndWheelZone s in
  let s := updateContentMetrics s in
  let s := set_scrollY s (Clamp (_scrollY s) zero (getMaxScrollY s)) in
  let s := applyScroll s in
  redrawScrollbar s.

Definition setScrollY (value : num) s : DebugScrollContainer :=
  let clamped := Clamp value zero (getMaxScrollY s) in
  if clamped === _scrollY s then s else
  let s := set_scrollY s clamped in
  let s := applyScroll s in
  let s := redrawScrollbar s in
  emit s (scroll_changed (_scrollY s) (getMaxScrollY s)).

Definition scrollBy (deltaY : num) s : DebugScrollContainer :=
  if deltaY === zero then s else setScrollY (_scrollY s + deltaY) s.

Definition scrollToTop s : DebugScrollContainer := setScrollY zero s.

Definition scrollToBottom s : DebugScrollContainer :=
  setScrollY (getMaxScrollY s) s.

(** [this._content.add(...)] is [Phaser.GameObjects.Container.add], that is
    [Utils.Array.Add] on the list of children with the add handler of an
    exclusive container (Phaser 3.88).  A single object is pushed unless
    [indexOf] finds it in the list.  From an array the objects already in
    the list are taken out first and the others are pushed in order; the
    add handler takes an object that this container owns already out of the
    list before it stays, so an object given twice in the array is kept
    once, at its last place. *)
Definition same_object (a b : Item) : bool :=
  Nat.eqb (item_ref a) (item_ref b).

Definition is_child (l : list Item) (child : Item) : bool :=
  existsb (same_object child) l.

Fixpoint remove_first (child : Item) (l : list Item) : list Item :=
  match l with
  | [] => []
  | c :: rest =>
      if same_object child c then rest else c :: remove_first child rest
  end.

Definition container_add (l : list Item) (child : Item) : list Item :=
  if is_child l child then l else l ++ [child].

Definition container_add_all (l children : list Item) : list Item :=
  fold_left (fun acc c => remove_first c acc ++ [c])
    (filter (fun c => negb (is_child l c)) children) l.

Definition addItem (child : Item) s : DebugScrollContainer :=
  layout (set_content_list s (container_add (content_list s) child)).

Definition addItems (children : list Item) s : DebugScrollContainer :=
  match children with
  | [] => s
  | _ => layout (set_content_list s (container_add_all (content_list s) children))
  end.

Definition removeAllItems s : DebugScrollContainer :=
  match content_list s with
  | [] => s
  | _ => layout (set_content_list s [])
  end.

(** *** Construction *)

Record Position : Type := mkPosition {
  pos_x : option num;
  pos_y : option num
}.

Record CreateDebugScrollContainerOptions : Type := mkOptions {
  width : option num;
  height : option num;
  paddingLeft : option num;
  paddingRight : option num;
  paddingTop : option num;
  paddingBottom : option num;
  bgColor : option HexColor;
  strokeColor : option HexColor;
  strokeThickness : option num;
  cornerRadius : option num;
  scrollbarEnabled : option bool;
  scrollbarWidth : option num;
  scrollbarColor : option HexColor;
  scrollbarTrackColor : option HexColor;
  scrollbarMinThumbHeight : option num;
  wheelEnabled : option bool;
  wheelStep : option num;
  initialScrollY : option num;
  opt_position : option Position
}.

(** [options = {}] *)
Definition no_options : CreateDebugScrollContainerOptions :=
  mkOptions None None None None None None None None None None None None None
    None None None None None None.

Definition constructor (options : CreateDebugScrollContainerOptions)
  : DebugScrollContainer :=
  let w := dflt (width options) (of_Z 320) in
  let h := dflt (height options) (of_Z 220) in
  let st :=
    mkStyle w h
      (dflt (paddingLeft options) (of_Z 10))
      (dflt (paddingRight options) (of_Z 10))
      (dflt (paddingTop options) (of_Z 10))
      (dflt (paddingBottom options) (of_Z 10))
      (dflt (bgColor options) "#000000")
      (dflt (strokeColor options) "#a3a3a3")
      (dflt (strokeThickness options) (of_Z 2))
      (dflt (cornerRadius options) (of_Z 10))
      (dflt (scrollbarEnabled options) true)
      (dflt (scrollbarWidth options) (of_Z 6))
      (dflt (scrollbarColor options) "#a3a3a3")
      (dflt (scrollbarTrackColor options) "#262626")
      (dflt (scrollbarMinThumbHeight options) (of_Z 24))
      (dflt (wheelEnabled options) true)
      (dflt (wheelStep options) (of_Z 24)) in
  let px :=
    match opt_position options with
    | Some p => orElse (pos_x p) zero
    | None => zero
    end in
  let py :=
    match opt_position options with
    | Some p => orElse (pos_y p) zero
    | None => zero
    end in
  let s :=
    mkContainer st zero zero zero (px, py) (zero, zero)
      [] [] (zero, zero) [] [] (mkZone zero zero one one) [] in
  let s := setSize s w h in
  let s := layout s in
  setScrollY (dflt (initialScrollY options) zero) s.

(** *** The thumb of the scrollbar

    [redrawScrollbar] draws the track and then the thumb; the thumb is the
    second rounded rectangle.  [drawn_thumb] gives its [y] and height. *)
Definition drawn_thumb (s : DebugScrollContainer) : option (num * num) :=
  match _scrollbar s with
  | [fillStyle _; fillRoundedRect _ _ _ _ _;
     fillStyle _; fillRoundedRect _ thumbY _ thumbHeight _] =>
      Some (thumbY, thumbHeight)
  | _ => None
  end.

(** The thumb as the specification words it:
    [clamp(viewportHeight * (viewportHeight / contentHeight), minThumbHeight,
    viewportHeight)] and
    [viewportTop + (scrollY / maxScroll) * (viewportHeight - thumbHeight)]. *)
Definition stated_thumbHeight (s : DebugScrollContainer) : num :=
  Clamp (getViewportHeight s * (getViewportHeight s / _contentHeight s))
    (_scrollbarMinThumbHeight s) (getViewportHeight s).

Definition stated_thumbY (s : DebugScrollContainer) : num :=
  getViewportTop s
  + (_scrollY s / getMaxScrollY s)
    * (getViewportHeight s - stated_thumbHeight s).

(** *** The stacked list of the end-to-end scenario

    [n] items of height 40, separated by gaps of 10, each positioned by the
    centre as the playground does ([setPosition(cx, cursorY + 20)], then
    [cursorY += 40 + gap]).  Every item is an object of its own: the
    references count down from [n - 1] to 0. *)
Fixpoint stacked_from (cursorY : Z) (n : nat) : list Item :=
  match n with
  | O => []
  | S n' =>
      mkItem n' (Some (of_Z (cursorY + 20))) (Some (of_Z 40)) (Some (of_Z 40))
        None
      :: stacked_from (cursorY + 40 + 10) n'
  end.

Definition stacked_items : list Item := stacked_from 0 10.

(** Options of the scenario: the given [height] and vertical paddings,
    everything else left to its default. *)
Definition scenario_options (h : Z) (pt pb : option num)
  : CreateDebugScrollContainerOptions :=
  mkOptions None (Some (of_Z h)) None None pt pb None None None None None
    None None None None None None None None.

(** Height 220 with the default paddings, and with no vertical padding. *)
Definition scenario_default : DebugScrollContainer :=
  addItems stacked_items (constructor (scenario_options 220 None None)).

Definition scenario_unpadded : DebugScrollContainer :=
  addItems stacked_items
    (constructor (scenario_options 220 (Some zero) (Some zero))).

(** A viewport lower than the minimum thumb height: height 40, so a
    visible height of 20 against the default minimum thumb of 24, scrolled
    to the bottom of the stacked list. *)
Definition low_viewport : DebugScrollContainer :=
  scrollToBottom
    (addItems stacked_items (constructor (scenario_options 40 None None))).

(** Options that only give [initialScrollY]. *)
Definition only_initialScrollY (v : num) : CreateDebugScrollContainerOptions :=
  mkOptions None None None None None None None None None None None None None
    None None None None (Some v) None.

End Scroll.

(* ================================================================== *)
(** ** layoutAuto.ts *)
(* ================================================================== *)

Module LayoutAuto.

(** A layout target is an object; only its identity matters to the
    scheduler, so targets are named by numbers. *)
Definition Target := nat.

(** The closure state of [layoutAuto]: the [dirty] set in insertion order (a
    JavaScript [Set] iterates in that order and holds no duplicates), the two
    flags, and whether [onFlushEvent] is still registered on the scene. *)
Record Scheduler : Type := mkScheduler {
  dirty : list Target;
  destroyed : bool;
  isFlushing : bool;
  listening : bool
}.

(** [layoutAuto(scene, options)] *)
Definition layoutAuto : Scheduler := mkScheduler [] false false true.

(** [Set.prototype.add], [delete] and [clear]. *)
Definition set_add (t : Target) (l : list Target) : list Target :=
  if existsb (Nat.eqb t) l then l else l ++ [t].

Definition set_delete (t : Target) (l : list Target) : list Target :=
  filter (fun u => negb (Nat.eqb t u)) l.

Definition with_dirty (s : Scheduler) (d : list Target) : Scheduler :=
  mkScheduler d (destroyed s) (isFlushing s) (listening s).

Definition with_isFlushing (s : Scheduler) (b : bool) : Scheduler :=
  mkScheduler (dirty s) (destroyed s) b (listening s).

Definition markDirty (t : Target) (s : Scheduler) : Scheduler :=
  if destroyed s then s else with_dirty s (set_add t (dirty s)).

Definition markDirtyMany (ts : list Target) (s : Scheduler) : Scheduler :=
  if destroyed s || (List.length ts =? 0)%nat then s
  else with_dirty s (fold_left (fun d t => set_add t d) ts (dirty s)).

Definition remove (t : Target) (s : Scheduler) : Scheduler :=
  if destroyed s then s else with_dirty s (set_delete t (dirty s)).

Definition clear (s : Scheduler) : Scheduler :=
  if destroyed s then s else with_dirty s [].

Definition destroyScheduler (s : Scheduler) : Scheduler :=
  if destroyed s then s else mkScheduler [] true (isFlushing s) false.

Definition isDestroyed (s : Scheduler) : bool := destroyed s.
Definition getDirtyCount (s : Scheduler) : nat := List.length (dirty s).

(** What a target's [layout()] does with the scheduler it is registered
    with: a tree of calls to the scheduler's methods, ending by returning or
    by throwing. *)
Inductive Call : Type :=
| call_markDirty (t : Target)
| call_markDirtyMany (ts : list Target)
| call_remove (t : Target)
| call_clear
| call_flush
| call_destroy.

Inductive Code : Type :=
| Return
| Throw
| Do (c : Call) (k : Code)
| AskDestroyed (k : bool -> Code)
| AskDirtyCount (k : nat -> Code).

(** What is observed of a run, oldest first: [flushNow] getting past its
    guard and taking [queue] as its batch, a target's [layout()] being
    entered, and each call a layout makes to the scheduler. *)
Inductive Event : Type :=
| Began (queue : list Target)
| Entered (t : Target)
| Called (c : Call).

Definition Trace := list Event.

(** The result of running code: it returns, it throws, or the evaluation
    budget ran out. *)
Inductive Outcome : Type :=
| Normal (s : Scheduler) (tr : Trace)
| Thrown (s : Scheduler) (tr : Trace)
| OutOfFuel.

Section Run.

(** The [layout()] of each target; it may depend on what happened so far. *)
Variable layoutCode : Trace -> Target -> Code.

(** [flush] is what a call to [flush()] does. *)
Variable flush : Scheduler -> Trace -> Outcome.

Definition do_call (c : Call) (s : Scheduler) (tr : Trace) : Outcome :=
  match c with
  | call_markDirty t => Normal (markDirty t s) tr
  | call_markDirtyMany ts => Normal (markDirtyMany ts s) tr
  | call_remove t => Normal (remove t s) tr
  | call_clear => Normal (clear s) tr
  | call_flush => flush s tr
  | call_destroy => Normal (destroyScheduler s) tr
  end.

Fixpoint exec (c : Code) (s : Scheduler) (tr : Trace) : Outcome :=
  match c with
  | Return => Normal s tr
  | Throw => Thrown s tr
  | Do cl k =>
      match do_call cl s (tr ++ [Called cl]) with
      | Normal s' tr' => exec k s' tr'
      | o => o
      end
  | AskDestroyed k => exec (k (isDestroyed s)) s tr
  | AskDirtyCount k => exec (k (getDirtyCount s)) s tr
  end.

(** [for (const target of queue) { if (destroyed) break; target.layout() }] *)
Fixpoint run_queue (queue : list Target) (s : Scheduler) (tr : Trace)
  : Outcome :=
  match queue with
  | [] => Normal s tr
  | target :: rest =>
      if destroyed s then Normal s tr
      else
        match exec (layoutCode tr target) s (tr ++ [Entered target]) with
        | Normal s' tr' => run_queue rest s' tr'
        | o => o
        end
  end.

End Run.

Section Flush.

Variable layoutCode : Trace -> Target -> Code.

Fixpoint flushNow (fuel : nat) (s : Scheduler) (tr : Trace) : Outcome :=
  match fuel with
  | O => OutOfFuel
  | S fuel' =>
      if destroyed s || (List.length (dirty s) =? 0)%nat || isFlushing s
      then Normal s tr
      else
        let s := with_isFlushing s true in
        let queue := dirty s in
        let s := with_dirty s [] in
        match
          run_queue layoutCode (flushNow fuel') queue s (tr ++ [Began queue])
        with
        | Normal s' tr' => Normal (with_isFlushing s' false) tr'
        | o => o
        end
  end.

(** The handler registered on the scene's flush event, and the scene
    emitting that event (the handler runs while it is registered). *)
Definition onFlushEvent (fuel : nat) (s : Scheduler) (tr : Trace) : Outcome :=
  if destroyed s || (List.length (dirty s) =? 0)%nat then Normal s tr
  else flushNow fuel s tr.

Definition emit_flushEvent (fuel : nat) (s : Scheduler) (tr : Trace)
  : Outcome :=
  if listening s then onFlushEvent fuel s tr else Normal s tr.

(** A call to [flush()] from outside any layout, with a fresh trace. *)
Definition flush (fuel : nat) (s : Scheduler) : Outcome := flushNow fuel s [].

End Flush.

(** Two budget units cover every run: one for the flush itself and one for
    a [flush()] attempted from inside a layout. *)
Definition enough : nat := 2.

Definition the_state (o : Outcome) : option Scheduler :=
  match o with
  | Normal s _ | Thrown s _ => Some s
  | OutOfFuel => None
  end.

Definition the_trace (o : Outcome) : Trace :=
  match o with
  | Normal _ tr | Thrown _ tr => tr
  | OutOfFuel => []
  end.

(** A [flush] that returns at once when a pass is in progress. *)
Definition guarded (fl : Scheduler -> Trace -> Outcome) : Prop :=
  forall s tr, isFlushing s = true -> fl s tr = Normal s tr.

(** The run ended, by returning or by throwing, in state [s'] with trace
    [tr']. *)
Definition ends (o : Outcome) (s' : Scheduler) (tr' : Trace) : Prop :=
  o = Normal s' tr' \/ o = Thrown s' tr'.

(** The scheduler as the loop finds it: batch taken, live set emptied. *)
Definition pass_start (s : Scheduler) : Scheduler :=
  with_dirty (with_isFlushing s true) [].

(** The targets whose [layout()] was entered, in order. *)
Fixpoint entries (tr : Trace) : list Target :=
  match tr with
  | [] => []
  | Entered t :: rest => t :: entries rest
  | _ :: rest => entries rest
  end.

(** How many passes began. *)
Fixpoint passes (tr : Trace) : nat :=
  match tr with
  | [] => O
  | Began _ :: rest => S (passes rest)
  | _ :: rest => passes rest
  end.

(** Marking a run of targets from the host, one [markDirty] each. *)
Definition markAll (ts : list Target) (s : Scheduler) : Scheduler :=
  fold_left (fun s t => markDirty t s) ts s.

(** A run of marks, each target kept at its first occurrence. *)
Definition marks (ts : list Target) : list Target :=
  fold_left (fun d t => set_add t d) ts [].

(** Position of the first occurrence of [t]. *)
Fixpoint index_of (t : Target) (l : list Target) : option nat :=
  match l with
  | [] => None
  | u :: rest =>
      if Nat.eqb t u then Some O
      else match index_of t rest with
           | Some i => Some (S i)
           | None => None
           end
  end.

Definition member (t : Target) (l : list Target) : bool :=
  existsb (Nat.eqb t) l.

(** Whether a call puts [t] in the dirty set, or may take it out. *)
Definition marksb (t : Target) (c : Call) : bool :=
  match c with
  | call_markDirty u => Nat.eqb t u
  | call_markDirtyMany ts => existsb (Nat.eqb t) ts
  | _ => false
  end.

Definition dropsb (t : Target) (c : Call) : bool :=
  match c with
  | call_remove u => Nat.eqb t u
  | call_clear | call_destroy => true
  | _ => false
  end.

Definition is_destroy (c : Call) : bool :=
  match c with call_destroy => true | _ => false end.

(** What a trace says about one target [t]: replaying the calls in it on
    the pair (scheduler alive, [t] in the dirty set).  A destroyed scheduler
    ignores every call, and [flush()] from inside a layout changes
    nothing. *)
Definition step_call (t : Target) (c : Call) (st : bool * bool)
  : bool * bool :=
  if fst st then
    match c with
    | call_markDirty u => (true, snd st || Nat.eqb t u)
    | call_markDirtyMany ts => (true, snd st || member t ts)
    | call_remove u => (true, snd st && negb (Nat.eqb t u))
    | call_clear => (true, false)
    | call_flush => st
    | call_destroy => (false, false)
    end
  else st.

Fixpoint replay (t : Target) (tr : Trace) (st : bool * bool) : bool * bool :=
  match tr with
  | [] => st
  | Called c :: rest => replay t rest (step_call t c st)
  | _ :: rest => replay t rest st
  end.

Definition view (t : Target) (s : Scheduler) : bool * bool :=
  (negb (destroyed s), member t (dirty s)).

(** Layout code that neither throws nor destroys the scheduler, whatever
    the scheduler answers. *)
Inductive calm : Code -> Prop :=
| calm_Return : calm Return
| calm_Do c k : is_destroy c = false -> calm k -> calm (Do c k)
| calm_AskDestroyed k : (forall b, calm (k b)) -> calm (AskDestroyed k)
| calm_AskDirtyCount k : (forall n, calm (k n)) -> calm (AskDirtyCount k).

(** *** Sample targets *)

(** Target 0 marks itself dirty again and asks for a flush from inside its
    own layout; every other target just returns. *)
Definition remarking_code (_ : Trace) (t : Target) : Code :=
  match t with
  | 0%nat => Do (call_markDirty 0%nat) (Do call_flush Return)
  | _ => Return
  end.

(** Target 1 throws; every other target just returns. *)
Definition throwing_code (_ : Trace) (t : Target) : Code :=
  match t with
  | 1%nat => Throw
  | _ => Return
  end.

End LayoutAuto.

(* ================================================================== *)
(** ** anchorToViewport.ts *)
(* ================================================================== *)

Module Anchor.
Import JsNum.
Local Open Scope string_scope.
Local Open Scope num_scope.

Inductive ViewportAnchor : Type :=
| top_left | top_center | top_right
| center_left | center | center_right
| bottom_left | bottom_center | bottom_right.

Record SafeAreaInsets : Type := mkInsets {
  left : num; right : num; top : num; bottom : num
}.

(** [Partial<SafeAreaInsets>] *)
Record PartialInsets : Type := mkPartial {
  extra_left : option num;
  extra_right : option num;
  extra_top : option num;
  extra_bottom : option num
}.

Record SafeAreaOptions : Type := mkSafeAreaOptions {
  extraInsets : option PartialInsets;
  useCssEnvInsets : option bool
}.

Record Rectangle : Type := mkRect {
  rect_x : num; rect_y : num; rect_width : num; rect_height : num
}.

(** What the helper reads from the scene and the browser: the scale
    manager's size, the result of [scale.getViewPort(camera)] when that
    method exists and returns a rectangle, the canvas' bounding client
    rectangle when there is one, and the paddings of the safe-area probe
    element after [toFiniteNumber] ([None] without a [document]). *)
Record Scene : Type := mkScene {
  scale_width : num;
  scale_height : num;
  getViewPort : option Rectangle;
  canvas_rect : option (num * num);
  css_probe : option SafeAreaInsets
}.

(** A game object, seen through the capabilities that are probed. *)
Record GameObject : Type := mkGameObject {
  displayWidth : option num;
  displayHeight : option num;
  width : option num;
  height : option num;
  getBounds : option Rectangle;
  has_setPosition : bool;
  xy : num * num
}.

Inductive Result (A : Type) : Type :=
| Ok (a : A)
| Error (msg : string).
Arguments Ok {A} a.
Arguments Error {A} msg.

Definition zeroInsets : SafeAreaInsets := mkInsets zero zero zero zero.

Definition getCssSafeAreaInsetsPx (scene : Scene) : SafeAreaInsets :=
  match css_probe scene with
  | None => zeroInsets
  | Some px => px
  end.

Definition getCanvasToGameScale (scene : Scene) : num * num :=
  match canvas_rect scene with
  | None => (one, one)
  | Some (w, h) =>
      if (w <=? zero) || (h <=? zero) then (one, one)
      else (scale_width scene / w, scale_height scene / h)
  end.

Definition extra (sel : PartialInsets -> option num)
  (extraInsets : option PartialInsets) : num :=
  match extraInsets with
  | Some e => orElse (sel e) zero
  | None => zero
  end.

(** [getSafeAreaInsets(scene, options = {})] *)
Definition getSafeAreaInsets (scene : Scene) (options : option SafeAreaOptions)
  : SafeAreaInsets :=
  let extraInsets :=
    match options with Some o => extraInsets o | None => None end in
  let useCssEnvInsets :=
    match options with
    | Some o => match useCssEnvInsets o with Some b => b | None => true end
    | None => true
    end in
  let cssInsetsPx :=
    if useCssEnvInsets then getCssSafeAreaInsetsPx scene else zeroInsets in
  let scale := getCanvasToGameScale scene in
  mkInsets
    (max zero (left cssInsetsPx * fst scale + extra extra_left extraInsets))
    (max zero (right cssInsetsPx * fst scale + extra extra_right extraInsets))
    (max zero (top cssInsetsPx * snd scale + extra extra_top extraInsets))
    (max zero (bottom cssInsetsPx * snd scale + extra extra_bottom extraInsets)).

Definition getViewportRect (scene : Scene) : Rectangle :=
  match getViewPort scene with
  | Some out => out
  | None => mkRect zero zero (scale_width scene) (scale_height scene)
  end.

Definition is_some {A : Type} (x : option A) : bool :=
  match x with Some _ => true | None => false end.

Definition getDisplaySize (target : GameObject) : num * num :=
  if is_some (displayWidth target) || is_some (displayHeight target) then
    (max zero (orElse (displayWidth target) zero),
     max zero (orElse (displayHeight target) zero))
  else if is_some (width target) || is_some (height target) then
    (max zero (orElse (width target) zero),
     max zero (orElse (height target) zero))
  else
    match getBounds target with
    | Some bounds => (max zero (rect_width bounds), max zero (rect_height bounds))
    | None => (zero, zero)
    end.

Definition setTargetPosition (target : GameObject) (x y : num)
  : Result GameObject :=
  if has_setPosition target then
    Ok (mkGameObject (displayWidth target) (displayHeight target)
          (width target) (height target) (getBounds target) true (x, y))
  else Error "anchorToViewport: target does not support setPosition(x, y)".

Definition computeAnchoredX (anchor : ViewportAnchor)
  (left availableWidth right halfWidth : num) : num :=
  match anchor with
  | top_left | center_left | bottom_left => left + halfWidth
  | top_center | center | bottom_center => left + availableWidth / two
  | top_right | center_right | bottom_right => right - halfWidth
  end.

Definition computeAnchoredY (anchor : ViewportAnchor)
  (top availableHeight bottom halfHeight : num) : num :=
  match anchor with
  | top_left | top_center | top_right => top + halfHeight
  | center_left | center | center_right => top + availableHeight / two
  | bottom_left | bottom_center | bottom_right => bottom - halfHeight
  end.

(** The closure of one [anchorToViewport] call: the resolved options and
    the [destroyed] flag. *)
Record Binding : Type := mkBinding {
  anchor : ViewportAnchor;
  offsetX : num;
  offsetY : num;
  useSafeArea : bool;
  safeArea : option SafeAreaOptions;
  autoResize : bool;
  destroyed : bool
}.

Definition insets_of (b : Binding) (scene : Scene) : SafeAreaInsets :=
  if useSafeArea b then getSafeAreaInsets scene (safeArea b) else zeroInsets.

(** The coordinates [placeTarget] computes. *)
Definition anchored_position (b : Binding) (scene : Scene)
  (target : GameObject) : num * num :=
  let viewport := getViewportRect scene in
  let insets := insets_of b scene in
  let left := rect_x viewport + left insets in
  let right := rect_x viewport + rect_width viewport - right insets in
  let top := rect_y viewport + top insets in
  let bottom := rect_y viewport + rect_height viewport - bottom insets in
  let availableWidth := max zero (right - left) in
  let availableHeight := max zero (bottom - top) in
  let size := getDisplaySize target in
  let halfW := fst size / two in
  let halfH := snd size / two in
  let x := computeAnchoredX (anchor b) left availableWidth right halfW + offsetX b in
  let y := computeAnchoredY (anchor b) top availableHeight bottom halfH + offsetY b in
  (x, y).

Definition placeTarget (b : Binding) (scene : Scene) (target : GameObject)
  : Result GameObject :=
  if destroyed b then Ok target
  else
    let '(x, y) := anchored_position b scene target in
    setTargetPosition target x y.

Record AnchorToViewportOptions : Type := mkAnchorOptions {
  opt_scene : option Scene;
  opt_target : GameObject;
  opt_target_scene : option Scene;      (* target.scene *)
  opt_anchor : option ViewportAnchor;
  opt_offsetX : option num;
  opt_offsetY : option num;
  opt_useSafeArea : option bool;
  opt_safeArea : option SafeAreaOptions;
  opt_autoResize : option bool
}.

(** [anchorToViewport(options)]: the binding it creates and the target as
    first placed, or the error thrown. *)
Definition anchorToViewport (options : AnchorToViewportOptions)
  : Result (Binding * GameObject) :=
  let scene :=
    match opt_scene options with
    | Some sc => Some sc
    | None => opt_target_scene options
    end in
  match scene with
  | None =>
      Error "anchorToViewport: scene not found. Pass options.scene or use a scene-owned target."
  | Some scene =>
      let b :=
        mkBinding (dflt (opt_anchor options) top_left)
          (dflt (opt_offsetX options) zero)
          (dflt (opt_offsetY options) zero)
          (dflt (opt_useSafeArea options) true)
          (opt_safeArea options)
          (dflt (opt_autoResize options) true)
          false in
      match placeTarget b scene (opt_target options) with
      | Ok t => Ok (b, t)
      | Error msg => Error msg
      end
  end.

Definition destroyHandle (b : Binding) : Binding :=
  if destroyed b then b
  else mkBinding (anchor b) (offsetX b) (offsetY b) (useSafeArea b)
         (safeArea b) (autoResize b) true.

(** *** The nine names read as a column and a row *)

Inductive Horizontal : Type := Left | HCentered | Right.
Inductive Vertical : Type := Top | VCentered | Bottom.

Definition horizontal (a : ViewportAnchor) : Horizontal :=
  match a with
  | top_left | center_left | bottom_left => Left
  | top_center | center | bottom_center => HCentered
  | top_right | center_right | bottom_right => Right
  end.

Definition vertical (a : ViewportAnchor) : Vertical :=
  match a with
  | top_left | top_center | top_right => Top
  | center_left | center | center_right => VCentered
  | bottom_left | bottom_center | bottom_right => Bottom
  end.

(** The inset-adjusted viewport rectangle, as its four edges. *)
Definition edge_left (b : Binding) (scene : Scene) : num :=
  rect_x (getViewportRect scene) + left (insets_of b scene).
Definition edge_right (b : Binding) (scene : Scene) : num :=
  rect_x (getViewportRect scene) + rect_width (getViewportRect scene)
  - right (insets_of b scene).
Definition edge_top (b : Binding) (scene : Scene) : num :=
  rect_y (getViewportRect scene) + top (insets_of b scene).
Definition edge_bottom (b : Binding) (scene : Scene) : num :=
  rect_y (getViewportRect scene) + rect_height (getViewportRect scene)
  - bottom (insets_of b scene).

(** Where a target goes along one axis, by its column or row. *)
Definition across (h : Horizontal) (lo hi half : num) : num :=
  match h with
  | Left => lo + half
  | HCentered => lo + max zero (hi - lo) / two
  | Right => hi - half
  end.

Definition down (v : Vertical) (lo hi half : num) : num :=
  match v with
  | Top => lo + half
  | VCentered => lo + max zero (hi - lo) / two
  | Bottom => hi - half
  end.

(** *** The placement example: a 100 x 50 target, an 800 x 600 viewport
    without insets, anchored top-right with offset (-10, 10). *)
Definition example_scene : Scene :=
  mkScene (of_Z 800) (of_Z 600) None None None.

Definition example_target : GameObject :=
  mkGameObject (Some (of_Z 100)) (Some (of_Z 50)) None None None true
    (zero, zero).

Definition example_options : AnchorToViewportOptions :=
  mkAnchorOptions (Some example_scene) example_target None (Some top_right)
    (Some (of_Z (-10))) (Some (of_Z 10)) None None None.

End Anchor.

(* ================================================================== *)
(** ** DebugScrollContainer.ts: item removal, setters and the wheel *)
(* ================================================================== *)

Module ScrollControls.
Import JsNum Scroll.
Local Open Scope string_scope.
Local Open Scope list_scope.
Local Open Scope num_scope.

Definition _wheelEnabled s := st_wheelEnabled (style s).
Definition _wheelStep s := st_wheelStep (style s).

(** Assignment to the style fields, all other state kept. *)
Definition set_style (s : DebugScrollContainer) (st : Style) :=
  mkContainer st (_contentMinY s) (_contentHeight s) (_scrollY s) (position s)
    (size s) (_panel s) (content_list s) (content_pos s) (_maskGraphics s)
    (_scrollbar s) (_wheelZone s) (emitted s).

(** *** Removing one child

    [this._content.list] holds an object at most once, so a child is named
    by its place in that list; an object that is not a child is named by any
    place past the end.  [content_exists] is [this._content.exists(child)]
    and [content_remove] is what [this._content.remove(child)] leaves. *)
Definition content_exists (child : nat) s : bool :=
  (child <? List.length (content_list s))%nat.

Definition content_remove (child : nat) (l : list Item) : list Item :=
  firstn child l ++ skipn (S child) l.

Definition removeItem (child : nat) s : DebugScrollContainer :=
  if negb (content_exists child s) then s
  else layout (set_content_list s (content_remove child (content_list s))).

(** *** Setters *)

Definition setWheelEnabled (enabled : bool) s : DebugScrollContainer :=
  let st := style s in
  set_style s
    (mkStyle (st_width st) (st_height st) (st_paddingLeft st)
       (st_paddingRight st) (st_paddingTop st) (st_paddingBottom st)
       (st_bgColor st) (st_strokeColor st) (st_strokeThickness st)
       (st_cornerRadius st) (st_scrollbarEnabled st) (st_scrollbarWidth st)
       (st_scrollbarColor st) (st_scrollbarTrackColor st)
       (st_scrollbarMinThumbHeight st) enabled (st_wheelStep st)).

Definition setWheelStep (step : num) s : DebugScrollContainer :=
  let st := style s in
  set_style s
    (mkStyle (st_width st) (st_height st) (st_paddingLeft st)
       (st_paddingRight st) (st_paddingTop st) (st_paddingBottom st)
       (st_bgColor st) (st_strokeColor st) (st_strokeThickness st)
       (st_cornerRadius st) (st_scrollbarEnabled st) (st_scrollbarWidth st)
       (st_scrollbarColor st) (st_scrollbarTrackColor st)
       (st_scrollbarMinThumbHeight st) (st_wheelEnabled st) (max one step)).

Definition setScrollbarEnabled (enabled : bool) s : DebugScrollContainer :=
  if Bool.eqb (_scrollbarEnabled s) enabled then s else
  let st := style s in
  let s :=
    set_style s
      (mkStyle (st_width st) (st_height st) (st_paddingLeft st)
         (st_paddingRight st) (st_paddingTop st) (st_paddingBottom st)
         (st_bgColor st) (st_strokeColor st) (st_strokeThickness st)
         (st_cornerRadius st) enabled (st_scrollbarWidth st)
         (st_scrollbarColor st) (st_scrollbarTrackColor st)
         (st_scrollbarMinThumbHeight st) (st_wheelEnabled st)
         (st_wheelStep st)) in
  redrawScrollbar s.

Definition setViewportSize (width height : num) s : DebugScrollContainer :=
  let st := style s in
  let s :=
    set_style s
      (mkStyle (max one width) (max one height) (st_paddingLeft st)
         (st_paddingRight st) (st_paddingTop st) (st_paddingBottom st)
         (st_bgColor st) (st_strokeColor st) (st_strokeThickness st)
         (st_cornerRadius st) (st_scrollbarEnabled st) (st_scrollbarWidth st)
         (st_scrollbarColor st) (st_scrollbarTrackColor st)
         (st_scrollbarMinThumbHeight st) (st_wheelEnabled st)
         (st_wheelStep st)) in
  let s := setSize s (_width s) (_height s) in
  layout s.

(** The argument of [setPadding]. *)
Record PaddingOptions : Type := mkPadding {
  pad_left : option num;
  pad_right : option num;
  pad_top : option num;
  pad_bottom : option num
}.

Definition setPadding (options : PaddingOptions) s : DebugScrollContainer :=
  let st := style s in
  let s :=
    set_style s
      (mkStyle (st_width st) (st_height st)
         (dflt (pad_left options) (st_paddingLeft st))
         (dflt (pad_right options) (st_paddingRight st))
         (dflt (pad_top options) (st_paddingTop st))
         (dflt (pad_bottom options) (st_paddingBottom st))
         (st_bgColor st) (st_strokeColor st) (st_strokeThickness st)
         (st_cornerRadius st) (st_scrollbarEnabled st) (st_scrollbarWidth st)
         (st_scrollbarColor st) (st_scrollbarTrackColor st)
         (st_scrollbarMinThumbHeight st) (st_wheelEnabled st)
         (st_wheelStep st)) in
  layout s.

(** [DebugScrollContainerStyleOptions] *)
Record DebugScrollContainerStyleOptions : Type := mkStyleOptions {
  so_width : option num;
  so_height : option num;
  so_paddingLeft : option num;
  so_paddingRight : option num;
  so_paddingTop : option num;
  so_paddingBottom : option num;
  so_bgColor : option HexColor;
  so_strokeColor : option HexColor;
  so_strokeThickness : option num;
  so_cornerRadius : option num;
  so_scrollbarEnabled : option bool;
  so_scrollbarWidth : option num;
  so_scrollbarColor : option HexColor;
  so_scrollbarTrackColor : option HexColor;
  so_scrollbarMinThumbHeight : option num
}.

(** [if (options.c) this._c = options.c] for a colour: an absent colour and
    the empty string are both falsy. *)
Definition if_truthy (c : option HexColor) (current : HexColor) : HexColor :=
  match c with
  | Some EmptyString => current
  | Some v => v
  | None => current
  end.

(** [if (options.x !== undefined) this._x = Math.max(1, options.x)] *)
Definition at_least_one (x : option num) (current : num) : num :=
  match x with
  | Some v => max one v
  | None => current
  end.

Definition setStyle (options : DebugScrollContainerStyleOptions) s
  : DebugScrollContainer :=
  let st := style s in
  let s :=
    set_style s
      (mkStyle
         (at_least_one (so_width options) (st_width st))
         (at_least_one (so_height options) (st_height st))
         (dflt (so_paddingLeft options) (st_paddingLeft st))
         (dflt (so_paddingRight options) (st_paddingRight st))
         (dflt (so_paddingTop options) (st_paddingTop st))
         (dflt (so_paddingBottom options) (st_paddingBottom st))
         (if_truthy (so_bgColor options) (st_bgColor st))
         (if_truthy (so_strokeColor options) (st_strokeColor st))
         (dflt (so_strokeThickness options) (st_strokeThickness st))
         (dflt (so_cornerRadius options) (st_cornerRadius st))
         (dflt (so_scrollbarEnabled options) (st_scrollbarEnabled st))
         (dflt (so_scrollbarWidth options) (st_scrollbarWidth st))
         (if_truthy (so_scrollbarColor options) (st_scrollbarColor st))
         (if_truthy (so_scrollbarTrackColor options)
            (st_scrollbarTrackColor st))
         (dflt (so_scrollbarMinThumbHeight options)
            (st_scrollbarMinThumbHeight st))
         (st_wheelEnabled st) (st_wheelStep st)) in
  layout s.

(** *** The mouse wheel *)

(** An object under the pointer, seen from one scroll container: whether it
    is the container's wheel zone, and its chain of [parentContainer]s,
    nearest first, each marked by whether it is that container. *)
Record OverObject : Type := mkOver {
  is_wheelZone : bool;
  parents : list bool
}.

Definition ownsObject (obj : OverObject) : bool :=
  if is_wheelZone obj then true
  else if hd false (parents obj) then true
  else existsb (fun is_this => is_this) (parents obj).

Definition isWheelOverThisContainer (currentlyOver : list OverObject) : bool :=
  match currentlyOver with
  | [] => false
  | _ => existsb ownsObject currentlyOver
  end.

(** The DOM event handed to the handler, seen through the two methods the
    handler probes, and what the handler did to it. *)
Record WheelEvent : Type := mkWheelEvent {
  has_preventDefault : bool;
  has_stopPropagation : bool
}.

Record Consumed : Type := mkConsumed {
  defaultPrevented : bool;
  propagationStopped : bool
}.

Definition untouched : Consumed := mkConsumed false false.

Definition handleWheel (currentlyOver : list OverObject) (deltaY : num)
  (event : option WheelEvent) s : DebugScrollContainer * Consumed :=
  if negb (_wheelEnabled s) then (s, untouched) else
  if deltaY === zero then (s, untouched) else
  if negb (isWheelOverThisContainer currentlyOver) then (s, untouched) else
  let before := _scrollY s in
  let direction := if zero <? deltaY then one else - one in
  let s := scrollBy (direction * _wheelStep s) s in
  if before === _scrollY s then (s, untouched) else
  match event with
  | None => (s, untouched)
  | Some e => (s, mkConsumed (has_preventDefault e) (has_stopPropagation e))
  end.

(** *** Children that can be measured

    Every child has a top and a bottom edge that are finite numbers. *)
Definition measurable (items : list Item) : bool :=
  forallb (fun i => isFinite (item_top i) && isFinite (item_bottom i)) items.

(** *** Sample children and wheel events

    The child that would come next in the stacked list, a child whose [y] is
    [NaN], the pointer over a child of [this._content] and over nothing of
    this container, and a DOM wheel event. *)
Definition next_child : Item :=
  mkItem 10 (Some (of_Z 520)) (Some (of_Z 40)) (Some (of_Z 40)) None.

Definition lost_child : Item :=
  mkItem 11 (Some NaN) (Some (of_Z 40)) (Some (of_Z 40)) None.

Definition over_child : list OverObject := [mkOver false [false; true]].

Definition over_elsewhere : list OverObject := [mkOver false [false]].

Definition dom_wheel : WheelEvent := mkWheelEvent true true.

End ScrollControls.

(* ================================================================== *)
(** ** layoutAuto.ts: reading a trace around [destroy()] *)
(* ================================================================== *)

Module LayoutAutoTrace.
Import LayoutAuto.

(** Whether a layout called [destroy()] somewhere in the trace. *)
Fixpoint calls_destroy (tr : Trace) : bool :=
  match tr with
  | [] => false
  | Called call_destroy :: _ => true
  | _ :: rest => calls_destroy rest
  end.

(** The layouts entered after the first call to [destroy()]. *)
Fixpoint entered_after_destroy (tr : Trace) : list Target :=
  match tr with
  | [] => []
  | Called call_destroy :: rest => entries rest
  | _ :: rest => entered_after_destroy rest
  end.

(** Target 1 destroys the scheduler from inside its layout and then marks
    target 5; every other target just returns. *)
Definition destroying_code (_ : Trace) (t : Target) : Code :=
  match t with
  | 1%nat => Do call_destroy (Do (call_markDirty 5%nat) Return)
  | _ => Return
  end.

End LayoutAutoTrace.

(* ================================================================== *)
(** ** anchorToViewport.ts: a scene with a notch *)
(* ================================================================== *)

Module AnchorSamples.
Import JsNum Anchor.

(** An 800 x 600 game shown on a 400 x 300 canvas, where the browser
    reports a top safe-area inset of 20 CSS pixels; and a binding that adds
    5 game units to the top inset and takes 50 off the left one. *)
Definition notched_scene : Scene :=
  mkScene (of_Z 800) (of_Z 600) None (Some (of_Z 400, of_Z 300))
    (Some (mkInsets zero zero (of_Z 20) zero)).

Definition notched_binding : Binding :=
  mkBinding top_left zero zero true
    (Some (mkSafeAreaOptions
             (Some (mkPartial (Some (of_Z (-50))) None (Some (of_Z 5)) None))
             None))
    true false.

End AnchorSamples.

(* ================================================================== *)
(** ** utils.ts: hex colours *)
(* ================================================================== *)

(** A JavaScript string is a sequence of UTF-16 code units.  The strings
    modelled here are those whose code units are all below 256, one [ascii]
    each, which covers every hex colour and every string that differs from
    one by Latin-1 characters. *)
Module Utils.
Import Ascii JsNum.
Local Open Scope string_scope.
Local Open Scope Z_scope.

(** *** The string methods used *)

(** [s.slice(start, end)] for [0 <= start <= end]. *)
Definition slice (start stop : nat) (s : string) : string :=
  substring start (stop - start) s.

(** [s.slice(1)] *)
Definition slice_from_1 (s : string) : string :=
  match s with
  | EmptyString => EmptyString
  | String _ rest => rest
  end.

(** [s.startsWith("#")] *)
Definition startsWith_hash (s : string) : bool :=
  match s with
  | String c _ => Ascii.eqb c "#"%char
  | EmptyString => false
  end.

(** [s.padStart(n, "0")] *)
Fixpoint zeros (n : nat) : string :=
  match n with
  | O => EmptyString
  | S n' => String "0"%char (zeros n')
  end.

Definition padStart (n : nat) (s : string) : string :=
  zeros (n - String.length s) ++ s.

(** *** [parseInt(s, 16)] *)

(** The white space [parseInt] skips ([StrWhiteSpaceChar]), below 256: TAB,
    LF, VT, FF, CR, space and the no-break space. *)
Definition isStrWhiteSpaceChar (c : ascii) : bool :=
  let n := Z.of_N (N_of_ascii c) in
  ((9 <=? n) && (n <=? 13)) || (n =? 32) || (n =? 160).

Fixpoint trimStart (s : string) : string :=
  match s with
  | String c rest => if isStrWhiteSpaceChar c then trimStart rest else s
  | EmptyString => s
  end.

(** The value of a digit in radix 16. *)
Definition digitValue (c : ascii) : option Z :=
  let n := Z.of_N (N_of_ascii c) in
  if (48 <=? n) && (n <=? 57) then Some (n - 48)
  else if (97 <=? n) && (n <=? 102) then Some (n - 87)
  else if (65 <=? n) && (n <=? 70) then Some (n - 55)
  else None.

(** The value of the longest run of digits at the start of [s], [None] when
    [s] starts with no digit. *)
Fixpoint leadingDigits (s : string) (acc : option Z) : option Z :=
  match s with
  | String c rest =>
      match digitValue c with
      | Some v =>
          leadingDigits rest
            (Some (16 * match acc with Some n => n | None => 0 end + v))
      | None => acc
      end
  | EmptyString => acc
  end.

(** [parseInt(s, 16)]: white space is skipped, a sign is read, a [0x] or
    [0X] prefix is dropped, and the digits that follow are read as far as
    they go; without a digit the result is [NaN]. *)
Definition parseInt16 (s : string) : num :=
  let s := trimStart s in
  let '(sign, s) :=
    match s with
    | String c rest =>
        if Ascii.eqb c "-"%char then (-1, rest)
        else if Ascii.eqb c "+"%char then (1, rest)
        else (1, s)
    | EmptyString => (1, s)
    end in
  let s :=
    match s with
    | String c0 (String c1 rest) =>
        if Ascii.eqb c0 "0"%char && (Ascii.eqb c1 "x"%char || Ascii.eqb c1 "X"%char)
        then rest else s
    | _ => s
    end in
  match leadingDigits s None with
  | Some n => of_Z (sign * n)
  | None => NaN
  end.

(** *** [parseHex], [toColorInt], [hexToColorAlpha] *)

Record Rgba : Type := mkRgba { r : num; g : num; b : num; a : num }.

Definition parseHex (hex : string) : Rgba :=
  let h := if startsWith_hash hex then slice_from_1 hex else hex in
  let h :=
    match h with
    | String h0 (String h1 (String h2 EmptyString)) =>
        String h0 (String h0 (String h1 (String h1 (String h2
          (String h2 EmptyString)))))
    | _ => h
    end in
  mkRgba
    (parseInt16 (slice 0 2 h))
    (parseInt16 (slice 2 4 h))
    (parseInt16 (slice 4 6 h))
    (if (8 <=? String.length h)%nat
     then (parseInt16 (slice 6 8 h) / of_Z 255)%num
     else one).

(** [ToInt32]: [NaN] and the infinities give 0; a finite number is
    truncated towards zero and wrapped into the signed 32-bit range. *)
Definition wrap32 (z : Z) : Z :=
  let m := z mod 2 ^ 32 in
  if m <? 2 ^ 31 then m else m - 2 ^ 32.

Definition ToInt32 (x : num) : Z :=
  match x with
  | Fin q => wrap32 (Z.quot (Qnum (this q)) (Zpos (Qden (this q))))
  | _ => 0
  end.

(** [x << n] on 32-bit integers. *)
Definition shl32 (x n : Z) : Z := wrap32 (Z.shiftl x (n mod 32)).

(** [(c.r << 16) | (c.g << 8) | c.b], a signed 32-bit integer. *)
Definition toColorInt (c : Rgba) : Z :=
  Z.lor (Z.lor (shl32 (ToInt32 (r c)) 16) (shl32 (ToInt32 (g c)) 8))
    (ToInt32 (b c)).

Record ColorAlpha : Type := mkColorAlpha { color : Z; alpha : num }.

Definition hexToColorAlpha (hex : string) : ColorAlpha :=
  let c := parseHex hex in
  mkColorAlpha (toColorInt c) (a c).

(** *** [color.toString(16)] on an integer, and the colour string of a label *)

Definition hexDigit (v : Z) : ascii :=
  ascii_of_N (Z.to_N (if v <? 10 then 48 + v else 87 + v)).

(** The digits of a positive integer below [16 ^ fuel], most significant
    first. *)
Fixpoint toHex (fuel : nat) (n : Z) : string :=
  match fuel with
  | O => EmptyString
  | S fuel' =>
      if n <? 16 then String (hexDigit n) EmptyString
      else toHex fuel' (n / 16) ++ String (hexDigit (n mod 16)) EmptyString
  end.

(** A 32-bit integer has at most 8 hex digits. *)
Definition toString16 (z : Z) : string :=
  if z <? 0 then "-" ++ toHex 8 (- z) else toHex 8 z.

(** [`#${c.color.toString(16).padStart(6, "0")}`] with
    [c = hexToColorAlpha(color)], as [DebugLabel] and [DebugBadge] compute
    the colour they hand to the text object. *)
Definition colorStr (color_in : string) : string :=
  "#" ++ padStart 6 (toString16 (color (hexToColorAlpha color_in))).

(** A string of hex digits, and the value it denotes. *)
Fixpoint hexValue (s : string) (acc : Z) : option Z :=
  match s with
  | EmptyString => Some acc
  | String c rest =>
      match digitValue c with
      | Some v => hexValue rest (16 * acc + v)
      | None => None
      end
  end.

(** The same digits, letters in lower case. *)
Fixpoint lowerHex (s : string) : string :=
  match s with
  | EmptyString => EmptyString
  | String c rest =>
      String (match digitValue c with Some v => hexDigit v | None => c end)
        (lowerHex rest)
  end.

End Utils.

(* ================================================================== *)
(** ** DebugColumnContainer.ts *)
(* ================================================================== *)

Module Column.
Import JsNum.
Local Open Scope list_scope.
Local Open Scope num_scope.

(** A child, seen through what [layout()] and [getContentHeight()] probe:
    whether it has [setPosition], its [displayHeight] when that property
    exists, and its position.  [child_ref] stands for the reference of the
    object: two records are the same object exactly when it agrees. *)
Record Child : Type := mkChild {
  child_ref : nat;
  child_setPosition : bool;
  child_displayHeight : option num;
  child_xy : num * num
}.

Inductive Direction : Type := top_to_bottom | bottom_to_top.

Record DebugColumnContainer : Type := mkColumn {
  _spacingY : num;
  _paddingLeft : num;
  _paddingRight : num;
  _paddingTop : num;
  _paddingBottom : num;
  _direction : Direction;
  this_list : list Child          (* this.list *)
}.

Record CreateColumnContainerOptions : Type := mkColumnOptions {
  spacingY : option num;
  paddingLeft : option num;
  paddingRight : option num;
  paddingTop : option num;
  paddingBottom : option num;
  direction : option Direction
}.

Definition constructor (options : CreateColumnContainerOptions)
  : DebugColumnContainer :=
  mkColumn (dflt (spacingY options) zero) (dflt (paddingLeft options) zero)
    (dflt (paddingRight options) zero) (dflt (paddingTop options) zero)
    (dflt (paddingBottom options) zero)
    (dflt (direction options) top_to_bottom) [].

Definition set_list (c : DebugColumnContainer) (l : list Child) :=
  mkColumn (_spacingY c) (_paddingLeft c) (_paddingRight c) (_paddingTop c)
    (_paddingBottom c) (_direction c) l.

(** [this.add(child)] is [Phaser.GameObjects.Container.add]: the object
    is pushed unless [indexOf] finds it in the list. *)
Definition is_child (l : list Child) (child : Child) : bool :=
  existsb (fun c => Nat.eqb (child_ref child) (child_ref c)) l.

Definition container_add (l : list Child) (child : Child) : list Child :=
  if is_child l child then l else l ++ [child].

Definition addItem (child : Child) (c : DebugColumnContainer) :=
  set_list c (container_add (this_list c) child).

Definition addItems (children : list Child) (c : DebugColumnContainer) :=
  fold_left (fun c child => addItem child c) children c.

Definition setSpacingY (spacing : num) (c : DebugColumnContainer) :=
  mkColumn spacing (_paddingLeft c) (_paddingRight c) (_paddingTop c)
    (_paddingBottom c) (_direction c) (this_list c).

(** [("displayHeight" in go ? go.displayHeight : 0)] *)
Definition heightOf (go : Child) : num :=
  match child_displayHeight go with
  | Some h => h
  | None => zero
  end.

Definition setPosition (go : Child) (x y : num) : Child :=
  mkChild (child_ref go) (child_setPosition go) (child_displayHeight go)
    (x, y).

(** The loop of [layout()] over [ordered], from the given [cursor]: the
    children as it leaves them, in the order it visits them. *)
Fixpoint place (paddingLeft spacingY cursor : num) (ordered : list Child)
  : list Child :=
  match ordered with
  | [] => []
  | go :: rest =>
      if negb (child_setPosition go)
      then go :: place paddingLeft spacingY cursor rest
      else
        let h := heightOf go in
        setPosition go paddingLeft (cursor + h / two)
        :: place paddingLeft spacingY (cursor + (h + spacingY)) rest
  end.

(** [this._direction === "bottom-to-top" ? [...items].reverse() : items] *)
Definition ordered (d : Direction) (items : list Child) : list Child :=
  match d with
  | bottom_to_top => rev items
  | top_to_bottom => items
  end.

(** [layout()]: the children are moved in place, so [this.list] keeps its
    order. *)
Definition layout (c : DebugColumnContainer) : DebugColumnContainer :=
  let placed :=
    place (_paddingLeft c) (_spacingY c) (_paddingTop c)
      (ordered (_direction c) (this_list c)) in
  set_list c (ordered (_direction c) placed).

(** The loop of [getContentHeight()] from the running [total]. *)
Fixpoint addHeights (spacingY total : num) (items : list Child) : num :=
  match items with
  | [] => total
  | go :: rest =>
      let total := total + heightOf go in
      match rest with
      | [] => total
      | _ => addHeights spacingY (total + spacingY) rest
      end
  end.

Definition getContentHeight (c : DebugColumnContainer) : num :=
  addHeights (_spacingY c) (_paddingTop c + _paddingBottom c) (this_list c).

(** *** Children that can be stacked *)

(** Every child has [setPosition] and a height that is a finite number, not
    negative. *)
Definition stackable (items : list Child) : bool :=
  forallb (fun go => child_setPosition go && isFinite (heightOf go)
                     && (zero <=? heightOf go)) items.

(** Three labels of height 20, 30 and 40, not yet placed, and a fourth of
    height 50. *)
Definition three_labels : list Child :=
  [mkChild 0 true (Some (of_Z 20)) (zero, zero);
   mkChild 1 true (Some (of_Z 30)) (zero, zero);
   mkChild 2 true (Some (of_Z 40)) (zero, zero)].

Definition fourth_label : Child :=
  mkChild 3 true (Some (of_Z 50)) (zero, zero).

End Column.

(* ================================================================== *)
(** ** Facts about numbers *)
(* ================================================================== *)

(** Rational arithmetic stays folded under [cbn] in the proofs below. *)
#[local] Arguments Qccompare : simpl never.
#[local] Arguments Q2Qc : simpl never.
#[local] Arguments Qcplus : simpl never.
#[local] Arguments Qcopp : simpl never.
#[local] Arguments Qcmult : simpl never.
#[local] Arguments Qcinv : simpl never.

Module JsNumFacts.
Import JsNum.
Local Open Scope num_scope.

Lemma Qccompare_spec (x y : Qc) :
  CompareSpec (x = y) (x < y)%Qc (y < x)%Qc (Qccompare x y).
Proof.
  unfold Qccompare.
  destruct (Qcompare_spec x y) as [E | L | G]; constructor; auto;
    now apply Qc_is_canon.
Qed.

(** Order facts on [Qc], sums and differences included, by way of [Q]. *)
Ltac qc_arith :=
  repeat match goal with
  | H : @eq Qc ?x ?y |- _ =>
      let H' := fresh in
      assert (H' : (this x == this y)%Q) by (rewrite H; apply Qeq_refl);
      clear H
  end;
  unfold Qclt, Qcle, Qcminus, Qcplus, Qcopp, Q2Qc, inject_Z in *;
  cbn [this] in *; rewrite ?Qred_correct in *; lra.

(** Case analysis on the kinds of number and on every comparison. *)
Ltac num_cases :=
  unfold Clamp, lt, le, not in *; intros;
  repeat match goal with a : num |- _ => destruct a end;
  cbn in *;
  repeat match goal with
  | |- context [Qccompare ?x ?y] => destruct (Qccompare_spec x y); cbn in *
  | H : context [Qccompare ?x ?y] |- _ =>
      destruct (Qccompare_spec x y); cbn in *
  end;
  repeat match goal with
  | H : Fin _ = Fin _ |- _ => injection H as H
  end;
  subst;
  try congruence;
  try (exfalso; qc_arith);
  try (f_equal; apply Qcle_antisym; qc_arith).

Lemma eqb_eq (a b : num) : (a === b) = true -> a = b.
Proof. num_cases. Qed.

Lemma eqb_neq (a b : num) : (a === b) = false -> a <> NaN -> a <> b.
Proof. num_cases. Qed.

Lemma eqb_refl (a : num) : a <> NaN -> (a === a) = true.
Proof. num_cases. Qed.

Lemma eqb_NaN_l (a : num) : (NaN === a) = false.
Proof. reflexivity. Qed.

Lemma le_refl (a : num) : a <> NaN -> a <= a.
Proof. num_cases. Qed.

Lemma le_trans (a b c : num) : a <= b -> b <= c -> a <= c.
Proof. num_cases. Qed.

Lemma le_antisym (a b : num) : a <= b -> b <= a -> a = b.
Proof. num_cases. Qed.

Lemma lt_le (a b : num) : a < b -> a <= b.
Proof. num_cases. Qed.

Lemma ltb_false_le (a b : num) :
  a <> NaN -> b <> NaN -> (a <? b) = false -> b <= a.
Proof. num_cases. Qed.

Lemma leb_false_lt (a b : num) :
  a <> NaN -> b <> NaN -> (a <=? b) = false -> b < a.
Proof. num_cases. Qed.

Lemma le_not_nan (a b : num) : a <= b -> a <> NaN /\ b <> NaN.
Proof. num_cases; split; congruence. Qed.

Lemma max_not_nan (a b : num) : a <> NaN -> b <> NaN -> max a b <> NaN.
Proof. num_cases. Qed.

Lemma min_not_nan (a b : num) : a <> NaN -> b <> NaN -> min a b <> NaN.
Proof. num_cases. Qed.

Lemma max_nan (a b : num) : max a b = NaN -> a = NaN \/ b = NaN.
Proof. num_cases; auto. Qed.

Lemma le_max_l (a b : num) : a <> NaN -> b <> NaN -> a <= max a b.
Proof. num_cases. Qed.

Lemma le_max_r (a b : num) : a <> NaN -> b <> NaN -> b <= max a b.
Proof. num_cases. Qed.

Lemma max_l (a b : num) : b <= a -> max a b = a.
Proof. num_cases. Qed.

Lemma max_r (a b : num) : a <= b -> max a b = b.
Proof. num_cases. Qed.

Lemma min_l (a b : num) : a <= b -> min a b = a.
Proof. num_cases. Qed.

Lemma min_r (a b : num) : b <= a -> min a b = b.
Proof. num_cases. Qed.

Lemma min_le_l (a b : num) : a <> NaN -> b <> NaN -> min a b <= a.
Proof. num_cases. Qed.

Lemma min_le_r (a b : num) : a <> NaN -> b <> NaN -> min a b <= b.
Proof. num_cases. Qed.

Lemma min_cases (a b : num) :
  a <> NaN -> b <> NaN -> min a b = a \/ min a b = b.
Proof. num_cases; auto. Qed.

Lemma max_cases (a b : num) :
  a <> NaN -> b <> NaN -> max a b = a \/ max a b = b.
Proof. num_cases; auto. Qed.

Lemma min_PInf_l (a : num) : min PInf a = a.
Proof. now destruct a. Qed.

Lemma max_NInf_l (a : num) : max NInf a = a.
Proof. now destruct a. Qed.

Lemma mul_comm (a b : num) : a * b = b * a.
Proof.
  destruct a, b; cbn; try reflexivity.
  f_equal. apply Qcmult_comm.
Qed.

(** [Clamp] on numbers: the result lies between the bounds, and is the
    value itself or the bound it was beyond. *)
Lemma Clamp_bounds (v lo hi : num) :
  v <> NaN -> lo <= hi -> lo <= Clamp v lo hi <= hi.
Proof. num_cases; split; num_cases. Qed.

Lemma Clamp_inside (v lo hi : num) : lo <= v -> v <= hi -> Clamp v lo hi = v.
Proof. num_cases. Qed.

Lemma Clamp_below (v lo hi : num) : v < lo -> lo <= hi -> Clamp v lo hi = lo.
Proof. num_cases. Qed.

Lemma Clamp_above (v lo hi : num) : hi < v -> lo <= hi -> Clamp v lo hi = hi.
Proof. num_cases. Qed.

Lemma Clamp_idem (v lo hi : num) :
  Clamp (Clamp v lo hi) lo hi = Clamp v lo hi.
Proof. num_cases. Qed.

Lemma Clamp_NaN (lo hi : num) : Clamp NaN lo hi = NaN.
Proof. destruct lo, hi; reflexivity. Qed.

Lemma max_zero_sub_ge_one (a : num) :
  one <= a -> max zero (zero - a) = zero.
Proof.
  intros H. apply max_l. unfold zero, one, of_Z in *.
  num_cases.
Qed.

(** Scrolling back by more than the whole range ends at 0. *)
Lemma Clamp_far_below (m d : num) :
  zero <= m -> m + d < zero -> Clamp (m + d) zero m = zero.
Proof. intros Hm Hd. now apply Clamp_below. Qed.

Lemma range_below_490 (x : num) :
  one <= x ->
  max zero (of_Z 490 - x) + of_Z (-1000) < zero.
Proof. intros H. unfold zero, one, of_Z in *. num_cases. Qed.

Lemma max_zero_nonneg (a : num) : a <> NaN -> zero <= max zero a.
Proof. intros. apply le_max_l; [discriminate | assumption]. Qed.

End JsNumFacts.

(* ================================================================== *)
(** ** The scroll viewport *)
(* ================================================================== *)

Module ScrollFacts.
Import JsNum JsNumFacts Scroll.
Local Open Scope list_scope.
Local Open Scope num_scope.

(** *** What each step of [layout] leaves alone *)

Lemma redrawPanel_frame s :
  redrawPanel s = set_panel s (_panel (redrawPanel s)).
Proof. unfold redrawPanel. destruct (_ <=? _); reflexivity. Qed.

Lemma redrawScrollbar_frame s :
  redrawScrollbar s = set_scrollbar s (_scrollbar (redrawScrollbar s)).
Proof.
  unfold redrawScrollbar.
  destruct (negb _); [reflexivity |].
  destruct (_ <=? _); [reflexivity |].
  destruct (_ <=? _); reflexivity.
Qed.

Lemma updateContentMetrics_frame s :
  updateContentMetrics s =
  set_metrics s (fst (content_metrics (content_list s)))
                (snd (content_metrics (content_list s))).
Proof.
  unfold updateContentMetrics.
  destruct (content_metrics (content_list s)); reflexivity.
Qed.

(** *** The content bounds scan *)

Lemma sub_not_nan (a b : num) :
  isFinite a = true -> b <> NaN -> a - b <> NaN.
Proof. destruct a, b; cbn; congruence. Qed.

Lemma sub_finite (a b : num) :
  isFinite a = true -> isFinite b = true -> isFinite (a - b) = true.
Proof. destruct a, b; cbn; congruence. Qed.

Lemma max_finite (a b : num) :
  isFinite a = true -> isFinite b = true -> isFinite (max a b) = true.
Proof. destruct a, b; cbn; try congruence. now destruct (Qccompare _ _). Qed.

Lemma finite_not_nan (a : num) : isFinite a = true -> a <> NaN.
Proof. destruct a; cbn; congruence. Qed.

Lemma content_metrics_cases (items : list Item) :
  content_metrics items = (zero, zero) \/
  exists minY maxY,
    scan_items items = (minY, maxY) /\
    isFinite minY = true /\ isFinite maxY = true /\
    content_metrics items = (minY, max zero (maxY - minY)).
Proof.
  unfold content_metrics.
  destruct items as [| i rest]; [now left |].
  destruct (scan_items (i :: rest)) as [minY maxY].
  destruct (isFinite minY) eqn:E1, (isFinite maxY) eqn:E2; cbn;
    try (now left).
  right. now exists minY, maxY.
Qed.

Lemma content_metrics_finite (items : list Item) :
  isFinite (fst (content_metrics items)) = true /\
  isFinite (snd (content_metrics items)) = true.
Proof.
  destruct (content_metrics_cases items)
    as [-> | (minY & maxY & _ & F1 & F2 & ->)]; cbn [fst snd].
  - now split.
  - split; [assumption |].
    apply max_finite; [reflexivity | now apply sub_finite].
Qed.

Lemma content_height_nonneg (items : list Item) :
  zero <= snd (content_metrics items).
Proof.
  destruct (content_metrics_cases items)
    as [-> | (minY & maxY & _ & F1 & F2 & ->)]; cbn [fst snd].
  - reflexivity.
  - apply max_zero_nonneg, finite_not_nan. now apply sub_finite.
Qed.

Lemma scan_items_snoc (items : list Item) (x : Item) :
  scan_items (items ++ [x]) =
  (min (fst (scan_items items)) (item_top x),
   max (snd (scan_items items)) (item_bottom x)).
Proof. unfold scan_items. now rewrite fold_left_app. Qed.

(** What the scan measures: over children whose edges are numbers, [minY]
    is the least top edge and [maxY] the greatest bottom edge. *)
Lemma scan_items_extent (items : list Item) :
  items <> [] ->
  (forall i, In i items -> item_top i <> NaN /\ item_bottom i <> NaN) ->
  (forall i, In i items ->
     fst (scan_items items) <= item_top i /\
     item_bottom i <= snd (scan_items items)) /\
  (exists i, In i items /\ fst (scan_items items) = item_top i) /\
  (exists j, In j items /\ snd (scan_items items) = item_bottom j).
Proof.
  induction items as [| x items IH] using rev_ind; [congruence |].
  intros _ Hnum. rewrite scan_items_snoc. cbn [fst snd].
  destruct (Hnum x) as [Tx Bx]; [apply in_or_app; right; now left |].
  destruct items as [| y items'].
  - cbn [scan_items fold_left fst snd app]. rewrite min_PInf_l, max_NInf_l.
    split; [| split].
    + intros i [<- | []]. split; now apply le_refl.
    + exists x. split; [now left | reflexivity].
    + exists x. split; [now left | reflexivity].
  - set (l := y :: items') in *.
    destruct IH as (Hb & (i0 & Hi0 & Emin) & (j0 & Hj0 & Emax));
      [discriminate | intros i Hi; apply Hnum, in_or_app; now left |].
    assert (Nmin : fst (scan_items l) <> NaN).
    { rewrite Emin. apply Hnum, in_or_app. now left. }
    assert (Nmax : snd (scan_items l) <> NaN).
    { rewrite Emax. apply Hnum, in_or_app. now left. }
    split; [| split].
    + intros i Hi. apply in_app_or in Hi. destruct Hi as [Hi | [<- | []]].
      * destruct (Hb i Hi) as [H1 H2]. split.
        -- eapply le_trans; [now apply min_le_l | exact H1].
        -- eapply le_trans; [exact H2 | now apply le_max_l].
      * split; [now apply min_le_r | now apply le_max_r].
    + destruct (min_cases (fst (scan_items l)) (item_top x) Nmin Tx)
        as [-> | ->].
      * exists i0. split; [apply in_or_app; now left | exact Emin].
      * exists x. split; [apply in_or_app; right; now left | reflexivity].
    + destruct (max_cases (snd (scan_items l)) (item_bottom x) Nmax Bx)
        as [-> | ->].
      * exists j0. split; [apply in_or_app; now left | exact Emax].
      * exists x. split; [apply in_or_app; right; now left | reflexivity].
Qed.

(** *** The state after [layout] *)

Lemma layout_style s : style (layout s) = style s.
Proof.
  unfold layout.
  rewrite redrawScrollbar_frame, updateContentMetrics_frame, redrawPanel_frame.
  reflexivity.
Qed.

Lemma layout_content_list s : content_list (layout s) = content_list s.
Proof.
  unfold layout.
  rewrite redrawScrollbar_frame, updateContentMetrics_frame, redrawPanel_frame.
  reflexivity.
Qed.

Lemma layout_metrics s :
  _contentMinY (layout s) = fst (content_metrics (content_list s)) /\
  _contentHeight (layout s) = snd (content_metrics (content_list s)).
Proof.
  unfold layout.
  rewrite redrawScrollbar_frame, updateContentMetrics_frame, redrawPanel_frame.
  split; reflexivity.
Qed.

Lemma getViewportHeight_style s t :
  style s = style t -> getViewportHeight s = getViewportHeight t.
Proof.
  unfold getViewportHeight, _height, _paddingTop, _paddingBottom.
  now intros ->.
Qed.

Lemma layout_viewportHeight s :
  getViewportHeight (layout s) = getViewportHeight s.
Proof. apply getViewportHeight_style, layout_style. Qed.

Lemma layout_maxScrollY s :
  getMaxScrollY (layout s) =
  max zero (snd (content_metrics (content_list s)) - getViewportHeight s).
Proof.
  unfold getMaxScrollY.
  rewrite layout_viewportHeight.
  now destruct (layout_metrics s) as [_ ->].
Qed.

Lemma layout_scrollY s :
  _scrollY (layout s) = Clamp (_scrollY s) zero (getMaxScrollY (layout s)).
Proof.
  rewrite layout_maxScrollY.
  unfold layout.
  rewrite redrawScrollbar_frame, updateContentMetrics_frame, redrawPanel_frame.
  reflexivity.
Qed.

Lemma maxScrollY_not_nan s :
  isFinite (_contentHeight s) = true ->
  getViewportHeight s <> NaN ->
  getMaxScrollY s <> NaN /\ zero <= getMaxScrollY s.
Proof.
  intros Hf Hv. unfold getMaxScrollY.
  pose proof (sub_not_nan _ _ Hf Hv) as Hs.
  split.
  - apply max_not_nan; [discriminate | assumption].
  - now apply max_zero_nonneg.
Qed.


(** A [NaN] offset is kept by [layout]: every comparison with it fails and
    the clamp returns it. *)
Lemma layout_keeps_NaN_offset s :
  _scrollY s = NaN -> getScrollY (layout s) = NaN.
Proof.
  intros H. unfold getScrollY. rewrite layout_scrollY, H. apply Clamp_NaN.
Qed.


(** The content height is a finite number after [layout], and so in every
    container from construction on. *)
Lemma layout_contentHeight_finite s :
  isFinite (_contentHeight (layout s)) = true.
Proof.
  destruct (layout_metrics s) as [_ ->]. apply content_metrics_finite.
Qed.


(** *** [setScrollY] *)

Lemma getMaxScrollY_ext s t :
  style s = style t -> _contentHeight s = _contentHeight t ->
  getMaxScrollY s = getMaxScrollY t.
Proof.
  intros Hst Hc. unfold getMaxScrollY.
  now rewrite (getViewportHeight_style _ _ Hst), Hc.
Qed.

(** The scrollbar that [redrawScrollbar] draws is determined by the style,
    the content height and the scroll offset. *)
Lemma redrawScrollbar_ext s t :
  style s = style t -> _contentHeight s = _contentHeight t ->
  _scrollY s = _scrollY t ->
  _scrollbar (redrawScrollbar s) = _scrollbar (redrawScrollbar t).
Proof.
  intros Hst Hc Hy.
  unfold redrawScrollbar, getMaxScrollY, getViewportHeight, getViewportWidth,
    getViewportLeft, getViewportTop, _scrollbarEnabled, _scrollbarWidth,
    _scrollbarMinThumbHeight, _scrollbarColor, _scrollbarTrackColor,
    _width, _height, _paddingLeft, _paddingRight, _paddingTop, _paddingBottom.
  rewrite Hst, Hc, Hy.
  destruct (negb _); [reflexivity |].
  destruct (_ <=? _); [reflexivity |].
  destruct (_ <=? _); reflexivity.
Qed.

Lemma setScrollY_same (v : num) s :
  (Clamp v zero (getMaxScrollY s) === _scrollY s) = true ->
  setScrollY v s = s.
Proof. intros E. unfold setScrollY. now rewrite E. Qed.

Lemma setScrollY_changed (v : num) s :
  (Clamp v zero (getMaxScrollY s) === _scrollY s) = false ->
  setScrollY v s =
  let c := Clamp v zero (getMaxScrollY s) in
  let s2 := applyScroll (set_scrollY s c) in
  emit (set_scrollbar s2 (_scrollbar (redrawScrollbar s2)))
       (scroll_changed c (getMaxScrollY s)).
Proof.
  intros E. unfold setScrollY. rewrite E.
  rewrite redrawScrollbar_frame. reflexivity.
Qed.

Lemma setScrollY_scrollY (v : num) s :
  _scrollY (setScrollY v s) = Clamp v zero (getMaxScrollY s).
Proof.
  destruct (Clamp v zero (getMaxScrollY s) === _scrollY s) eqn:E.
  - rewrite setScrollY_same by exact E. symmetry. now apply eqb_eq.
  - rewrite setScrollY_changed by exact E. reflexivity.
Qed.

Lemma setScrollY_style (v : num) s : style (setScrollY v s) = style s.
Proof.
  destruct (Clamp v zero (getMaxScrollY s) === _scrollY s) eqn:E.
  - now rewrite setScrollY_same.
  - now rewrite setScrollY_changed.
Qed.

Lemma setScrollY_metrics (v : num) s :
  _contentMinY (setScrollY v s) = _contentMinY s /\
  _contentHeight (setScrollY v s) = _contentHeight s.
Proof.
  destruct (Clamp v zero (getMaxScrollY s) === _scrollY s) eqn:E.
  - now rewrite setScrollY_same.
  - now rewrite setScrollY_changed.
Qed.

Lemma setScrollY_content_list (v : num) s :
  content_list (setScrollY v s) = content_list s.
Proof.
  destruct (Clamp v zero (getMaxScrollY s) === _scrollY s) eqn:E.
  - now rewrite setScrollY_same.
  - now rewrite setScrollY_changed.
Qed.

Lemma setScrollY_maxScrollY (v : num) s :
  getMaxScrollY (setScrollY v s) = getMaxScrollY s.
Proof.
  apply getMaxScrollY_ext; [apply setScrollY_style | apply setScrollY_metrics].
Qed.

Lemma maxScrollY_nonneg s : getMaxScrollY s <> NaN -> zero <= getMaxScrollY s.
Proof.
  unfold getMaxScrollY. intros Hm.
  apply max_zero_nonneg. intros Hn. apply Hm. now rewrite Hn.
Qed.

(** Numbers stay numbers: with a viewport height that is a number, an
    offset that is one stays one under [layout], and [setScrollY] of a
    number leaves one. *)
Lemma layout_offset_number s :
  _scrollY s <> NaN -> getViewportHeight s <> NaN ->
  _scrollY (layout s) <> NaN.
Proof.
  intros Hs Hv. rewrite layout_scrollY.
  rewrite <- layout_viewportHeight in Hv.
  destruct (maxScrollY_not_nan _ (layout_contentHeight_finite s) Hv) as [Hm _].
  unfold Clamp. apply max_not_nan; [discriminate |].
  now apply min_not_nan.
Qed.

Lemma setScrollY_offset_number (v : num) s :
  v <> NaN -> getMaxScrollY s <> NaN -> _scrollY (setScrollY v s) <> NaN.
Proof.
  intros Hv Hm. rewrite setScrollY_scrollY.
  unfold Clamp. apply max_not_nan; [discriminate |].
  now apply min_not_nan.
Qed.

(** C3.  [setScrollY(v)] leaves the scroll offset at [Clamp(v, 0,
    getMaxScrollY())], which for numbers is [v] itself inside the range and
    the nearer bound outside it.  When that equals the current offset
    nothing changes and nothing is emitted; otherwise the content is
    repositioned, the scrollbar is the one drawn for the new offset, and
    exactly one [scroll-changed] event is emitted, carrying the new offset
    and the current maximum. *)
Theorem setScrollY_clamps (v : num) (s : DebugScrollContainer) :
  let m := getMaxScrollY s in
  let c := Clamp v zero m in
  let s' := setScrollY v s in
  getScrollY s' = c /\
  (v <> NaN -> m <> NaN ->
     zero <= c <= m /\
     (zero <= v -> v <= m -> c = v) /\
     (v < zero -> c = zero) /\
     (m < v -> c = m)) /\
  ((c === getScrollY s) = true -> s' = s) /\
  ((c === getScrollY s) = false ->
     content_pos s' =
       (getViewportLeft s, getViewportTop s - _contentMinY s - c) /\
     _scrollbar s' = _scrollbar (redrawScrollbar s') /\
     emitted s' = emitted s ++ [scroll_changed c m] /\
     getMaxScrollY s' = m /\
     style s' = style s /\
     content_list s' = content_list s /\
     (_contentMinY s', _contentHeight s') = (_contentMinY s, _contentHeight s) /\
     (_panel s', _maskGraphics s', _wheelZone s') =
       (_panel s, _maskGraphics s, _wheelZone s) /\
     (position s', size s') = (position s, size s)).
Proof.
  intros m c s'. subst s'. unfold getScrollY.
  split; [| split; [| split]].
  - apply setScrollY_scrollY.
  - intros Hv Hm.
    pose proof (maxScrollY_nonneg s Hm) as H0. fold m in H0.
    split; [now apply Clamp_bounds |].
    split; [intros; now apply Clamp_inside |].
    split; [intros; now apply Clamp_below | intros; now apply Clamp_above].
  - intros E. now apply setScrollY_same.
  - intros E. rewrite setScrollY_changed by exact E. cbn zeta.
    fold m. fold c.
    repeat split.
    apply redrawScrollbar_ext; reflexivity.
Qed.

Lemma setScrollY_clamps_witness :
  of_Z 1000 <> NaN /\
  getMaxScrollY scenario_default <> NaN /\
  getMaxScrollY scenario_default < of_Z 1000 /\
  (Clamp (of_Z 1000) zero (getMaxScrollY scenario_default)
     === getScrollY scenario_default) = false /\
  getScrollY (setScrollY (of_Z 1000) scenario_default)
    = getMaxScrollY scenario_default /\
  emitted (setScrollY (of_Z 1000) scenario_default)
    = emitted scenario_default
      ++ [scroll_changed (getMaxScrollY scenario_default)
            (getMaxScrollY scenario_default)] /\
  (Clamp (of_Z (-5)) zero (getMaxScrollY scenario_default)
     === getScrollY scenario_default) = true /\
  setScrollY (of_Z (-5)) scenario_default = scenario_default.
Proof.
  destruct (setScrollY_clamps (of_Z 1000) scenario_default)
    as (Hget & Hnear & _ & Hchg).
  destruct (setScrollY_clamps (of_Z (-5)) scenario_default)
    as (_ & _ & Hsame & _).
  cbv zeta in Hget, Hnear, Hchg, Hsame.
  assert (Hv : of_Z 1000 <> NaN) by discriminate.
  assert (Hm : getMaxScrollY scenario_default <> NaN)
    by (vm_compute; discriminate).
  assert (Hlt : getMaxScrollY scenario_default < of_Z 1000)
    by (vm_compute; reflexivity).
  assert (E : (Clamp (of_Z 1000) zero (getMaxScrollY scenario_default)
                 === getScrollY scenario_default) = false)
    by (vm_compute; reflexivity).
  assert (E' : (Clamp (of_Z (-5)) zero (getMaxScrollY scenario_default)
                  === getScrollY scenario_default) = true)
    by (vm_compute; reflexivity).
  destruct (Hnear Hv Hm) as (_ & _ & _ & Habove).
  destruct (Hchg E) as (_ & _ & Hev & _).
  split; [exact Hv |]. split; [exact Hm |]. split; [exact Hlt |].
  split; [exact E |].
  split; [rewrite Hget; exact (Habove Hlt) |].
  split; [rewrite Hev, (Habove Hlt); reflexivity |].
  split; [exact E' | exact (Hsame E')].
Defined.

(** *** [layout] twice *)

Lemma container_ext s t :
  style s = style t ->
  _contentMinY s = _contentMinY t ->
  _contentHeight s = _contentHeight t ->
  _scrollY s = _scrollY t ->
  position s = position t ->
  size s = size t ->
  _panel s = _panel t ->
  content_list s = content_list t ->
  content_pos s = content_pos t ->
  _maskGraphics s = _maskGraphics t ->
  _scrollbar s = _scrollbar t ->
  _wheelZone s = _wheelZone t ->
  emitted s = emitted t ->
  s = t.
Proof. destruct s, t; cbn; intros; subst; reflexivity. Qed.

(** Each step of [layout], stripped of the parts it leaves alone. *)
Ltac open_layout :=
  unfold layout;
  rewrite redrawScrollbar_frame, updateContentMetrics_frame, redrawPanel_frame;
  cbn [set_scrollbar applyScroll set_content_pos set_scrollY set_metrics
       redrawMaskAndWheelZone set_mask_zone set_panel setSize
       style _contentMinY _contentHeight _scrollY position size _panel
       content_list content_pos _maskGraphics _scrollbar _wheelZone emitted].

Lemma layout_position s : position (layout s) = position s.
Proof. open_layout. reflexivity. Qed.

Lemma layout_emitted s : emitted (layout s) = emitted s.
Proof. open_layout. reflexivity. Qed.

Lemma layout_size s : size (layout s) = (_width s, _height s).
Proof. open_layout. reflexivity. Qed.

Lemma redrawPanel_ext s t :
  style s = style t -> _panel (redrawPanel s) = _panel (redrawPanel t).
Proof.
  intros H.
  unfold redrawPanel, _strokeThickness, _strokeColor, _bgColor, _cornerRadius,
    _width, _height.
  rewrite H. destruct (_ <=? _); reflexivity.
Qed.

Lemma layout_panel s : _panel (layout s) = _panel (redrawPanel s).
Proof. open_layout. now apply redrawPanel_ext. Qed.

Lemma redrawMaskAndWheelZone_ext s t :
  style s = style t ->
  _maskGraphics (redrawMaskAndWheelZone s) =
    _maskGraphics (redrawMaskAndWheelZone t) /\
  _wheelZone (redrawMaskAndWheelZone s) = _wheelZone (redrawMaskAndWheelZone t).
Proof.
  intros H.
  unfold redrawMaskAndWheelZone, getViewportLeft, getViewportTop,
    getViewportWidth, getViewportHeight, _strokeThickness, _cornerRadius,
    _width, _height, _paddingLeft, _paddingRight, _paddingTop, _paddingBottom.
  rewrite H. split; reflexivity.
Qed.

Lemma layout_mask_zone s :
  _maskGraphics (layout s) = _maskGraphics (redrawMaskAndWheelZone s) /\
  _wheelZone (layout s) = _wheelZone (redrawMaskAndWheelZone s).
Proof.
  open_layout. apply redrawMaskAndWheelZone_ext.
  rewrite redrawPanel_frame. reflexivity.
Qed.

Lemma layout_content_pos s :
  content_pos (layout s) =
  (getViewportLeft s,
   getViewportTop s - _contentMinY (layout s) - _scrollY (layout s)).
Proof.
  destruct (layout_metrics s) as [-> _]. rewrite layout_scrollY.
  rewrite layout_maxScrollY.
  open_layout. reflexivity.
Qed.

Lemma layout_scrollbar s :
  _scrollbar (layout s) = _scrollbar (redrawScrollbar (layout s)).
Proof.
  set (s6 :=
         applyScroll
           (let s4 :=
              updateContentMetrics
                (redrawMaskAndWheelZone
                   (redrawPanel (setSize s (_width s) (_height s)))) in
            set_scrollY s4 (Clamp (_scrollY s4) zero (getMaxScrollY s4)))).
  assert (Hs6 : layout s = redrawScrollbar s6) by reflexivity.
  rewrite Hs6 at 1.
  apply (redrawScrollbar_ext s6 (layout s)); subst s6; cbv zeta.
  - rewrite layout_style.
    rewrite updateContentMetrics_frame, redrawPanel_frame. reflexivity.
  - destruct (layout_metrics s) as [_ ->].
    rewrite updateContentMetrics_frame, redrawPanel_frame. reflexivity.
  - rewrite layout_scrollY, layout_maxScrollY.
    rewrite updateContentMetrics_frame, redrawPanel_frame. reflexivity.
Qed.

Lemma getViewport_style s t :
  style s = style t ->
  getViewportLeft s = getViewportLeft t /\
  getViewportTop s = getViewportTop t.
Proof.
  unfold getViewportLeft, getViewportTop, _width, _height, _paddingLeft,
    _paddingTop.
  intros ->. now split.
Qed.

(** C7.  [layout()] is idempotent: a second call right after the first, with
    nothing changed in between, leaves the container exactly as the first
    call left it -- scroll offset, content top and height, the scrollbar
    drawn, and every other part of the state. *)
Theorem layout_idempotent (s : DebugScrollContainer) :
  layout (layout s) = layout s.
Proof.
  pose proof (layout_style s) as Hst.
  pose proof (layout_content_list s) as Hl.
  assert (Hm : getMaxScrollY (layout (layout s)) = getMaxScrollY (layout s)).
  { rewrite !layout_maxScrollY, Hl.
    now rewrite (getViewportHeight_style _ _ Hst). }
  assert (Hy : _scrollY (layout (layout s)) = _scrollY (layout s)).
  { rewrite (layout_scrollY (layout s)), Hm, (layout_scrollY s).
    apply Clamp_idem. }
  assert (Hc : _contentMinY (layout (layout s)) = _contentMinY (layout s) /\
               _contentHeight (layout (layout s)) = _contentHeight (layout s)).
  { destruct (layout_metrics (layout s)) as [-> ->].
    destruct (layout_metrics s) as [-> ->]. now rewrite Hl. }
  destruct Hc as [Hc1 Hc2].
  apply container_ext.
  - now rewrite !layout_style.
  - exact Hc1.
  - exact Hc2.
  - exact Hy.
  - now rewrite !layout_position.
  - rewrite !layout_size. unfold _width, _height. now rewrite Hst.
  - rewrite !layout_panel. now apply redrawPanel_ext.
  - now rewrite !layout_content_list.
  - rewrite (layout_content_pos (layout s)), (layout_content_pos s).
    destruct (getViewport_style _ _ Hst) as [-> ->].
    now rewrite Hc1, Hy.
  - destruct (layout_mask_zone (layout s)) as [-> _].
    destruct (layout_mask_zone s) as [-> _].
    now apply redrawMaskAndWheelZone_ext.
  - rewrite (layout_scrollbar (layout s)), (layout_scrollbar s).
    apply redrawScrollbar_ext; [now rewrite !layout_style | exact Hc2 | exact Hy].
  - destruct (layout_mask_zone (layout s)) as [_ ->].
    destruct (layout_mask_zone s) as [_ ->].
    now apply redrawMaskAndWheelZone_ext.
  - now rewrite !layout_emitted.
Qed.

(** *** Construction *)

(** With nothing to scroll the maximum is 0: the visible height is at
    least 1. *)
Lemma max_zero_minus_viewport (x : num) :
  max one x <> NaN -> max zero (zero - max one x) = zero.
Proof.
  intros H. apply max_zero_sub_ge_one.
  apply le_max_l; [discriminate |].
  intros ->. now apply H.
Qed.

(** The container just before the constructor calls [setScrollY]. *)
Lemma constructor_unfold (options : CreateDebugScrollContainerOptions) :
  exists s0,
    constructor options = setScrollY (dflt (initialScrollY options) zero)
                            (layout s0) /\
    content_list s0 = [] /\ _scrollY s0 = zero /\
    style (constructor options) = style s0 /\
    getViewportHeight s0 =
      max one (dflt (height options) (of_Z 220)
               - dflt (paddingTop options) (of_Z 10)
               - dflt (paddingBottom options) (of_Z 10)).
Proof.
  unfold constructor.
  match goal with
  | |- context [setScrollY ?v (layout ?s)] => exists s
  end.
  repeat split.
  rewrite setScrollY_style. apply layout_style.
Qed.

Lemma empty_layout_then_setScrollY (v : num) s0 :
  content_list s0 = [] ->
  getViewportHeight s0 <> NaN ->
  v <> NaN ->
  content_list (setScrollY v (layout s0)) = [] /\
  getMaxScrollY (setScrollY v (layout s0)) = zero /\
  _scrollY (setScrollY v (layout s0)) = zero.
Proof.
  intros Hl Hv Hvn.
  assert (Hm : getMaxScrollY (layout s0) = zero).
  { rewrite layout_maxScrollY, Hl. cbn [content_metrics snd].
    now apply max_zero_minus_viewport. }
  rewrite setScrollY_maxScrollY, setScrollY_scrollY, Hm.
  split; [| split; [reflexivity |]].
  - now rewrite setScrollY_content_list, layout_content_list.
  - destruct (Clamp_bounds v zero zero) as [Hlo Hhi];
      [assumption | reflexivity |].
    now apply le_antisym.
Qed.

(** C10, as the code has it.  For options whose [initialScrollY], when
    given, is not [NaN] and that give the container a visible height that
    is not [NaN], the scroll offset right after construction is 0 whatever
    [initialScrollY] was given: the content list is empty, so the maximum is
    0 and the constructor's [setScrollY(initialScrollY)] clamps to 0. *)
Theorem constructor_scrollY_zero (options : CreateDebugScrollContainerOptions) :
  initialScrollY options <> Some NaN ->
  getViewportHeight (constructor options) <> NaN ->
  content_list (constructor options) = [] /\
  getMaxScrollY (constructor options) = zero /\
  getScrollY (constructor options) = zero.
Proof.
  intros Hi Hv.
  destruct (constructor_unfold options) as (s0 & Hc & Hl & Hy & Hst & _).
  rewrite (getViewportHeight_style _ _ Hst) in Hv.
  unfold getScrollY. rewrite Hc.
  apply empty_layout_then_setScrollY; [exact Hl | exact Hv |].
  destruct (initialScrollY options) as [x |]; cbn [dflt].
  - intros ->. now apply Hi.
  - discriminate.
Qed.

Lemma constructor_scrollY_zero_witness :
  initialScrollY (only_initialScrollY (of_Z 150)) <> Some NaN /\
  getViewportHeight (constructor (only_initialScrollY (of_Z 150))) <> NaN /\
  getScrollY (constructor (only_initialScrollY (of_Z 150))) = zero.
Proof.
  assert (H1 : initialScrollY (only_initialScrollY (of_Z 150)) <> Some NaN)
    by discriminate.
  assert (H2 : getViewportHeight (constructor (only_initialScrollY (of_Z 150)))
               <> NaN)
    by (vm_compute; discriminate).
  split; [exact H1 |]. split; [exact H2 |].
  exact (proj2 (proj2 (constructor_scrollY_zero _ H1 H2))).
Defined.

(** With [initialScrollY: NaN] the clamp yields [NaN], which differs from
    every number, so the offset is set to [NaN]. *)
Lemma constructor_initialScrollY_NaN :
  getScrollY (constructor (only_initialScrollY NaN)) = NaN.
Proof. reflexivity. Qed.

(** C10 as stated, for every options argument, fails on numbers that are
    [NaN]: with [initialScrollY: NaN], and with [paddingTop: NaN] and no
    [initialScrollY] at all, the offset right after construction is [NaN],
    not 0, and the constructor has emitted [scroll-changed] with it. *)
Lemma constructor_scrollY_not_zero_on_NaN :
  getScrollY (constructor (only_initialScrollY NaN)) <> zero /\
  emitted (constructor (only_initialScrollY NaN))
    = [scroll_changed NaN zero] /\
  initialScrollY (scenario_options 220 (Some NaN) None) = None /\
  getScrollY (constructor (scenario_options 220 (Some NaN) None)) <> zero.
Proof.
  assert (H1 : getScrollY (constructor (only_initialScrollY NaN)) = NaN)
    by (vm_compute; reflexivity).
  assert (H2 : getScrollY (constructor (scenario_options 220 (Some NaN) None))
               = NaN) by (vm_compute; reflexivity).
  split; [rewrite H1; discriminate |].
  split; [vm_compute; reflexivity |].
  split; [reflexivity |].
  rewrite H2. discriminate.
Qed.

(** *** The scrollbar thumb *)

Lemma drawn_thumb_cleared s : drawn_thumb (set_scrollbar s []) = None.
Proof. reflexivity. Qed.

Lemma no_scroll_when_content_fits s :
  isFinite (_contentHeight s) = true ->
  _contentHeight s <= getViewportHeight s ->
  getMaxScrollY s = zero.
Proof.
  unfold getMaxScrollY. intros Hf Hle.
  apply max_l. unfold zero, of_Z.
  destruct (_contentHeight s), (getViewportHeight s); try discriminate;
    num_cases.
Qed.




(** *** The end-to-end scenario *)

Lemma addItems_stacked s :
  content_list s = [] ->
  addItems stacked_items s =
  layout (set_content_list s (content_list s ++ stacked_items)).
Proof.
  intros Hl. unfold addItems, stacked_items. cbn [stacked_from].
  fold stacked_items. now rewrite Hl.
Qed.

Lemma stacked_items_metrics :
  content_metrics stacked_items = (of_Z 0, of_Z 490).
Proof. vm_compute. reflexivity. Qed.

Lemma stacked_layout_metrics c :
  content_list c = [] ->
  getContentHeight (addItems stacked_items c) = of_Z 490 /\
  getViewportHeight (addItems stacked_items c) = getViewportHeight c /\
  getMaxScrollY (addItems stacked_items c)
    = max zero (of_Z 490 - getViewportHeight c).
Proof.
  intros Hl. rewrite (addItems_stacked c Hl).
  set (c' := set_content_list c (content_list c ++ stacked_items)).
  assert (Hl' : content_list c' = stacked_items).
  { subst c'. cbn [content_list set_content_list]. now rewrite Hl. }
  assert (Hv : getViewportHeight (layout c') = getViewportHeight c).
  { rewrite layout_viewportHeight. now apply getViewportHeight_style. }
  assert (Hh : _contentHeight (layout c') = of_Z 490).
  { destruct (layout_metrics c') as [_ ->].
    now rewrite Hl', stacked_items_metrics. }
  split; [exact Hh |]. split; [exact Hv |].
  unfold getMaxScrollY. now rewrite Hh, Hv.
Qed.

Lemma scroll_to_bottom_and_back s (vh : num) :
  one <= vh ->
  getMaxScrollY s = max zero (of_Z 490 - vh) ->
  getScrollY (scrollToBottom s) = getMaxScrollY s /\
  getScrollY (scrollBy (of_Z (-1000)) (scrollToBottom s)) = zero.
Proof.
  intros H1 Hm.
  assert (Hmn : getMaxScrollY s <> NaN).
  { rewrite Hm. apply max_not_nan; [discriminate |].
    apply sub_not_nan; [reflexivity |]. now apply le_not_nan in H1. }
  pose proof (maxScrollY_nonneg s Hmn) as Hm0.
  assert (Hbot : _scrollY (scrollToBottom s) = getMaxScrollY s).
  { unfold scrollToBottom. rewrite setScrollY_scrollY.
    apply Clamp_inside; [exact Hm0 | now apply le_refl]. }
  split; [exact Hbot |].
  unfold scrollBy, getScrollY.
  replace (of_Z (-1000) === zero) with false by reflexivity.
  rewrite setScrollY_scrollY, Hbot.
  unfold scrollToBottom at 1. rewrite setScrollY_maxScrollY.
  apply Clamp_far_below; [exact Hm0 |].
  rewrite Hm. now apply range_below_490.
Qed.




End ScrollFacts.

(* ================================================================== *)
(** ** The layout scheduler *)
(* ================================================================== *)

Module SchedFacts.
Import LayoutAuto.
Local Open Scope list_scope.

(** *** The dirty set *)

Lemma member_In (t : Target) (l : list Target) :
  member t l = true <-> In t l.
Proof.
  unfold member. rewrite existsb_exists. split.
  - intros (u & Hu & E). apply Nat.eqb_eq in E. now subst.
  - intros H. exists t. split; [assumption | apply Nat.eqb_refl].
Qed.

Lemma member_app (t : Target) (l1 l2 : list Target) :
  member t (l1 ++ l2) = member t l1 || member t l2.
Proof. apply existsb_app. Qed.

Lemma member_set_add (t u : Target) (l : list Target) :
  member t (set_add u l) = member t l || Nat.eqb t u.
Proof.
  unfold set_add. destruct (existsb (Nat.eqb u) l) eqn:E.
  - destruct (Nat.eqb_spec t u) as [-> | _].
    + fold (member u l) in E. rewrite E. reflexivity.
    + now rewrite orb_false_r.
  - rewrite member_app. cbn. now rewrite orb_false_r.
Qed.

Lemma member_set_delete (t u : Target) (l : list Target) :
  member t (set_delete u l) = member t l && negb (Nat.eqb t u).
Proof.
  induction l as [| x l IH]; [reflexivity |].
  change (set_delete u (x :: l))
    with (if negb (Nat.eqb u x) then x :: set_delete u l else set_delete u l).
  change (member t (x :: l)) with (Nat.eqb t x || member t l).
  destruct (Nat.eqb_spec u x) as [-> | Hne]; cbn [negb].
  - rewrite IH. destruct (Nat.eqb_spec t x); cbn [orb andb negb].
    + now rewrite andb_false_r.
    + reflexivity.
  - change (member t (x :: set_delete u l))
      with (Nat.eqb t x || member t (set_delete u l)).
    rewrite IH. destruct (Nat.eqb_spec t x) as [-> | _]; cbn [orb andb].
    + destruct (Nat.eqb_spec x u); [congruence | reflexivity].
    + reflexivity.
Qed.

Lemma member_fold_set_add (t : Target) (ts l : list Target) :
  member t (fold_left (fun d u => set_add u d) ts l)
  = member t l || member t ts.
Proof.
  revert l. induction ts as [| u ts IH]; intros l; cbn [fold_left].
  - cbn. now rewrite orb_false_r.
  - rewrite IH, member_set_add. cbn.
    rewrite <- orb_assoc. f_equal.
Qed.

Lemma set_add_NoDup (u : Target) (l : list Target) :
  NoDup l -> NoDup (set_add u l).
Proof.
  intros H. unfold set_add. destruct (existsb (Nat.eqb u) l) eqn:E.
  - assumption.
  - apply NoDup_app; [assumption | repeat constructor; intros [] | ].
    intros x Hx [<- | []].
    apply member_In in Hx. unfold member in Hx. congruence.
Qed.

(** *** Calls under a pass in progress *)

#[local] Arguments member : simpl never.

Lemma flushNow_guarded layoutCode (fuel : nat) :
  guarded (flushNow layoutCode (S fuel)).
Proof.
  intros s tr H. cbn [flushNow]. rewrite H.
  now rewrite orb_true_r.
Qed.

Lemma markDirty_view (t u : Target) (s : Scheduler) :
  view t (markDirty u s) = step_call t (call_markDirty u) (view t s).
Proof.
  unfold view, step_call, markDirty.
  destruct (destroyed s) eqn:D; cbn; rewrite ?D; cbn;
    rewrite ?member_set_add; reflexivity.
Qed.

Lemma markDirtyMany_view (t : Target) (ts : list Target) (s : Scheduler) :
  view t (markDirtyMany ts s) = step_call t (call_markDirtyMany ts) (view t s).
Proof.
  unfold view, step_call, markDirtyMany.
  destruct (destroyed s) eqn:D; cbn [orb negb fst snd]; rewrite ?D;
    [reflexivity |].
  destruct ts as [| u ts]; cbn; rewrite ?D; cbn.
  - now rewrite orb_false_r.
  - rewrite member_fold_set_add, member_set_add. f_equal.
    change (member t (u :: ts)) with (Nat.eqb t u || member t ts).
    now rewrite orb_assoc.
Qed.

Lemma remove_view (t u : Target) (s : Scheduler) :
  view t (remove u s) = step_call t (call_remove u) (view t s).
Proof.
  unfold view, step_call, remove.
  destruct (destroyed s) eqn:D; cbn; rewrite ?D; cbn;
    rewrite ?member_set_delete; reflexivity.
Qed.

Lemma clear_view (t : Target) (s : Scheduler) :
  view t (clear s) = step_call t call_clear (view t s).
Proof.
  unfold view, step_call, clear.
  destruct (destroyed s) eqn:D; cbn; rewrite ?D; reflexivity.
Qed.

Lemma destroyScheduler_view (t : Target) (s : Scheduler) :
  view t (destroyScheduler s) = step_call t call_destroy (view t s).
Proof.
  unfold view, step_call, destroyScheduler.
  destruct (destroyed s) eqn:D; cbn; rewrite ?D; reflexivity.
Qed.

Lemma flush_view (t : Target) (s : Scheduler) :
  view t s = step_call t call_flush (view t s).
Proof. unfold step_call. now destruct (fst (view t s)). Qed.

(** No method of the scheduler touches [isFlushing]; only [destroy]
    touches [destroyed]. *)
Lemma calls_keep_isFlushing (s : Scheduler) :
  (forall u, isFlushing (markDirty u s) = isFlushing s) /\
  (forall ts, isFlushing (markDirtyMany ts s) = isFlushing s) /\
  (forall u, isFlushing (remove u s) = isFlushing s) /\
  isFlushing (clear s) = isFlushing s /\
  isFlushing (destroyScheduler s) = isFlushing s.
Proof.
  unfold markDirty, markDirtyMany, remove, clear, destroyScheduler.
  repeat split; intros;
    repeat match goal with
    | |- context [if ?b then _ else _] => destruct b
    end; reflexivity.
Qed.

Lemma calls_keep_destroyed (s : Scheduler) :
  (forall u, destroyed (markDirty u s) = destroyed s) /\
  (forall ts, destroyed (markDirtyMany ts s) = destroyed s) /\
  (forall u, destroyed (remove u s) = destroyed s) /\
  destroyed (clear s) = destroyed s.
Proof.
  unfold markDirty, markDirtyMany, remove, clear.
  destruct (destroyed s) eqn:D; cbn [orb];
    repeat split; intros; rewrite ?D; auto.
  destruct (_ =? _)%nat; cbn; auto.
Qed.

Lemma do_call_busy fl (c : Call) (s : Scheduler) (tr : Trace) :
  guarded fl -> isFlushing s = true ->
  exists s',
    do_call fl c s tr = Normal s' tr /\
    isFlushing s' = true /\
    (forall t, view t s' = step_call t c (view t s)) /\
    (is_destroy c = false -> destroyed s' = destroyed s).
Proof.
  intros G B.
  destruct (calls_keep_isFlushing s) as (F1 & F2 & F3 & F4 & F5).
  destruct (calls_keep_destroyed s) as (D1 & D2 & D3 & D4).
  destruct c as [u | ts | u | | |]; cbn [do_call is_destroy].
  - exists (markDirty u s). rewrite F1.
    repeat split; auto using markDirty_view.
  - exists (markDirtyMany ts s). rewrite F2.
    repeat split; auto using markDirtyMany_view.
  - exists (remove u s). rewrite F3.
    repeat split; auto using remove_view.
  - exists (clear s). rewrite F4.
    repeat split; auto using clear_view.
  - exists s. rewrite (G s tr B).
    repeat split; auto using flush_view.
  - exists (destroyScheduler s). rewrite F5.
    repeat split; auto using destroyScheduler_view. discriminate.
Qed.

(** *** Traces *)

Lemma entries_app (a b : Trace) : entries (a ++ b) = entries a ++ entries b.
Proof.
  induction a as [| [q | t | c] a IH]; cbn; rewrite ?IH; reflexivity.
Qed.

Lemma passes_app (a b : Trace) : passes (a ++ b) = (passes a + passes b)%nat.
Proof.
  induction a as [| [q | t | c] a IH]; cbn; rewrite ?IH; reflexivity.
Qed.

Lemma replay_app (t : Target) (a b : Trace) (st : bool * bool) :
  replay t (a ++ b) st = replay t b (replay t a st).
Proof.
  revert st. induction a as [| [q | u | c] a IH]; intros st; cbn; auto.
Qed.

(** *** Layout code run while a pass is in progress *)

Lemma exec_busy fl (c : Code) :
  guarded fl ->
  forall (s : Scheduler) (tr : Trace),
  isFlushing s = true ->
  exists s' evs,
    ends (exec fl c s tr) s' (tr ++ evs) /\
    isFlushing s' = true /\
    entries evs = [] /\ passes evs = O /\
    (forall t, view t s' = replay t evs (view t s)) /\
    (calm c ->
       exec fl c s tr = Normal s' (tr ++ evs) /\ destroyed s' = destroyed s).
Proof.
  intros G. induction c as [| | cl k IH | k IH | k IH]; intros s tr B.
  - exists s, []. rewrite app_nil_r. cbn [exec].
    split; [now left |]. do 4 (split; [auto |]).
    intros _. now split.
  - exists s, []. rewrite app_nil_r. cbn [exec].
    split; [now right |]. do 4 (split; [auto |]).
    intros Hc. inversion Hc.
  - destruct (do_call_busy fl cl s (tr ++ [Called cl]) G B)
      as (s1 & E1 & B1 & V1 & D1).
    destruct (IH s1 (tr ++ [Called cl]) B1)
      as (s' & evs & He & B' & En & Pa & V' & Hcalm).
    exists s', (Called cl :: evs).
    cbn [exec]. rewrite E1.
    replace (tr ++ Called cl :: evs) with ((tr ++ [Called cl]) ++ evs)
      by (now rewrite <- app_assoc).
    split; [exact He |]. do 3 (split; [auto |]).
    split.
    + intros t. cbn [replay]. now rewrite V', V1.
    + intros Hc. inversion Hc as [| c0 k0 Hd Hk | |]; subst.
      destruct (Hcalm Hk) as [Hn Hd']. split; [exact Hn |].
      rewrite Hd'. now apply D1.
  - destruct (IH (isDestroyed s) s tr B)
      as (s' & evs & He & B' & En & Pa & V' & Hcalm).
    exists s', evs. cbn [exec].
    split; [exact He |]. do 4 (split; [auto |]).
    intros Hc. inversion Hc as [| | k0 Hk |]; subst. now apply Hcalm.
  - destruct (IH (getDirtyCount s) s tr B)
      as (s' & evs & He & B' & En & Pa & V' & Hcalm).
    exists s', evs. cbn [exec].
    split; [exact He |]. do 4 (split; [auto |]).
    intros Hc. inversion Hc as [| | | k0 Hk]; subst. now apply Hcalm.
Qed.

(** *** The loop over the batch *)

Lemma run_queue_busy layoutCode fl (queue : list Target) :
  guarded fl ->
  forall (s : Scheduler) (tr : Trace),
  isFlushing s = true ->
  exists s' evs,
    ends (run_queue layoutCode fl queue s tr) s' (tr ++ evs) /\
    isFlushing s' = true /\
    (exists rest, queue = entries evs ++ rest) /\
    passes evs = O /\
    (forall t, view t s' = replay t evs (view t s)) /\
    ((forall tr' t, calm (layoutCode tr' t)) -> destroyed s = false ->
       run_queue layoutCode fl queue s tr = Normal s' (tr ++ evs) /\
       entries evs = queue /\ destroyed s' = false).
Proof.
  intros G. induction queue as [| target rest IH]; intros s tr B.
  - exists s, []. rewrite app_nil_r. cbn [run_queue].
    split; [now left |]. split; [exact B |].
    split; [now exists [] |]. do 2 (split; [auto |]).
    intros _ D. now repeat split.
  - cbn [run_queue]. destruct (destroyed s) eqn:D.
    + exists s, []. rewrite app_nil_r.
      split; [now left |]. split; [exact B |].
      split; [now exists (target :: rest) |]. do 2 (split; [auto |]).
      intros _ D'. discriminate D'.
    + destruct (exec_busy fl (layoutCode tr target) G s
                  (tr ++ [Entered target]) B)
        as (s1 & evs1 & He & B1 & En1 & Pa1 & V1 & Hcalm1).
      destruct He as [He | He]; rewrite He.
      * destruct (IH s1 ((tr ++ [Entered target]) ++ evs1) B1)
          as (s' & evs2 & He2 & B' & (rest' & Hr) & Pa2 & V2 & Hcalm2).
        exists s', (Entered target :: evs1 ++ evs2).
        replace (tr ++ Entered target :: evs1 ++ evs2)
          with (((tr ++ [Entered target]) ++ evs1) ++ evs2)
          by (now rewrite <- !app_assoc).
        split; [exact He2 |]. split; [exact B' |].
        split.
        { exists rest'. cbn [entries]. rewrite entries_app, En1. cbn.
          now rewrite Hr at 1. }
        split.
        { cbn [passes]. now rewrite passes_app, Pa1, Pa2. }
        split.
        { intros t. cbn [replay]. now rewrite replay_app, V2, V1. }
        intros Hall _.
        destruct (Hcalm1 (Hall tr target)) as [_ D1].
        rewrite D in D1.
        destruct (Hcalm2 Hall D1) as (Hn & Hq & D').
        split; [exact Hn |]. split; [| exact D'].
        cbn [entries]. now rewrite entries_app, En1, Hq.
      * exists s1, (Entered target :: evs1).
        replace (tr ++ Entered target :: evs1)
          with ((tr ++ [Entered target]) ++ evs1)
          by (now rewrite <- app_assoc).
        split; [now right |]. split; [exact B1 |].
        split; [exists rest; cbn [entries]; now rewrite En1 |].
        split; [exact Pa1 |].
        split; [intros t; cbn [replay]; apply V1 |].
        intros Hall _.
        destruct (Hcalm1 (Hall tr target)) as [Hn _].
        rewrite He in Hn. discriminate Hn.
Qed.

(** *** One flush *)

Lemma flushNow_pass layoutCode (fuel : nat) (s : Scheduler) (tr : Trace) :
  destroyed s = false -> isFlushing s = false -> dirty s <> [] ->
  flushNow layoutCode (S fuel) s tr =
  match
    run_queue layoutCode (flushNow layoutCode fuel) (dirty s) (pass_start s)
      (tr ++ [Began (dirty s)])
  with
  | Normal s' tr' => Normal (with_isFlushing s' false) tr'
  | o => o
  end.
Proof.
  intros D F N. cbn [flushNow]. rewrite D, F.
  destruct (dirty s) as [| t l] eqn:E; [congruence |].
  cbn [List.length Nat.eqb orb].
  unfold pass_start. cbn [dirty with_isFlushing]. now rewrite E.
Qed.

Lemma flushNow_skips layoutCode (fuel : nat) (s : Scheduler) (tr : Trace) :
  destroyed s = true \/ dirty s = [] \/ isFlushing s = true ->
  flushNow layoutCode (S fuel) s tr = Normal s tr.
Proof.
  intros [H | [H | H]]; cbn [flushNow]; rewrite H; cbn;
    rewrite ?orb_true_r; reflexivity.
Qed.

(** What one flush of a live, idle scheduler with pending targets does. *)
Lemma flush_pass layoutCode (fuel : nat) (s : Scheduler) :
  destroyed s = false -> isFlushing s = false -> dirty s <> [] ->
  exists s' evs,
    (flushNow layoutCode (S (S fuel)) s [] = Normal s' (Began (dirty s) :: evs)
       /\ isFlushing s' = false
     \/
     flushNow layoutCode (S (S fuel)) s [] = Thrown s' (Began (dirty s) :: evs)
       /\ isFlushing s' = true) /\
    (exists rest, dirty s = entries evs ++ rest) /\
    passes evs = O /\
    (forall t, view t s' = replay t evs (true, false)) /\
    ((forall tr' t, calm (layoutCode tr' t)) ->
       flushNow layoutCode (S (S fuel)) s [] =
         Normal s' (Began (dirty s) :: evs) /\
       entries evs = dirty s /\ destroyed s' = false).
Proof.
  intros D F N.
  rewrite (flushNow_pass layoutCode (S fuel) s [] D F N).
  destruct (run_queue_busy layoutCode (flushNow layoutCode (S fuel)) (dirty s)
              (flushNow_guarded layoutCode fuel) (pass_start s)
              ([] ++ [Began (dirty s)]) eq_refl)
    as (s1 & evs & He & B1 & Hpre & Pa & V & Hcalm).
  assert (Hv0 : forall t, view t (pass_start s) = (true, false)).
  { intros t. unfold view, pass_start. cbn. now rewrite D. }
  cbn [app] in *.
  destruct He as [He | He]; rewrite He.
  - exists (with_isFlushing s1 false), evs.
    split; [left; now split |]. split; [exact Hpre |]. split; [exact Pa |].
    split.
    + intros t. change (view t (with_isFlushing s1 false)) with (view t s1).
      now rewrite V, Hv0.
    + intros Hall.
      assert (D0 : destroyed (pass_start s) = false) by (cbn; exact D).
      destruct (Hcalm Hall D0) as (_ & Hq & D').
      now repeat split.
  - exists s1, evs.
    split; [right; now split |]. split; [exact Hpre |]. split; [exact Pa |].
    split.
    + intros t. now rewrite V, Hv0.
    + intros Hall.
      assert (D0 : destroyed (pass_start s) = false) by (cbn; exact D).
      destruct (Hcalm Hall D0) as (Hn & _).
      rewrite He in Hn. discriminate Hn.
Qed.

(** *** The budget *)

Lemma exec_guarded_eq fl1 fl2 (c : Code) :
  guarded fl1 -> guarded fl2 ->
  forall (s : Scheduler) (tr : Trace),
  isFlushing s = true -> exec fl1 c s tr = exec fl2 c s tr.
Proof.
  intros G1 G2. induction c as [| | cl k IH | k IH | k IH]; intros s tr B;
    cbn [exec]; auto.
  destruct (do_call_busy fl1 cl s (tr ++ [Called cl]) G1 B)
    as (s1 & E1 & B1 & _).
  assert (E2 : do_call fl2 cl s (tr ++ [Called cl])
               = do_call fl1 cl s (tr ++ [Called cl])).
  { destruct cl; cbn [do_call]; auto. now rewrite G1, G2. }
  rewrite E2, E1. now apply IH.
Qed.

Lemma run_queue_guarded_eq layoutCode fl1 fl2 (queue : list Target) :
  guarded fl1 -> guarded fl2 ->
  forall (s : Scheduler) (tr : Trace),
  isFlushing s = true ->
  run_queue layoutCode fl1 queue s tr = run_queue layoutCode fl2 queue s tr.
Proof.
  intros G1 G2. induction queue as [| target rest IH]; intros s tr B;
    cbn [run_queue]; auto.
  destruct (destroyed s); auto.
  rewrite (exec_guarded_eq fl1 fl2 _ G1 G2 s _ B).
  destruct (exec_busy fl2 (layoutCode tr target) G2 s
              (tr ++ [Entered target]) B)
    as (s1 & evs1 & [He | He] & B1 & _); rewrite He; auto.
Qed.

(** Every budget of at least [enough] gives the same result, and that
    result is never [OutOfFuel]. *)
Lemma flushNow_fuel layoutCode (fuel : nat) (s : Scheduler) (tr : Trace) :
  flushNow layoutCode (S (S fuel)) s tr = flushNow layoutCode enough s tr /\
  flushNow layoutCode enough s tr <> OutOfFuel.
Proof.
  unfold enough.
  destruct (destroyed s) eqn:D;
    [rewrite !flushNow_skips by auto; split; [auto | discriminate] |].
  destruct (isFlushing s) eqn:F;
    [rewrite !flushNow_skips by auto; split; [auto | discriminate] |].
  destruct (dirty s) as [| t l] eqn:E;
    [rewrite !flushNow_skips by auto; split; [auto | discriminate] |].
  assert (N : dirty s <> []) by (rewrite E; discriminate).
  rewrite !(flushNow_pass layoutCode _ s tr D F N).
  rewrite (run_queue_guarded_eq layoutCode
             (flushNow layoutCode (S fuel)) (flushNow layoutCode 1)
             (dirty s) (flushNow_guarded _ _) (flushNow_guarded _ _)
             (pass_start s) _ eq_refl).
  split; [reflexivity |].
  destruct (run_queue_busy layoutCode (flushNow layoutCode 1) (dirty s)
              (flushNow_guarded layoutCode 0) (pass_start s)
              (tr ++ [Began (dirty s)]) eq_refl)
    as (s1 & evs & [He | He] & _); rewrite He; discriminate.
Qed.

(** *** Reading a trace *)

Lemma replay_dead (t : Target) (evs : Trace) (m : bool) :
  replay t evs (false, m) = (false, m).
Proof.
  induction evs as [| [q | u | c] evs IH]; cbn [replay]; auto.
Qed.

Lemma replay_marked_somewhere (t : Target) (evs : Trace) (st : bool * bool) :
  snd (replay t evs st) = true ->
  snd st = true \/ exists c, In (Called c) evs /\ marksb t c = true.
Proof.
  revert st. induction evs as [| [q | u | c] evs IH]; intros st H;
    cbn [replay] in H.
  - now left.
  - destruct (IH st H) as [? | (c & Hin & Hm)]; [now left |].
    right. exists c. split; [now right | exact Hm].
  - destruct (IH st H) as [? | (c & Hin & Hm)]; [now left |].
    right. exists c. split; [now right | exact Hm].
  - destruct (IH _ H) as [Hs | (c' & Hin & Hm)].
    + destruct st as [[|] m]; unfold step_call in Hs; cbn [fst snd] in Hs;
        [| now left].
      destruct c as [u | ts | u | | |]; cbn [snd] in Hs.
      * apply orb_true_iff in Hs. destruct Hs as [Hs | Hs]; [now left |].
        right. exists (call_markDirty u). split; [now left | exact Hs].
      * apply orb_true_iff in Hs. destruct Hs as [Hs | Hs]; [now left |].
        right. exists (call_markDirtyMany ts). split; [now left | exact Hs].
      * apply andb_true_iff in Hs. now left.
      * discriminate Hs.
      * now left.
      * discriminate Hs.
    + right. exists c'. split; [now right | exact Hm].
Qed.

Lemma replay_alive (t : Target) (evs : Trace) (m : bool) :
  (forall c, In (Called c) evs -> is_destroy c = false) ->
  fst (replay t evs (true, m)) = true.
Proof.
  revert m. induction evs as [| [q | u | c] evs IH]; intros m H;
    cbn [replay]; auto.
  - apply IH. intros c Hc. apply H. now right.
  - apply IH. intros c Hc. apply H. now right.
  - assert (Hd : is_destroy c = false) by (apply H; now left).
    unfold step_call. cbn [fst snd].
    destruct c; try discriminate Hd; apply IH; intros c Hc; apply H;
      now right.
Qed.

Lemma replay_kept (t : Target) (evs : Trace) :
  (forall c, In (Called c) evs -> dropsb t c = false) ->
  replay t evs (true, true) = (true, true).
Proof.
  induction evs as [| [q | u | c] evs IH]; intros H; cbn [replay]; auto.
  - apply IH. intros c Hc. apply H. now right.
  - apply IH. intros c Hc. apply H. now right.
  - assert (Hd : dropsb t c = false) by (apply H; now left).
    assert (Hs : step_call t c (true, true) = (true, true)).
    { unfold step_call. cbn [fst snd].
      destruct c; cbn [dropsb orb] in *; try discriminate Hd; auto.
      now rewrite Hd. }
    rewrite Hs. apply IH. intros c' Hc. apply H. now right.
Qed.

Lemma replay_marked_stays (t : Target) (e1 e2 : Trace) (c : Call) (m : bool) :
  marksb t c = true ->
  (forall c', In (Called c') e1 -> is_destroy c' = false) ->
  (forall c', In (Called c') e2 -> dropsb t c' = false) ->
  replay t (e1 ++ Called c :: e2) (true, m) = (true, true).
Proof.
  intros Hm H1 H2. rewrite replay_app. cbn [replay].
  pose proof (replay_alive t e1 m H1) as Ha.
  destruct (replay t e1 (true, m)) as [a m1]. cbn [fst] in Ha. subst a.
  assert (Hs : step_call t c (true, m1) = (true, true)).
  { unfold step_call. cbn [fst snd].
    destruct c; cbn [marksb] in Hm; try discriminate Hm.
    - now rewrite Hm, orb_true_r.
    - unfold member. now rewrite Hm, orb_true_r. }
  rewrite Hs. now apply replay_kept.
Qed.

(** *** Re-entrancy *)

(** C2.  A flush of a live, idle scheduler with pending targets takes the
    dirty set as its batch and empties the live set before any layout runs.
    Only members of the batch are laid out, in batch order, and no pass
    begins inside the pass: [flush()] called while a pass is in progress
    returns at once.  What is pending afterwards was marked during the
    pass, and a [markDirty] made from inside a layout -- of the target
    itself or of any other -- leaves its target pending for the next flush
    unless a later call of the pass removes it, clears the set or destroys
    the scheduler.  When no layout throws or destroys the scheduler the
    whole batch is laid out, the flag is reset, and the next flush lays out
    every target left pending. *)
Theorem flush_defers_marks layoutCode (s : Scheduler) :
  destroyed s = false -> isFlushing s = false -> dirty s <> [] ->
  exists s' evs,
    ends (flush layoutCode enough s) s' (Began (dirty s) :: evs) /\
    (exists rest, dirty s = entries evs ++ rest) /\
    passes evs = O /\
    (forall fuel s1 tr, isFlushing s1 = true ->
       flushNow layoutCode (S fuel) s1 tr = Normal s1 tr) /\
    (forall t, In t (dirty s') ->
       exists c, In (Called c) evs /\ marksb t c = true) /\
    (forall t e1 c e2,
       evs = e1 ++ Called c :: e2 -> marksb t c = true ->
       (forall c', In (Called c') e1 -> is_destroy c' = false) ->
       (forall c', In (Called c') e2 -> dropsb t c' = false) ->
       In t (dirty s')) /\
    ((forall tr t, calm (layoutCode tr t)) ->
       flush layoutCode enough s = Normal s' (Began (dirty s) :: evs) /\
       entries evs = dirty s /\
       isFlushing s' = false /\ destroyed s' = false /\
       forall t, In t (dirty s') ->
         exists s'' evs',
           flush layoutCode enough s' = Normal s'' (Began (dirty s') :: evs')
           /\ In t (entries evs')).
Proof.
  intros D F N. unfold flush, enough.
  destruct (flush_pass layoutCode 0 s D F N)
    as (s' & evs & Hend & Hpre & Pa & V & Hcalm).
  exists s', evs.
  split; [destruct Hend as [[-> _] | [-> _]]; [now left | now right] |].
  split; [exact Hpre |]. split; [exact Pa |].
  split; [intros fuel s1 tr B; now apply flushNow_skips; auto |].
  assert (Hmem : forall t, member t (dirty s') = snd (replay t evs (true, false))).
  { intros t. now rewrite <- V. }
  split; [| split].
  - intros t Hin. apply member_In in Hin. rewrite Hmem in Hin.
    destruct (replay_marked_somewhere t evs _ Hin) as [Hs | Hc];
      [discriminate Hs | exact Hc].
  - intros t e1 c e2 -> Hm H1 H2.
    apply member_In. rewrite Hmem.
    now rewrite (replay_marked_stays t e1 e2 c false Hm H1 H2).
  - intros Hall. destruct (Hcalm Hall) as (Hn & Hq & D').
    destruct Hend as [[_ F'] | [Ht _]]; [| rewrite Ht in Hn; discriminate Hn].
    split; [exact Hn |]. split; [exact Hq |]. split; [exact F' |].
    split; [exact D' |].
    intros t Hin.
    assert (N' : dirty s' <> []) by (intros E; rewrite E in Hin; exact Hin).
    destruct (flush_pass layoutCode 0 s' D' F' N')
      as (s'' & evs' & _ & _ & _ & _ & Hcalm').
    destruct (Hcalm' Hall) as (Hn' & Hq' & _).
    exists s'', evs'. split; [exact Hn' |]. now rewrite Hq'.
Qed.

(** *** Coalescing and order *)

Lemma marks_snoc (l : list Target) (x : Target) :
  marks (l ++ [x]) = set_add x (marks l).
Proof. unfold marks. now rewrite fold_left_app. Qed.

Lemma marks_NoDup (l : list Target) : NoDup (marks l).
Proof.
  induction l as [| x l IH] using rev_ind; [constructor |].
  rewrite marks_snoc. now apply set_add_NoDup.
Qed.

Lemma member_marks (t : Target) (l : list Target) :
  member t (marks l) = member t l.
Proof. unfold marks. now rewrite member_fold_set_add. Qed.

Lemma set_add_old (x : Target) (l : list Target) :
  member x l = true -> set_add x l = l.
Proof. unfold set_add, member. now intros ->. Qed.

Lemma set_add_new (x : Target) (l : list Target) :
  member x l = false -> set_add x l = l ++ [x].
Proof. unfold set_add, member. now intros ->. Qed.

Lemma marks_of_NoDup (d : list Target) : NoDup d -> marks d = d.
Proof.
  induction d as [| x d IH] using rev_ind; intros H; [reflexivity |].
  rewrite marks_snoc.
  apply NoDup_remove in H. rewrite app_nil_r in H. destruct H as [Hd Hx].
  rewrite (IH Hd). apply set_add_new.
  destruct (member x d) eqn:E; [| reflexivity].
  apply member_In in E. contradiction.
Qed.

Lemma fold_set_add_marks (d ms : list Target) :
  NoDup d -> fold_left (fun d t => set_add t d) ms d = marks (d ++ ms).
Proof.
  intros H. unfold marks at 1. rewrite fold_left_app.
  fold (marks d). now rewrite (marks_of_NoDup d H).
Qed.

Lemma index_of_member (t : Target) (l : list Target) :
  member t l = true <-> exists i, index_of t l = Some i.
Proof.
  induction l as [| x l IH]; cbn [index_of].
  - split; [discriminate | intros [i H]; discriminate H].
  - change (member t (x :: l)) with (Nat.eqb t x || member t l).
    destruct (Nat.eqb t x); cbn [orb].
    + split; [now exists O | reflexivity].
    + rewrite IH. split; intros [i H].
      * exists (S i). now rewrite H.
      * destruct (index_of t l) as [j |]; [now exists j | discriminate H].
Qed.

Lemma index_of_lt (t : Target) (l : list Target) (i : nat) :
  index_of t l = Some i -> (i < List.length l)%nat.
Proof.
  revert i. induction l as [| x l IH]; intros i; cbn [index_of List.length].
  - discriminate.
  - destruct (Nat.eqb t x).
    + intros [= <-]. lia.
    + destruct (index_of t l) as [j |]; [| discriminate].
      intros [= <-]. specialize (IH j eq_refl). lia.
Qed.

Lemma index_of_app_l (t : Target) (l r : list Target) (i : nat) :
  index_of t l = Some i -> index_of t (l ++ r) = Some i.
Proof.
  revert i. induction l as [| x l IH]; intros i; cbn [index_of app].
  - discriminate.
  - destruct (Nat.eqb t x); [auto |].
    destruct (index_of t l) as [j |]; [| discriminate].
    intros [= <-]. now rewrite (IH j eq_refl).
Qed.

Lemma index_of_snoc_new (t x : Target) (l : list Target) (i : nat) :
  index_of t l = None -> index_of t (l ++ [x]) = Some i ->
  t = x /\ i = List.length l.
Proof.
  revert i. induction l as [| y l IH]; intros i; cbn [index_of app List.length].
  - intros _. destruct (Nat.eqb_spec t x); [| discriminate].
    intros [= <-]. now split.
  - destruct (Nat.eqb t y); [discriminate |].
    destruct (index_of t l) as [j |]; [discriminate |]. intros _.
    destruct (index_of t (l ++ [x])) as [k |] eqn:E; [| discriminate].
    intros [= <-]. destruct (IH k eq_refl eq_refl) as [-> ->]. now split.
Qed.

Lemma index_of_snoc_self (x : Target) (l : list Target) :
  member x l = false -> index_of x (l ++ [x]) = Some (List.length l).
Proof.
  induction l as [| y l IH]; cbn [index_of app List.length].
  - intros _. now rewrite Nat.eqb_refl.
  - change (member x (y :: l)) with (Nat.eqb x y || member x l).
    destruct (Nat.eqb x y); cbn [orb]; [discriminate |].
    intros H. now rewrite (IH H).
Qed.

(** The batch keeps the order of first marks. *)
Lemma marks_order (l : list Target) (a b : Target) (i j : nat) :
  index_of a l = Some i -> index_of b l = Some j -> (i < j)%nat ->
  exists i' j',
    index_of a (marks l) = Some i' /\ index_of b (marks l) = Some j' /\
    (i' < j')%nat.
Proof.
  revert i j. induction l as [| x l IH] using rev_ind; intros i j Ha Hb Hij.
  - discriminate Ha.
  - rewrite marks_snoc.
    destruct (index_of a l) as [i0 |] eqn:Ea.
    + rewrite (index_of_app_l a l [x] i0 Ea) in Ha. injection Ha as <-.
      destruct (index_of b l) as [j0 |] eqn:Eb.
      * rewrite (index_of_app_l b l [x] j0 Eb) in Hb. injection Hb as <-.
        destruct (IH i0 j0 eq_refl eq_refl Hij) as (i' & j' & Hi & Hj & Hlt).
        exists i', j'. unfold set_add.
        destruct (existsb (Nat.eqb x) (marks l)); [now repeat split |].
        repeat split; auto using index_of_app_l.
      * destruct (index_of_snoc_new b x l j Eb Hb) as [-> ->].
        assert (Hbm : member x (marks l) = false).
        { rewrite member_marks. destruct (member x l) eqn:E; [| reflexivity].
          apply index_of_member in E. destruct E as [k E]. congruence. }
        assert (Ham : member a (marks l) = true).
        { rewrite member_marks. apply index_of_member. now exists i0. }
        apply index_of_member in Ham. destruct Ham as [i' Hi].
        exists i', (List.length (marks l)).
        rewrite (set_add_new x (marks l) Hbm).
        repeat split.
        -- now apply index_of_app_l.
        -- now apply index_of_snoc_self.
        -- now apply index_of_lt with (t := a).
    + destruct (index_of_snoc_new a x l i Ea Ha) as [-> ->].
      apply index_of_lt in Hb. rewrite length_app in Hb. cbn in Hb. lia.
Qed.

Lemma markAll_state (ms : list Target) (s : Scheduler) :
  destroyed s = false ->
  dirty (markAll ms s) = fold_left (fun d t => set_add t d) ms (dirty s) /\
  destroyed (markAll ms s) = false /\
  isFlushing (markAll ms s) = isFlushing s.
Proof.
  revert s. unfold markAll.
  induction ms as [| m ms IH]; intros s D; cbn [fold_left]; [auto |].
  assert (D1 : destroyed (markDirty m s) = false)
    by (unfold markDirty; rewrite D; exact D).
  destruct (IH (markDirty m s) D1) as (-> & -> & ->).
  unfold markDirty. rewrite D. auto.
Qed.

Lemma index_of_app_inv (t : Target) (l r : list Target) (i : nat) :
  index_of t (l ++ r) = Some i -> (i < List.length l)%nat ->
  index_of t l = Some i.
Proof.
  revert i. induction l as [| x l IH]; intros i; cbn [index_of app List.length].
  - lia.
  - destruct (Nat.eqb t x); [auto |].
    destruct (index_of t (l ++ r)) as [k |] eqn:E; [| discriminate].
    intros [= <-] Hlt. rewrite (IH k eq_refl); [reflexivity | lia].
Qed.

(** What a flush lays out of a batch: a front part of it, so never a
    target twice and never against the order of the batch. *)
Lemma front_of_batch (q front rest : list Target) :
  NoDup q -> q = front ++ rest ->
  (forall t, (count_occ Nat.eq_dec front t <= 1)%nat) /\
  (forall t, In t front -> In t q) /\
  (forall a b i j,
     index_of a q = Some i -> index_of b q = Some j -> (i < j)%nat ->
     In b front ->
     index_of a front = Some i /\ index_of b front = Some j).
Proof.
  intros Hnd ->. split; [| split].
  - apply NoDup_count_occ. now apply NoDup_app_remove_r in Hnd.
  - intros t Ht. apply in_or_app. now left.
  - intros a b i j Ha Hb Hij Hin.
    apply member_In, index_of_member in Hin. destruct Hin as [j' Hj'].
    pose proof (index_of_app_l b front rest j' Hj') as Hb'.
    rewrite Hb in Hb'. injection Hb' as <-.
    split; [| exact Hj'].
    apply index_of_app_inv with (r := rest); [exact Ha |].
    apply index_of_lt in Hj'. lia.
Qed.

(** C8.  However often the targets are marked between two flushes, the next
    flush lays out no target twice and none that was not marked, and of two
    targets the one first marked earlier is laid out earlier; when no layout
    throws or destroys the scheduler, each marked target is laid out exactly
    once.  [dirty s0] holds what an earlier pass left pending, ahead of the
    marks [ms] made since. *)
Theorem marks_coalesce_in_order layoutCode (s0 : Scheduler)
  (ms : list Target) :
  destroyed s0 = false -> isFlushing s0 = false -> NoDup (dirty s0) ->
  exists s' tr,
    ends (flush layoutCode enough (markAll ms s0)) s' tr /\
    (forall t, (count_occ Nat.eq_dec (entries tr) t <= 1)%nat) /\
    (forall t, In t (entries tr) -> In t (dirty s0 ++ ms)) /\
    (forall a b i j,
       index_of a (dirty s0 ++ ms) = Some i ->
       index_of b (dirty s0 ++ ms) = Some j -> (i < j)%nat ->
       In b (entries tr) ->
       exists i' j',
         index_of a (entries tr) = Some i' /\
         index_of b (entries tr) = Some j' /\ (i' < j')%nat) /\
    ((forall tr' t, calm (layoutCode tr' t)) ->
       flush layoutCode enough (markAll ms s0) = Normal s' tr /\
       forall t, In t (dirty s0 ++ ms) ->
         count_occ Nat.eq_dec (entries tr) t = 1%nat).
Proof.
  intros D F Hnd.
  destruct (markAll_state ms s0 D) as (Hd & D1 & F1).
  rewrite (fold_set_add_marks (dirty s0) ms Hnd) in Hd.
  rewrite F in F1.
  set (s1 := markAll ms s0) in *.
  set (pending := dirty s0 ++ ms) in *.
  assert (Hres : exists s' tr,
             ends (flush layoutCode enough s1) s' tr /\
             (exists rest, marks pending = entries tr ++ rest) /\
             ((forall tr' t, calm (layoutCode tr' t)) ->
                flush layoutCode enough s1 = Normal s' tr /\
                entries tr = marks pending)).
  { destruct (dirty s1) as [| t l] eqn:E.
    - exists s1, [].
      assert (Hskip : flush layoutCode enough s1 = Normal s1 [])
        by (apply flushNow_skips; auto).
      split; [now left |]. rewrite <- Hd.
      split; [now exists [] |]. intros _. now split.
    - assert (N : dirty s1 <> []) by (rewrite E; discriminate).
      destruct (flush_pass layoutCode 0 s1 D1 F1 N)
        as (s' & evs & Hend & Hpre & _ & _ & Hcalm).
      exists s', (Began (dirty s1) :: evs). cbn [entries].
      rewrite <- Hd, <- E. unfold flush, enough.
      split; [destruct Hend as [[-> _] | [-> _]]; [now left | now right] |].
      split; [exact Hpre |].
      intros Hall. destruct (Hcalm Hall) as (Hn & Hq & _). now split. }
  destruct Hres as (s' & tr & Hend & (rest & Hpre) & Hcalm).
  destruct (front_of_batch (marks pending) (entries tr) rest
              (marks_NoDup pending) Hpre) as (Hmost & Hin & Hord).
  exists s', tr. split; [exact Hend |]. split; [exact Hmost |].
  split; [| split].
  - intros t Ht. apply member_In. rewrite <- member_marks.
    apply member_In. now apply Hin.
  - intros a b i j Ha Hb Hij Hb'.
    destruct (marks_order pending a b i j Ha Hb Hij)
      as (i' & j' & Hi' & Hj' & Hlt).
    exists i', j'.
    destruct (Hord a b i' j' Hi' Hj' Hlt Hb') as [Ea Eb].
    now repeat split.
  - intros Hall. destruct (Hcalm Hall) as [Hn Hq].
    split; [exact Hn |]. intros t Ht. rewrite Hq.
    apply NoDup_count_occ'; [apply marks_NoDup |].
    apply member_In. rewrite member_marks. now apply member_In.
Qed.

(** *** The dirty set stays a set *)

Lemma fold_set_add_NoDup (ts l : list Target) :
  NoDup l -> NoDup (fold_left (fun d t => set_add t d) ts l).
Proof.
  revert l. induction ts as [| t ts IH]; intros l H; cbn [fold_left]; auto.
  apply IH. now apply set_add_NoDup.
Qed.

Lemma do_call_NoDup fl (c : Call) (s s' : Scheduler) (tr tr' : Trace) :
  guarded fl -> isFlushing s = true -> NoDup (dirty s) ->
  do_call fl c s tr = Normal s' tr' -> NoDup (dirty s').
Proof.
  intros G B H.
  destruct c as [u | ts | u | | |]; cbn [do_call];
    try rewrite (G s tr B); intros [= <- _]; auto.
  - unfold markDirty. destruct (destroyed s); auto.
    now apply set_add_NoDup.
  - unfold markDirtyMany. destruct (_ || _); auto.
    now apply fold_set_add_NoDup.
  - unfold remove. destruct (destroyed s); auto.
    now apply NoDup_filter.
  - unfold clear. destruct (destroyed s); auto. constructor.
  - unfold destroyScheduler. destruct (destroyed s); auto. constructor.
Qed.

Lemma exec_NoDup fl (c : Code) :
  guarded fl ->
  forall (s s' : Scheduler) (tr tr' : Trace),
  isFlushing s = true -> NoDup (dirty s) ->
  ends (exec fl c s tr) s' tr' -> NoDup (dirty s').
Proof.
  intros G. induction c as [| | cl k IH | k IH | k IH];
    intros s s' tr tr' B H; cbn [exec].
  - intros [[= <- _] | [=]]. exact H.
  - intros [[=] | [= <- _]]. exact H.
  - destruct (do_call_busy fl cl s (tr ++ [Called cl]) G B)
      as (s1 & E1 & B1 & _).
    rewrite E1. apply IH; [exact B1 |].
    now apply (do_call_NoDup fl cl s s1 _ _ G B H E1).
  - now apply IH.
  - now apply IH.
Qed.

Lemma run_queue_NoDup layoutCode fl (queue : list Target) :
  guarded fl ->
  forall (s s' : Scheduler) (tr tr' : Trace),
  isFlushing s = true -> NoDup (dirty s) ->
  ends (run_queue layoutCode fl queue s tr) s' tr' -> NoDup (dirty s').
Proof.
  intros G. induction queue as [| target rest IH];
    intros s s' tr tr' B H; cbn [run_queue].
  - intros [[= <- _] | [=]]. exact H.
  - destruct (destroyed s); [intros [[= <- _] | [=]]; exact H |].
    destruct (exec_busy fl (layoutCode tr target) G s
                (tr ++ [Entered target]) B)
      as (s1 & evs1 & He & B1 & _).
    pose proof (exec_NoDup fl (layoutCode tr target) G s s1 _ _ B H He) as H1.
    destruct He as [He | He]; rewrite He.
    + now apply IH.
    + intros [[=] | [= <- _]]. exact H1.
Qed.

(** After a flush of an idle scheduler the dirty set holds no target
    twice. *)
Lemma flush_NoDup layoutCode (s s' : Scheduler) (tr' : Trace) :
  isFlushing s = false -> NoDup (dirty s) ->
  ends (flush layoutCode enough s) s' tr' -> NoDup (dirty s').
Proof.
  intros F H. unfold flush, enough.
  destruct (destroyed s) eqn:D;
    [rewrite flushNow_skips by auto; intros [[= <- _] | [=]]; exact H |].
  destruct (dirty s) as [| t l] eqn:E;
    [rewrite flushNow_skips by auto; intros [[= <- _] | [=]];
     rewrite E; constructor |].
  assert (N : dirty s <> []) by (rewrite E; discriminate).
  rewrite (flushNow_pass layoutCode 1 s [] D F N).
  destruct (run_queue_busy layoutCode (flushNow layoutCode 1) (dirty s)
              (flushNow_guarded layoutCode 0) (pass_start s)
              ([] ++ [Began (dirty s)]) eq_refl)
    as (s1 & evs & He & _).
  assert (H1 : NoDup (dirty s1)).
  { refine (run_queue_NoDup layoutCode _ _ (flushNow_guarded layoutCode 0)
              (pass_start s) s1 _ _ eq_refl _ He).
    constructor. }
  destruct He as [He | He]; rewrite He; intros [[= <- _] | [= <- _]];
    exact H1.
Qed.

(** *** A layout that throws *)

(** An exception leaves [flushNow] before [isFlushing = false] is reached. *)
Lemma thrown_flush_stays_busy layoutCode (s s' : Scheduler) (tr : Trace) :
  isFlushing s = false ->
  flush layoutCode enough s = Thrown s' tr ->
  isFlushing s' = true.
Proof.
  intros F H. unfold flush, enough in H.
  destruct (destroyed s) eqn:D;
    [rewrite flushNow_skips in H by auto; discriminate H |].
  destruct (dirty s) as [| t l] eqn:E;
    [rewrite flushNow_skips in H by auto; discriminate H |].
  assert (N : dirty s <> []) by (rewrite E; discriminate).
  destruct (flush_pass layoutCode 0 s D F N)
    as (s1 & evs & [[Hn _] | [Ht B]] & _).
  - rewrite Hn in H. discriminate H.
  - rewrite Ht in H. injection H as <- _. exact B.
Qed.

(** C5, on the code.  Targets 1 and 2 are pending and the layout of target
    1 throws.  The flush ends with the exception after entering that
    layout only; the scheduler is left alive with [isFlushing] still set.
    From then on marks still accumulate, but neither [flush()] nor the
    scene's flush event lays anything out: both return at the guard. *)
Theorem throwing_layout_leaves_flag_set :
  exists s1,
    flush throwing_code enough (markAll [1; 2]%nat layoutAuto)
      = Thrown s1 [Began [1; 2]%nat; Entered 1%nat] /\
    isFlushing s1 = true /\ destroyed s1 = false /\
    getDirtyCount (markDirty 2%nat s1) = 1%nat /\
    flush throwing_code enough (markDirty 2%nat s1)
      = Normal (markDirty 2%nat s1) [] /\
    emit_flushEvent throwing_code enough (markDirty 2%nat s1) []
      = Normal (markDirty 2%nat s1) [].
Proof.
  eexists. split; [vm_compute; reflexivity |].
  repeat split.
Qed.

(** *** The sample targets *)

Lemma remarking_code_calm (tr : Trace) (t : Target) :
  calm (remarking_code tr t).
Proof.
  destruct t as [| t]; cbn [remarking_code].
  - repeat constructor.
  - constructor.
Qed.

Lemma flush_defers_marks_witness :
  destroyed (markAll [0; 2]%nat layoutAuto) = false /\
  isFlushing (markAll [0; 2]%nat layoutAuto) = false /\
  dirty (markAll [0; 2]%nat layoutAuto) <> [] /\
  exists s' evs,
    ends (flush remarking_code enough (markAll [0; 2]%nat layoutAuto)) s'
      (Began [0; 2]%nat :: evs) /\
    entries evs = [0; 2]%nat /\ passes evs = O /\ dirty s' = [0%nat].
Proof.
  assert (D : destroyed (markAll [0; 2]%nat layoutAuto) = false)
    by reflexivity.
  assert (F : isFlushing (markAll [0; 2]%nat layoutAuto) = false)
    by reflexivity.
  assert (N : dirty (markAll [0; 2]%nat layoutAuto) <> []) by discriminate.
  split; [exact D |]. split; [exact F |]. split; [exact N |].
  destruct (flush_defers_marks remarking_code _ D F N)
    as (s' & evs & He & _ & Pa & _ & _ & _ & Hcalm).
  destruct (Hcalm remarking_code_calm) as (Hn & Hq & _).
  exists s', evs. split; [exact He |]. split; [exact Hq |].
  split; [exact Pa |].
  assert (Hc : flush remarking_code enough (markAll [0; 2]%nat layoutAuto)
               = Normal (mkScheduler [0%nat] false false true)
                   [Began [0; 2]%nat; Entered 0%nat;
                    Called (call_markDirty 0%nat); Called call_flush;
                    Entered 2%nat])
    by reflexivity.
  rewrite Hc in Hn. injection Hn as <- _. reflexivity.
Defined.

Lemma marks_coalesce_in_order_witness :
  destroyed layoutAuto = false /\
  isFlushing layoutAuto = false /\
  NoDup (dirty layoutAuto) /\
  (forall tr t, calm (remarking_code tr t)) /\
  index_of 3%nat (dirty layoutAuto ++ [3; 0; 3; 3; 0]%nat) = Some 0%nat /\
  index_of 0%nat (dirty layoutAuto ++ [3; 0; 3; 3; 0]%nat) = Some 1%nat /\
  exists s' tr,
    flush remarking_code enough (markAll [3; 0; 3; 3; 0]%nat layoutAuto)
      = Normal s' tr /\
    count_occ Nat.eq_dec (entries tr) 3%nat = 1%nat /\
    count_occ Nat.eq_dec (entries tr) 0%nat = 1%nat /\
    exists i' j',
      index_of 3%nat (entries tr) = Some i' /\
      index_of 0%nat (entries tr) = Some j' /\ (i' < j')%nat.
Proof.
  assert (Hnd : NoDup (dirty layoutAuto)) by constructor.
  split; [reflexivity |]. split; [reflexivity |]. split; [exact Hnd |].
  split; [exact remarking_code_calm |].
  split; [reflexivity |]. split; [reflexivity |].
  destruct (marks_coalesce_in_order remarking_code layoutAuto
              [3; 0; 3; 3; 0]%nat eq_refl eq_refl Hnd)
    as (s' & tr & _ & _ & _ & Hord & Hcalm).
  destruct (Hcalm remarking_code_calm) as [Hn Hone].
  assert (H3 : count_occ Nat.eq_dec (entries tr) 3%nat = 1%nat)
    by (apply Hone; cbn; auto).
  assert (H0 : count_occ Nat.eq_dec (entries tr) 0%nat = 1%nat)
    by (apply Hone; cbn; auto).
  exists s', tr. split; [exact Hn |]. split; [exact H3 |]. split; [exact H0 |].
  apply (Hord 3%nat 0%nat 0%nat 1%nat eq_refl eq_refl); [lia |].
  apply (count_occ_In Nat.eq_dec). rewrite H0. lia.
Defined.

End SchedFacts.

(* ================================================================== *)
(** ** Viewport anchoring *)
(* ================================================================== *)

Module AnchorFacts.
Import JsNum JsNumFacts Anchor.
Local Open Scope num_scope.

Lemma anchored_position_by_name (b : Binding) (scene : Scene)
  (target : GameObject) :
  anchored_position b scene target =
  (across (horizontal (anchor b)) (edge_left b scene) (edge_right b scene)
     (fst (getDisplaySize target) / two) + offsetX b,
   down (vertical (anchor b)) (edge_top b scene) (edge_bottom b scene)
     (snd (getDisplaySize target) / two) + offsetY b).
Proof.
  unfold anchored_position, edge_left, edge_right, edge_top, edge_bottom.
  destruct (anchor b); reflexivity.
Qed.

(** The size read from a target that has a display size is that size. *)
Lemma getDisplaySize_display (target : GameObject) (w h : num) :
  displayWidth target = Some w -> displayHeight target = Some h ->
  zero <= w -> zero <= h -> getDisplaySize target = (w, h).
Proof.
  intros Hw Hh Pw Ph. unfold getDisplaySize. rewrite Hw, Hh. cbn [is_some orb orElse].
  now rewrite !max_r.
Qed.

(** C9.  Each of the nine anchor names places the target by its column
    (left, centred, right) and its row (top, centred, bottom) within the
    viewport rectangle reduced by the insets: half the display size inwards
    from the left, right, top or bottom edge, or the middle of the
    available extent, and then the caller's offset.  A 100 x 50 target
    anchored top-right with offset (-10, 10) in an 800 x 600 viewport
    without insets ends at (740, 35). *)
Theorem placeTarget_by_anchor :
  (forall (b : Binding) (scene : Scene) (target : GameObject),
     destroyed b = false -> has_setPosition target = true ->
     exists placed,
       placeTarget b scene target = Ok placed /\
       xy placed =
         (across (horizontal (anchor b)) (edge_left b scene)
            (edge_right b scene) (fst (getDisplaySize target) / two)
          + offsetX b,
          down (vertical (anchor b)) (edge_top b scene)
            (edge_bottom b scene) (snd (getDisplaySize target) / two)
          + offsetY b)) /\
  (getViewportRect example_scene = mkRect zero zero (of_Z 800) (of_Z 600) /\
   getDisplaySize example_target = (of_Z 100, of_Z 50) /\
   exists b placed,
     anchorToViewport example_options = Ok (b, placed) /\
     anchor b = top_right /\
     (offsetX b, offsetY b) = (of_Z (-10), of_Z 10) /\
     insets_of b example_scene = zeroInsets /\
     xy placed = (of_Z 740, of_Z 35)).
Proof.
  split.
  - intros b scene target D P. unfold placeTarget. rewrite D.
    rewrite anchored_position_by_name.
    unfold setTargetPosition. rewrite P.
    eexists. split; reflexivity.
  - split; [reflexivity |]. split; [vm_compute; reflexivity |].
    eexists. eexists.
    split; [vm_compute; reflexivity |].
    repeat split; vm_compute; reflexivity.
Qed.

Lemma placeTarget_by_anchor_witness :
  destroyed (mkBinding bottom_center zero zero false None true false) = false /\
  has_setPosition example_target = true /\
  exists placed,
    placeTarget (mkBinding bottom_center zero zero false None true false)
      example_scene example_target = Ok placed /\
    xy placed = (of_Z 400, of_Z 575).
Proof.
  split; [reflexivity |]. split; [reflexivity |].
  destruct (proj1 placeTarget_by_anchor
              (mkBinding bottom_center zero zero false None true false)
              example_scene example_target eq_refl eq_refl)
    as (placed & Hp & Hxy).
  exists placed. split; [exact Hp |].
  rewrite Hxy. vm_compute. reflexivity.
Defined.

End AnchorFacts.

(* ================================================================== *)
(** ** More facts about numbers: finite order, halves, unit factors *)
(* ================================================================== *)

Module JsNumOrderFacts.
Import JsNum JsNumFacts.
Local Open Scope num_scope.

Lemma le_Fin (x y : Qc) : Fin x <= Fin y <-> (x <= y)%Qc.
Proof.
  unfold le, leb. destruct (Qccompare_spec x y) as [E | E | E];
    split; intros Hle; try reflexivity; try discriminate; try qc_arith.
Qed.

Lemma half_fin (q : Qc) :
  exists h : Qc, Fin q / two = Fin h /\ (h + h = q)%Qc.
Proof.
  exists (q / Q2Qc (inject_Z 2))%Qc. split.
  - unfold two, of_Z, div.
    change (sgn (Q2Qc (inject_Z 2))) with Gt. reflexivity.
  - change (Q2Qc (inject_Z 2)) with (1 + 1)%Qc. field.
    intros E. discriminate E.
Qed.

Lemma mul_one_l (a : num) : one * a = a.
Proof.
  destruct a; try reflexivity.
  unfold one, of_Z. cbn [mul]. f_equal.
  change (Q2Qc (inject_Z 1)) with 1%Qc. ring.
Qed.

Lemma mul_neg_one_l (a : num) : (- one) * a = - a.
Proof. destruct a; reflexivity. Qed.

Lemma min_nan_r (a : num) : min a NaN = NaN.
Proof. now destruct a. Qed.

Lemma max_nan_r (a : num) : max a NaN = NaN.
Proof. now destruct a. Qed.

Lemma div_fin_pos (a b : Qc) :
  (Q2Qc 0 < b)%Qc -> Fin a / Fin b = Fin (a / b)%Qc.
Proof.
  intros Hb. unfold div, sgn.
  destruct (Qccompare_spec b (Q2Qc 0)) as [E | E | E];
    [exfalso; qc_arith | exfalso; qc_arith | reflexivity].
Qed.

(** A part of a positive whole, as a fraction of it, is not negative, and
    neither is a distance scaled by it; none of the whole is 0 and all of
    it is 1. *)
Lemma fraction_nonneg (q m t : Qc) :
  (Q2Qc 0 <= q)%Qc -> (Q2Qc 0 < m)%Qc -> (Q2Qc 0 <= t)%Qc ->
  (Q2Qc 0 <= q / m * t)%Qc.
Proof.
  intros H0 Hm Ht.
  assert (Hne : m <> Q2Qc 0).
  { intros E. qc_arith. }
  assert (Er : (q / m * m = q)%Qc) by (field; exact Hne).
  assert (R0 : (Q2Qc 0 <= q / m)%Qc).
  { apply Qcmult_lt_0_le_reg_r with m; [exact Hm |].
    rewrite Er. replace (Q2Qc 0 * m)%Qc with (Q2Qc 0) by ring. exact H0. }
  replace (Q2Qc 0) with (Q2Qc 0 * t)%Qc by ring.
  now apply Qcmult_le_compat_r.
Qed.

Lemma fraction_none (m t : Qc) : (Q2Qc 0 / m * t = Q2Qc 0)%Qc.
Proof. unfold Qcdiv. ring. Qed.

Lemma fraction_whole (m t : Qc) : (Q2Qc 0 < m)%Qc -> (m / m * t = t)%Qc.
Proof.
  intros Hm. field. intros E. qc_arith.
Qed.

Lemma max_zero_fin (d : Qc) :
  (Q2Qc 0 <= d)%Qc -> max zero (Fin d) = Fin d.
Proof.
  intros Hd. unfold max, zero, of_Z, ltb.
  change (Q2Qc (inject_Z 0)) with (Q2Qc 0).
  destruct (Qccompare_spec (Q2Qc 0) d) as [E | E | E];
    [now rewrite <- E | reflexivity |].
  exfalso. qc_arith.
Qed.

Lemma max_zero_fin_pos (d : Qc) :
  (max zero (Fin d) <=? zero) = false ->
  max zero (Fin d) = Fin d /\ (Q2Qc 0 < d)%Qc.
Proof.
  unfold max, zero, of_Z, ltb, leb.
  change (Q2Qc (inject_Z 0)) with (Q2Qc 0).
  destruct (Qccompare_spec (Q2Qc 0) d) as [E | E | E].
  - rewrite <- E.
    destruct (Qccompare_spec (Q2Qc 0) (Q2Qc 0)); try discriminate;
      intros _; exfalso; qc_arith.
  - now split.
  - destruct (Qccompare_spec (Q2Qc 0) (Q2Qc 0)); try discriminate;
      intros _; exfalso; qc_arith.
Qed.

Lemma max_zero_fin_any (d : Qc) :
  exists t : Qc, max zero (Fin d) = Fin t /\ (Q2Qc 0 <= t)%Qc.
Proof.
  unfold max, zero, of_Z, ltb.
  change (Q2Qc (inject_Z 0)) with (Q2Qc 0).
  destruct (Qccompare_spec (Q2Qc 0) d) as [E | E | E].
  - exists (Q2Qc 0). split; [reflexivity | qc_arith].
  - exists d. split; [reflexivity | qc_arith].
  - exists (Q2Qc 0). split; [reflexivity | qc_arith].
Qed.

Lemma Clamp_fin (v lo hi : Qc) :
  exists h : Qc, Clamp (Fin v) (Fin lo) (Fin hi) = Fin h.
Proof.
  unfold Clamp, max, min, ltb.
  destruct (Qccompare v hi); cbn;
    match goal with |- context [Qccompare ?x ?y] =>
      destruct (Qccompare x y) end; eexists; reflexivity.
Qed.

End JsNumOrderFacts.

(* ================================================================== *)
(** ** The scroll viewport: content, removal, setters and the wheel *)
(* ================================================================== *)

Module ScrollControlsFacts.
Import JsNum JsNumFacts JsNumOrderFacts Scroll ScrollFacts ScrollControls.
Local Open Scope list_scope.
Local Open Scope num_scope.

(** *** What the content scan measures *)

Lemma measurable_In (items : list Item) :
  measurable items = true ->
  forall i, In i items ->
    isFinite (item_top i) = true /\ isFinite (item_bottom i) = true.
Proof.
  unfold measurable. rewrite forallb_forall. intros H i Hi.
  now apply andb_true_iff, H.
Qed.

Lemma measurable_numbers (items : list Item) :
  measurable items = true ->
  forall i, In i items -> item_top i <> NaN /\ item_bottom i <> NaN.
Proof.
  intros H i Hi. destruct (measurable_In items H i Hi) as [T B].
  split; now apply finite_not_nan.
Qed.

Lemma measurable_incl (small big : list Item) :
  incl small big -> measurable big = true -> measurable small = true.
Proof.
  unfold measurable. rewrite !forallb_forall. intros Hi Hb i Hin.
  apply Hb, Hi, Hin.
Qed.

Lemma measurable_scan (items : list Item) :
  items <> [] -> measurable items = true ->
  isFinite (fst (scan_items items)) = true /\
  isFinite (snd (scan_items items)) = true.
Proof.
  intros Hne Hm.
  destruct (scan_items_extent items Hne (measurable_numbers items Hm))
    as (_ & (i & Hi & ->) & (j & Hj & ->)).
  split; [apply (measurable_In items Hm i Hi) | apply (measurable_In items Hm j Hj)].
Qed.

Lemma measurable_metrics (items : list Item) :
  items <> [] -> measurable items = true ->
  content_metrics items =
  (fst (scan_items items),
   max zero (snd (scan_items items) - fst (scan_items items))).
Proof.
  intros Hne Hm.
  destruct (measurable_scan items Hne Hm) as [F1 F2].
  unfold content_metrics.
  destruct items as [| x rest]; [congruence |].
  destruct (scan_items (x :: rest)) as [minY maxY].
  cbn [fst snd] in *. now rewrite F1, F2.
Qed.

Lemma span_mono (m m' M M' : num) :
  isFinite m = true -> isFinite m' = true ->
  isFinite M = true -> isFinite M' = true ->
  m <= m' -> M' <= M ->
  max zero (M' - m') <= max zero (M - m).
Proof.
  unfold zero, of_Z.
  destruct m, m', M, M'; try discriminate; intros _ _ _ _; num_cases.
Qed.

Lemma content_height_mono (small big : list Item) :
  incl small big -> measurable big = true ->
  snd (content_metrics small) <= snd (content_metrics big).
Proof.
  intros Hi Hb.
  destruct small as [| x rest].
  - apply content_height_nonneg.
  - assert (Hs : measurable (x :: rest) = true)
      by now apply (measurable_incl _ big).
    assert (Hbne : big <> []).
    { intros ->. apply (Hi x). now left. }
    rewrite (measurable_metrics (x :: rest)) by (try discriminate; assumption).
    rewrite (measurable_metrics big) by assumption.
    cbn [snd].
    destruct (measurable_scan (x :: rest)) as [F1 F2];
      [discriminate | assumption |].
    destruct (measurable_scan big Hbne Hb) as [G1 G2].
    destruct (scan_items_extent (x :: rest))
      as (_ & (i & Hin_i & Ei) & (j & Hin_j & Ej));
      [discriminate | now apply measurable_numbers |].
    destruct (scan_items_extent big Hbne (measurable_numbers big Hb))
      as (Hall & _ & _).
    apply span_mono; try assumption.
    + rewrite Ei. apply (Hall i), Hi, Hin_i.
    + rewrite Ej. apply (Hall j), Hi, Hin_j.
Qed.

(** [NaN] on either side makes [Math.min] and [Math.max] give [NaN]. *)
Lemma scan_step_nan_fst (acc : num * num) (x : Item) :
  fst acc = NaN -> fst (scan_step acc x) = NaN.
Proof. destruct acc as [a b]. cbn. now intros ->. Qed.

Lemma scan_step_nan_snd (acc : num * num) (x : Item) :
  snd acc = NaN -> snd (scan_step acc x) = NaN.
Proof. destruct acc as [a b]. cbn. now intros ->. Qed.

Lemma scan_items_nan (items : list Item) (x : Item) :
  In x items ->
  (item_top x = NaN -> fst (scan_items items) = NaN) /\
  (item_bottom x = NaN -> snd (scan_items items) = NaN).
Proof.
  induction items as [| y items IH] using rev_ind; [intros [] |].
  intros Hin. rewrite scan_items_snoc. cbn [fst snd].
  apply in_app_or in Hin. destruct Hin as [Hin | [<- | []]].
  - destruct (IH Hin) as [H1 H2]. split; intros E.
    + now rewrite (H1 E).
    + now rewrite (H2 E).
  - split; intros ->; [apply min_nan_r | apply max_nan_r].
Qed.

Lemma content_metrics_nan (items : list Item) (x : Item) :
  In x items -> item_top x = NaN \/ item_bottom x = NaN ->
  content_metrics items = (zero, zero).
Proof.
  intros Hin Hx. destruct (scan_items_nan items x Hin) as [H1 H2].
  unfold content_metrics.
  destruct items as [| y rest]; [reflexivity |].
  destruct (scan_items (y :: rest)) as [minY maxY]. cbn [fst snd] in *.
  destruct Hx as [E | E].
  - now rewrite (H1 E).
  - rewrite (H2 E). cbn. now rewrite orb_true_r.
Qed.

(** *** The offset after a change of content *)

Lemma max_zero_sub_mono (a b v : num) :
  isFinite a = true -> isFinite b = true -> v <> NaN ->
  a <= b -> max zero (a - v) <= max zero (b - v).
Proof.
  unfold zero, of_Z.
  destruct a, b; try discriminate; intros _ _; num_cases.
Qed.

Lemma layout_range s :
  _scrollY s <> NaN -> getViewportHeight s <> NaN ->
  zero <= _scrollY (layout s) <= getMaxScrollY (layout s).
Proof.
  intros Hy Hv. rewrite layout_scrollY.
  apply Clamp_bounds; [assumption |].
  apply maxScrollY_nonneg.
  apply maxScrollY_not_nan.
  - apply layout_contentHeight_finite.
  - now rewrite layout_viewportHeight.
Qed.

(** [layout] after the children were replaced by [l]. *)
Lemma relayout_maxScrollY t (l : list Item) :
  getMaxScrollY (layout (set_content_list t l)) =
  max zero (snd (content_metrics l) - getViewportHeight t).
Proof. now rewrite layout_maxScrollY. Qed.

Lemma relayout_contentHeight t (l : list Item) :
  _contentHeight (layout (set_content_list t l)) = snd (content_metrics l).
Proof. now destruct (layout_metrics (set_content_list t l)) as [_ ->]. Qed.

Lemma relayout_scrollY t (l : list Item) :
  _scrollY (layout (set_content_list t l)) =
  Clamp (_scrollY t) zero (getMaxScrollY (layout (set_content_list t l))).
Proof. now rewrite layout_scrollY. Qed.

Lemma relayout_content_list t (l : list Item) :
  content_list (layout (set_content_list t l)) = l.
Proof. now rewrite layout_content_list. Qed.

Lemma relayout_emitted t (l : list Item) :
  emitted (layout (set_content_list t l)) = emitted t.
Proof. now rewrite layout_emitted. Qed.

Lemma relayout_range t (l : list Item) :
  _scrollY t <> NaN -> getViewportHeight t <> NaN ->
  zero <= _scrollY (layout (set_content_list t l))
       <= getMaxScrollY (layout (set_content_list t l)).
Proof. intros Hy Hv. now apply layout_range. Qed.

(** Replacing the children of a laid-out container by a list that is not
    shorter in extent keeps the offset. *)
Lemma relayout_grown s (l : list Item) :
  _scrollY s <> NaN -> getViewportHeight s <> NaN ->
  snd (content_metrics (content_list s)) <= snd (content_metrics l) ->
  getMaxScrollY (layout s) <= getMaxScrollY (layout (set_content_list (layout s) l)) /\
  _scrollY (layout (set_content_list (layout s) l)) = _scrollY (layout s).
Proof.
  intros Hy Hv Hle.
  destruct (layout_range s Hy Hv) as [Hlo Hhi].
  assert (Hm : getMaxScrollY (layout s)
               <= getMaxScrollY (layout (set_content_list (layout s) l))).
  { rewrite relayout_maxScrollY, layout_maxScrollY, layout_viewportHeight.
    apply max_zero_sub_mono; try assumption; apply content_metrics_finite. }
  split; [exact Hm |].
  rewrite relayout_scrollY.
  apply Clamp_inside; [exact Hlo |].
  eapply le_trans; [exact Hhi | exact Hm].
Qed.

(** What [Container.add] does to the list: an object that is a child
    already is left out, any other object is appended. *)
Lemma container_add_cases (l : list Item) (child : Item) :
  (is_child l child = true /\ container_add l child = l) \/
  (is_child l child = false /\ container_add l child = l ++ [child]).
Proof.
  unfold container_add. destruct (is_child l child); [left | right];
    now split.
Qed.

Lemma container_add_between (l : list Item) (child : Item) :
  incl l (container_add l child) /\
  incl (container_add l child) (l ++ [child]).
Proof.
  destruct (container_add_cases l child) as [[_ ->] | [_ ->]]; split;
    intros i Hi; try assumption; apply in_or_app; now left.
Qed.


(** *** Where the content is put

    The children live in [this._content], which [applyScroll] puts at
    [viewportTop - contentMinY - scrollY]. *)

Lemma setScrollY_content_pos (v : num) t :
  content_pos t =
    (getViewportLeft t, getViewportTop t - _contentMinY t - _scrollY t) ->
  content_pos (setScrollY v t) =
    (getViewportLeft t,
     getViewportTop t - _contentMinY t - Clamp v zero (getMaxScrollY t)).
Proof.
  intros Hsync.
  destruct (Clamp v zero (getMaxScrollY t) === _scrollY t) eqn:E.
  - rewrite setScrollY_same by exact E.
    now rewrite (eqb_eq _ _ E).
  - rewrite setScrollY_changed by exact E. reflexivity.
Qed.

Lemma layout_in_sync s :
  content_pos (layout s) =
    (getViewportLeft (layout s),
     getViewportTop (layout s) - _contentMinY (layout s) - _scrollY (layout s)).
Proof.
  rewrite layout_content_pos.
  destruct (getViewport_style (layout s) s (layout_style s)) as [-> ->].
  reflexivity.
Qed.

Lemma viewportHeight_ge_one s :
  getViewportHeight s <> NaN -> one <= getViewportHeight s.
Proof.
  unfold getViewportHeight. intros H.
  apply le_max_l; [discriminate |].
  intros E. apply H. now rewrite E.
Qed.

(** What [layout] leaves for a non-empty list of measurable children. *)
Lemma layout_measurable s :
  content_list s <> [] -> measurable (content_list s) = true ->
  _contentMinY (layout s) = fst (scan_items (content_list s)) /\
  _contentHeight (layout s) =
    max zero (snd (scan_items (content_list s))
              - fst (scan_items (content_list s))).
Proof.
  intros Hne Hm. destruct (layout_metrics s) as [-> ->].
  now rewrite (measurable_metrics _ Hne Hm).
Qed.

(** The content position after [setScrollY] on a laid-out container. *)
Lemma scrolled_content_pos (v : num) s :
  content_pos (setScrollY v (layout s)) =
    (getViewportLeft s,
     getViewportTop s - _contentMinY (layout s)
     - Clamp v zero (getMaxScrollY (layout s))).
Proof.
  rewrite (setScrollY_content_pos v (layout s) (layout_in_sync s)).
  now destruct (getViewport_style (layout s) s (layout_style s)) as [-> ->].
Qed.


(** *** A child without a position *)

Lemma item_y_nan (x : Item) :
  item_y x = Some NaN -> item_top x = NaN /\ item_bottom x = NaN.
Proof. unfold item_top, item_bottom. now intros ->. Qed.

Lemma empty_content_range t :
  _scrollY t <> NaN -> getViewportHeight t <> NaN ->
  snd (content_metrics (content_list t)) = zero ->
  getContentHeight (layout t) = zero /\
  getMaxScrollY (layout t) = zero /\
  getScrollY (layout t) = zero.
Proof.
  intros Hy Hv Hz.
  assert (Hm : getMaxScrollY (layout t) = zero).
  { rewrite layout_maxScrollY, Hz. now apply max_zero_minus_viewport. }
  unfold getContentHeight, getScrollY.
  split; [| split; [exact Hm |]].
  - destruct (layout_metrics t) as [_ ->]. exact Hz.
  - rewrite layout_scrollY, Hm.
    destruct (Clamp_bounds (_scrollY t) zero zero) as [Hlo Hhi];
      [assumption | reflexivity |].
    now apply le_antisym.
Qed.

(** X4.  One child whose top or bottom edge is [NaN] (its [y] is [NaN],
    say) makes the scan give up: whatever the other children are, the
    content height and the maximum offset are 0 after [layout], and the
    offset is back at 0. *)
Theorem nan_child_stops_scrolling (s : DebugScrollContainer) (x : Item) :
  In x (content_list s) ->
  item_top x = NaN \/ item_bottom x = NaN ->
  _scrollY s <> NaN -> getViewportHeight s <> NaN ->
  getContentHeight (layout s) = zero /\
  getMaxScrollY (layout s) = zero /\
  getScrollY (layout s) = zero.
Proof.
  intros Hin Hx Hy Hv.
  apply empty_content_range; try assumption.
  now rewrite (content_metrics_nan _ x Hin Hx).
Qed.

(** *** Removing children *)

(** X5.  [removeAllItems] on a container without children changes nothing;
    otherwise it leaves no child, a content height and a maximum offset of
    0, and the offset at 0, and it emits no event, even when the offset
    moved. *)
Theorem removeAllItems_resets (s : DebugScrollContainer) :
  (content_list s = [] -> removeAllItems s = s) /\
  (content_list s <> [] ->
   content_list (removeAllItems s) = [] /\
   emitted (removeAllItems s) = emitted s /\
   (_scrollY s <> NaN -> getViewportHeight s <> NaN ->
    getContentHeight (removeAllItems s) = zero /\
    getMaxScrollY (removeAllItems s) = zero /\
    getScrollY (removeAllItems s) = zero)).
Proof.
  unfold removeAllItems. split.
  - now intros ->.
  - intros Hne. destruct (content_list s) as [| x rest]; [congruence |].
    split; [apply relayout_content_list |].
    split; [apply relayout_emitted |].
    intros Hy Hv. now apply empty_content_range.
Qed.

Lemma content_remove_incl (child : nat) (l : list Item) :
  incl (content_remove child l) l.
Proof.
  unfold content_remove. intros i Hi. apply in_app_or in Hi.
  destruct Hi as [Hi | Hi].
  - rewrite <- (firstn_skipn child l). apply in_or_app. now left.
  - rewrite <- (firstn_skipn (S child) l). apply in_or_app. now right.
Qed.

Lemma content_remove_length (child : nat) (l : list Item) :
  (child < List.length l)%nat ->
  S (List.length (content_remove child l)) = List.length l.
Proof.
  unfold content_remove. intros H.
  rewrite length_app, firstn_length_le, length_skipn by lia. lia.
Qed.

Lemma Clamp_shrinks (y m' : num) :
  zero <= y -> zero <= m' -> Clamp y zero m' <= y.
Proof. unfold zero, of_Z. num_cases. Qed.


(** *** [setScrollY] twice *)

(** X7.  Asking for the same offset a second time changes nothing and emits
    nothing: [setScrollY v] after [setScrollY v] is the state [setScrollY v]
    left, so a run of equal requests emits at most one event.  The request
    and the maximum are numbers. *)
Theorem setScrollY_twice (v : num) (s : DebugScrollContainer) :
  v <> NaN -> getMaxScrollY s <> NaN ->
  setScrollY v (setScrollY v s) = setScrollY v s /\
  (List.length (emitted (setScrollY v (setScrollY v s)))
   <= S (List.length (emitted s)))%nat.
Proof.
  intros Hv Hm.
  assert (Hc : Clamp v zero (getMaxScrollY s) <> NaN).
  { rewrite <- setScrollY_scrollY. now apply setScrollY_offset_number. }
  assert (E : setScrollY v (setScrollY v s) = setScrollY v s).
  { apply setScrollY_same.
    rewrite setScrollY_maxScrollY, setScrollY_scrollY.
    now apply eqb_refl. }
  split; [exact E |].
  rewrite E.
  destruct (Clamp v zero (getMaxScrollY s) === _scrollY s) eqn:Eq.
  - rewrite setScrollY_same by exact Eq. lia.
  - rewrite setScrollY_changed by exact Eq.
    cbn [emit emitted set_scrollbar applyScroll set_content_pos set_scrollY].
    rewrite length_app. cbn. lia.
Qed.

(** *** Setters *)

Lemma set_style_fields s (st : Style) :
  style (set_style s st) = st /\
  _scrollY (set_style s st) = _scrollY s /\
  content_list (set_style s st) = content_list s /\
  emitted (set_style s st) = emitted s.
Proof. repeat split. Qed.

Lemma setSize_fields s (w h : num) :
  style (setSize s w h) = style s /\
  _scrollY (setSize s w h) = _scrollY s /\
  content_list (setSize s w h) = content_list s /\
  emitted (setSize s w h) = emitted s.
Proof. repeat split. Qed.

(** What [layout] does to a state whose style was just assigned. *)
Lemma restyled_layout t :
  _scrollY t <> NaN -> getViewportHeight (layout t) <> NaN ->
  zero <= getScrollY (layout t) <= getMaxScrollY (layout t) /\
  (snd (content_metrics (content_list t)) <= getViewportHeight (layout t) ->
   getScrollY (layout t) = zero).
Proof.
  intros Hy Hv. rewrite layout_viewportHeight in Hv.
  split; [now apply layout_range |].
  rewrite layout_viewportHeight. intros Hfit.
  assert (Hm : getMaxScrollY (layout t) = zero).
  { apply no_scroll_when_content_fits.
    - apply layout_contentHeight_finite.
    - destruct (layout_metrics t) as [_ ->].
      now rewrite layout_viewportHeight. }
  destruct (layout_range t Hy Hv) as [Hlo Hhi].
  rewrite Hm in Hhi. unfold getScrollY. now apply le_antisym.
Qed.

Lemma relaid_restyled t :
  _scrollY t <> NaN -> getViewportHeight (layout t) <> NaN ->
  content_list (layout t) = content_list t /\
  emitted (layout t) = emitted t /\
  zero <= getScrollY (layout t) <= getMaxScrollY (layout t) /\
  (snd (content_metrics (content_list t)) <= getViewportHeight (layout t) ->
   getScrollY (layout t) = zero).
Proof.
  intros Hy Hv.
  split; [apply layout_content_list |].
  split; [apply layout_emitted |].
  now apply restyled_layout.
Qed.

Lemma setViewportSize_unfold (w h : num) s :
  exists t,
    setViewportSize w h s = layout t /\
    _width t = max one w /\ _height t = max one h /\
    _scrollY t = _scrollY s /\
    content_list t = content_list s /\
    emitted t = emitted s.
Proof.
  unfold setViewportSize.
  match goal with
  | |- context [layout ?t] => exists t
  end.
  repeat split.
Qed.


Lemma setPadding_unfold (options : PaddingOptions) s :
  exists t,
    setPadding options s = layout t /\
    _scrollY t = _scrollY s /\
    content_list t = content_list s /\
    emitted t = emitted s.
Proof.
  unfold setPadding.
  match goal with
  | |- context [layout ?t] => exists t
  end.
  repeat split.
Qed.

Lemma setStyle_unfold (options : DebugScrollContainerStyleOptions) s :
  exists t,
    setStyle options s = layout t /\
    _scrollY t = _scrollY s /\
    content_list t = content_list s /\
    emitted t = emitted s /\
    _width t = at_least_one (so_width options) (_width s) /\
    _height t = at_least_one (so_height options) (_height s) /\
    _bgColor t = if_truthy (so_bgColor options) (_bgColor s).
Proof.
  unfold setStyle.
  match goal with
  | |- context [layout ?t] => exists t
  end.
  repeat split.
Qed.


(** *** The scrollbar switch *)

Lemma style_eta (st : Style) :
  mkStyle (st_width st) (st_height st) (st_paddingLeft st)
    (st_paddingRight st) (st_paddingTop st) (st_paddingBottom st)
    (st_bgColor st) (st_strokeColor st) (st_strokeThickness st)
    (st_cornerRadius st) (st_scrollbarEnabled st) (st_scrollbarWidth st)
    (st_scrollbarColor st) (st_scrollbarTrackColor st)
    (st_scrollbarMinThumbHeight st) (st_wheelEnabled st) (st_wheelStep st)
  = st.
Proof. now destruct st. Qed.

Lemma redrawScrollbar_disabled s :
  _scrollbarEnabled s = false -> redrawScrollbar s = set_scrollbar s [].
Proof. unfold redrawScrollbar. now intros ->. Qed.

(** X10.  Switching the scrollbar off clears its graphics and touches nothing
    else; switching it back on, on a container whose scrollbar was drawn for
    its current state, gives back the state before the two calls.  A call
    with the value already set changes nothing. *)
Theorem setScrollbarEnabled_round_trip (s : DebugScrollContainer) :
  _scrollbarEnabled s = true ->
  _scrollbar s = _scrollbar (redrawScrollbar s) ->
  setScrollbarEnabled true s = s /\
  _scrollbar (setScrollbarEnabled false s) = [] /\
  getScrollY (setScrollbarEnabled false s) = getScrollY s /\
  content_pos (setScrollbarEnabled false s) = content_pos s /\
  emitted (setScrollbarEnabled false s) = emitted s /\
  setScrollbarEnabled true (setScrollbarEnabled false s) = s.
Proof.
  intros Hon Hdrawn.
  assert (Hoff : setScrollbarEnabled false s =
    set_scrollbar
      (set_style s
         (mkStyle (_width s) (_height s) (_paddingLeft s) (_paddingRight s)
            (_paddingTop s) (_paddingBottom s) (_bgColor s) (_strokeColor s)
            (_strokeThickness s) (_cornerRadius s) false (_scrollbarWidth s)
            (_scrollbarColor s) (_scrollbarTrackColor s)
            (_scrollbarMinThumbHeight s) (st_wheelEnabled (style s))
            (st_wheelStep (style s)))) []).
  { unfold setScrollbarEnabled. rewrite Hon. cbn [Bool.eqb].
    now rewrite redrawScrollbar_disabled. }
  split.
  { unfold setScrollbarEnabled. now rewrite Hon. }
  rewrite Hoff.
  do 4 (split; [reflexivity |]).
  unfold setScrollbarEnabled at 1.
  cbn [_scrollbarEnabled style set_scrollbar set_style st_scrollbarEnabled
       Bool.eqb].
  cbv zeta.
  cbn [style set_scrollbar set_style st_width st_height st_paddingLeft
       st_paddingRight st_paddingTop st_paddingBottom st_bgColor
       st_strokeColor st_strokeThickness st_cornerRadius st_scrollbarWidth
       st_scrollbarColor st_scrollbarTrackColor st_scrollbarMinThumbHeight
       st_wheelEnabled st_wheelStep _contentMinY _contentHeight _scrollY
       position size _panel content_list content_pos _maskGraphics
       _scrollbar _wheelZone emitted].
  unfold _width, _height, _paddingLeft, _paddingRight, _paddingTop,
    _paddingBottom, _bgColor, _strokeColor, _strokeThickness, _cornerRadius,
    _scrollbarWidth, _scrollbarColor, _scrollbarTrackColor,
    _scrollbarMinThumbHeight.
  unfold _scrollbarEnabled in Hon. rewrite <- Hon at 1.
  rewrite style_eta.
  rewrite redrawScrollbar_frame.
  apply container_ext; try reflexivity.
  cbn [set_scrollbar _scrollbar]. rewrite Hdrawn.
  now apply redrawScrollbar_ext.
Qed.

(** *** The mouse wheel *)

(** The step one wheel tick asks for. *)
Lemma handleWheel_unfold (over : list OverObject) (deltaY : num)
  (event : option WheelEvent) s :
  _wheelEnabled s = true -> (deltaY === zero) = false ->
  isWheelOverThisContainer over = true ->
  handleWheel over deltaY event s =
  let s' := scrollBy ((if zero <? deltaY then one else - one) * _wheelStep s) s in
  if _scrollY s === _scrollY s' then (s', untouched)
  else
    match event with
    | None => (s', untouched)
    | Some e => (s', mkConsumed (has_preventDefault e) (has_stopPropagation e))
    end.
Proof. unfold handleWheel. now intros -> -> ->. Qed.

Lemma handleWheel_guarded (over : list OverObject) (deltaY : num)
  (event : option WheelEvent) s :
  _wheelEnabled s = false \/ (deltaY === zero) = true \/
  isWheelOverThisContainer over = false ->
  handleWheel over deltaY event s = (s, untouched).
Proof.
  unfold handleWheel. intros [-> | [-> | ->]]; cbn [negb].
  - reflexivity.
  - now destruct (_wheelEnabled s).
  - now destruct (_wheelEnabled s), (deltaY === zero).
Qed.

Lemma scrollBy_cases (d : num) s :
  scrollBy d s = s \/ scrollBy d s = setScrollY (_scrollY s + d) s.
Proof. unfold scrollBy. destruct (d === zero); [now left | now right]. Qed.

Lemma scrollBy_unmoved (d : num) s :
  _scrollY s <> NaN -> _scrollY (scrollBy d s) = _scrollY s ->
  scrollBy d s = s.
Proof.
  intros Hy E. unfold scrollBy in *.
  destruct (d === zero); [reflexivity |].
  apply setScrollY_same. rewrite setScrollY_scrollY in E. rewrite E.
  now apply eqb_refl.
Qed.

(** X11.  The wheel handler leaves the container and the DOM event alone when
    wheel scrolling is off, when [deltaY] is 0, and when the pointer is over
    nothing the container owns.  Otherwise it scrolls by one wheel step,
    down for a positive [deltaY] and up for any other: the container is
    what [scrollBy(direction * wheelStep)] leaves, with the offset at the
    clamp of [offset + direction * wheelStep] when that step is not 0.  If
    the offset did not move, the container and the event are left alone;
    if it moved, the handler calls whichever of [preventDefault] and
    [stopPropagation] the event has.  The offset before the event is not
    [NaN]. *)
Theorem handleWheel_consumes_when_moved (over : list OverObject)
  (deltaY : num) (event : option WheelEvent) (s : DebugScrollContainer) :
  _scrollY s <> NaN ->
  (_wheelEnabled s = false \/ (deltaY === zero) = true \/
   isWheelOverThisContainer over = false ->
   handleWheel over deltaY event s = (s, untouched)) /\
  (_wheelEnabled s = true -> (deltaY === zero) = false ->
   isWheelOverThisContainer over = true ->
   fst (handleWheel over deltaY event s)
   = scrollBy ((if zero <? deltaY then one else - one) * _wheelStep s) s /\
   (((if zero <? deltaY then one else - one) * _wheelStep s === zero) = false ->
    getScrollY (fst (handleWheel over deltaY event s))
    = Clamp (_scrollY s
             + (if zero <? deltaY then one else - one) * _wheelStep s)
        zero (getMaxScrollY s)) /\
   (getScrollY (fst (handleWheel over deltaY event s)) = getScrollY s ->
    handleWheel over deltaY event s = (s, untouched)) /\
   (getScrollY (fst (handleWheel over deltaY event s)) <> getScrollY s ->
    snd (handleWheel over deltaY event s) =
      match event with
      | None => untouched
      | Some e => mkConsumed (has_preventDefault e) (has_stopPropagation e)
      end)).
Proof.
  intros Hy. split; [apply handleWheel_guarded |].
  intros E1 E2 E3.
  rewrite (handleWheel_unfold over deltaY event s E1 E2 E3). cbv zeta.
  set (d := (if zero <? deltaY then one else - one) * _wheelStep s).
  unfold getScrollY.
  assert (Hclamp : (d === zero) = false ->
            _scrollY (scrollBy d s)
            = Clamp (_scrollY s + d) zero (getMaxScrollY s)).
  { intros Ed. unfold scrollBy. rewrite Ed. apply setScrollY_scrollY. }
  destruct (_scrollY s === _scrollY (scrollBy d s)) eqn:E4.
  - cbn [fst snd]. split; [reflexivity |]. split; [exact Hclamp |].
    split; [intros E; now rewrite (scrollBy_unmoved d s Hy E) |].
    intros Hmoved. exfalso. apply Hmoved. symmetry. now apply eqb_eq.
  - assert (Hmoved : _scrollY (scrollBy d s) <> _scrollY s).
    { intros E. symmetry in E. revert E. now apply eqb_neq. }
    destruct event as [e |]; cbn [fst snd];
      (split; [reflexivity |]); (split; [exact Hclamp |]);
      (split; [intros E; exfalso; now apply Hmoved | reflexivity]).
Qed.

Lemma scrollBy_stuck (d : num) s :
  _scrollY s <> NaN ->
  Clamp (_scrollY s + d) zero (getMaxScrollY s) = _scrollY s ->
  scrollBy d s = s.
Proof.
  intros Hy Hc. unfold scrollBy. destruct (d === zero); [reflexivity |].
  apply setScrollY_same. rewrite Hc. now apply eqb_refl.
Qed.

Lemma tick_up_at_top (step m : num) :
  zero <= step -> zero <= m -> Clamp (zero + (- one) * step) zero m = zero.
Proof. rewrite mul_neg_one_l. unfold zero, of_Z. num_cases. Qed.

Lemma tick_down_at_bottom (step m : num) :
  zero <= step -> zero <= m -> Clamp (m + one * step) zero m = m.
Proof. rewrite mul_one_l. unfold zero, of_Z. num_cases. Qed.

(** X12.  At the ends of the range the wheel passes through: with the offset
    at 0 a tick upwards, and with the offset at the maximum a tick downwards,
    leave the container as it is and the event untouched, so the page behind
    can scroll.  The maximum and the wheel step are numbers, not negative. *)
Theorem wheel_passes_through_at_ends (over : list OverObject)
  (deltaY : num) (event : option WheelEvent) (s : DebugScrollContainer) :
  zero <= getMaxScrollY s -> zero <= _wheelStep s ->
  (_scrollY s = zero -> deltaY < zero ->
   handleWheel over deltaY event s = (s, untouched)) /\
  (_scrollY s = getMaxScrollY s -> zero < deltaY ->
   handleWheel over deltaY event s = (s, untouched)).
Proof.
  intros Hm Hstep.
  assert (Hmn : getMaxScrollY s <> NaN) by apply (le_not_nan _ _ Hm).
  assert (Hgen : forall d,
            _scrollY s <> NaN ->
            Clamp (_scrollY s + d * _wheelStep s) zero (getMaxScrollY s)
              = _scrollY s ->
            (if zero <? deltaY then one else - one) = d ->
            handleWheel over deltaY event s = (s, untouched)).
  { intros d Hy Hc Hd.
    destruct (_wheelEnabled s) eqn:E1;
      [| apply handleWheel_guarded; now left].
    destruct (deltaY === zero) eqn:E2;
      [apply handleWheel_guarded; right; now left |].
    destruct (isWheelOverThisContainer over) eqn:E3;
      [| apply handleWheel_guarded; right; now right].
    rewrite (handleWheel_unfold over deltaY event s E1 E2 E3). cbv zeta.
    rewrite Hd, (scrollBy_stuck _ s Hy Hc).
    now rewrite eqb_refl. }
  split; intros Hat Hdir.
  - apply (Hgen (- one)).
    + rewrite Hat. discriminate.
    + rewrite Hat. now apply tick_up_at_top.
    + assert (E : (zero <? deltaY) = false).
      { revert Hdir. unfold zero, of_Z. clear. num_cases. }
      now rewrite E.
  - apply (Hgen one).
    + now rewrite Hat.
    + rewrite Hat. now apply tick_down_at_bottom.
    + now rewrite Hdir.
Qed.

(** X13.  With wheel scrolling switched off the handler ignores every wheel
    event, and [setWheelStep] stores a step of at least 1; neither setter
    touches the offset, the children or the events. *)
Theorem wheel_setters (s : DebugScrollContainer) :
  (forall over deltaY event,
     handleWheel over deltaY event (setWheelEnabled false s)
     = (setWheelEnabled false s, untouched)) /\
  (forall step, step <> NaN -> one <= _wheelStep (setWheelStep step s)) /\
  (forall b step,
     (getScrollY (setWheelEnabled b s), getScrollY (setWheelStep step s))
       = (getScrollY s, getScrollY s) /\
     (content_list (setWheelEnabled b s), content_list (setWheelStep step s))
       = (content_list s, content_list s) /\
     (emitted (setWheelEnabled b s), emitted (setWheelStep step s))
       = (emitted s, emitted s)).
Proof.
  split; [| split].
  - intros over deltaY event. apply handleWheel_guarded. now left.
  - intros step Hs. unfold setWheelStep, _wheelStep.
    cbn [set_style style st_wheelStep].
    apply le_max_l; [discriminate | assumption].
  - intros b step. repeat split.
Qed.

(** *** The theorems above at work on the stacked list *)



Lemma nan_child_stops_scrolling_witness :
  In lost_child (content_list (addItem lost_child scenario_default)) /\
  item_top lost_child = NaN /\
  _scrollY (addItem lost_child scenario_default) <> NaN /\
  getViewportHeight (addItem lost_child scenario_default) <> NaN /\
  getContentHeight scenario_default = of_Z 490 /\
  getContentHeight (layout (addItem lost_child scenario_default)) = zero /\
  getMaxScrollY (layout (addItem lost_child scenario_default)) = zero.
Proof.
  assert (H0 : In lost_child
                 (content_list (addItem lost_child scenario_default))).
  { unfold addItem. rewrite layout_content_list.
    cbn [set_content_list content_list]. unfold container_add.
    replace (is_child (content_list scenario_default) lost_child)
      with false by (vm_compute; reflexivity).
    apply in_or_app. right. now left. }
  assert (H1 : item_top lost_child = NaN) by reflexivity.
  assert (H2 : _scrollY (addItem lost_child scenario_default) <> NaN)
    by (vm_compute; discriminate).
  assert (H3 : getViewportHeight (addItem lost_child scenario_default) <> NaN)
    by (vm_compute; discriminate).
  destruct (nan_child_stops_scrolling (addItem lost_child scenario_default)
              lost_child H0 (or_introl H1) H2 H3) as (Hc & Hm & _).
  split; [exact H0 |]. split; [exact H1 |]. split; [exact H2 |].
  split; [exact H3 |]. split; [vm_compute; reflexivity |].
  split; [exact Hc | exact Hm].
Defined.

Lemma removeAllItems_resets_witness :
  content_list (scrollToBottom scenario_default) <> [] /\
  getScrollY (scrollToBottom scenario_default) = of_Z 290 /\
  getScrollY (removeAllItems (scrollToBottom scenario_default)) = zero /\
  emitted (removeAllItems (scrollToBottom scenario_default))
    = emitted (scrollToBottom scenario_default).
Proof.
  assert (H0 : content_list (scrollToBottom scenario_default) <> [])
    by (vm_compute; discriminate).
  assert (H1 : _scrollY (scrollToBottom scenario_default) <> NaN)
    by (vm_compute; discriminate).
  assert (H2 : getViewportHeight (scrollToBottom scenario_default) <> NaN)
    by (vm_compute; discriminate).
  destruct (proj2 (removeAllItems_resets (scrollToBottom scenario_default)) H0)
    as (_ & He & Hr).
  destruct (Hr H1 H2) as (_ & _ & Hz).
  split; [exact H0 |]. split; [vm_compute; reflexivity |].
  split; [exact Hz | exact He].
Defined.


Lemma setScrollY_twice_witness :
  of_Z 100 <> NaN /\
  getMaxScrollY scenario_default <> NaN /\
  setScrollY (of_Z 100) (setScrollY (of_Z 100) scenario_default)
    = setScrollY (of_Z 100) scenario_default /\
  List.length (emitted (setScrollY (of_Z 100) scenario_default))
    = S (List.length (emitted scenario_default)).
Proof.
  assert (H0 : of_Z 100 <> NaN) by discriminate.
  assert (H1 : getMaxScrollY scenario_default <> NaN)
    by (vm_compute; discriminate).
  split; [exact H0 |]. split; [exact H1 |].
  split; [exact (proj1 (setScrollY_twice (of_Z 100) scenario_default H0 H1)) |].
  vm_compute. reflexivity.
Defined.



Lemma setScrollbarEnabled_round_trip_witness :
  _scrollbarEnabled (scrollToBottom scenario_default) = true /\
  _scrollbar (scrollToBottom scenario_default)
    = _scrollbar (redrawScrollbar (scrollToBottom scenario_default)) /\
  _scrollbar (scrollToBottom scenario_default) <> [] /\
  _scrollbar (setScrollbarEnabled false (scrollToBottom scenario_default))
    = [] /\
  setScrollbarEnabled true
    (setScrollbarEnabled false (scrollToBottom scenario_default))
    = scrollToBottom scenario_default.
Proof.
  assert (H0 : _scrollbarEnabled (scrollToBottom scenario_default) = true)
    by reflexivity.
  assert (H1 : _scrollbar (scrollToBottom scenario_default)
               = _scrollbar (redrawScrollbar (scrollToBottom scenario_default)))
    by (vm_compute; reflexivity).
  destruct (setScrollbarEnabled_round_trip (scrollToBottom scenario_default)
              H0 H1) as (_ & Hoff & _ & _ & _ & Hback).
  split; [exact H0 |]. split; [exact H1 |].
  split; [vm_compute; discriminate |].
  split; [exact Hoff | exact Hback].
Defined.

Lemma handleWheel_consumes_when_moved_witness :
  _scrollY scenario_default <> NaN /\
  handleWheel over_elsewhere (of_Z 100) (Some dom_wheel) scenario_default
    = (scenario_default, untouched) /\
  snd (handleWheel over_child (of_Z 100) (Some dom_wheel) scenario_default)
    = mkConsumed true true /\
  getScrollY
    (fst (handleWheel over_child (of_Z 100) (Some dom_wheel) scenario_default))
    = of_Z 24.
Proof.
  assert (H0 : _scrollY scenario_default <> NaN)
    by (vm_compute; discriminate).
  destruct (handleWheel_consumes_when_moved over_elsewhere (of_Z 100)
              (Some dom_wheel) scenario_default H0) as (Hidle & _).
  destruct (handleWheel_consumes_when_moved over_child (of_Z 100)
              (Some dom_wheel) scenario_default H0) as (_ & Hwheel).
  destruct (Hwheel eq_refl eq_refl eq_refl) as (_ & _ & _ & Hmoved).
  assert (H1 : getScrollY
                 (fst (handleWheel over_child (of_Z 100) (Some dom_wheel)
                         scenario_default)) = of_Z 24)
    by (vm_compute; reflexivity).
  split; [exact H0 |].
  split; [apply Hidle; right; right; reflexivity |].
  split; [| exact H1].
  apply Hmoved. rewrite H1. vm_compute. discriminate.
Defined.

Lemma wheel_passes_through_at_ends_witness :
  zero <= getMaxScrollY scenario_default /\
  zero <= _wheelStep scenario_default /\
  _scrollY scenario_default = zero /\
  of_Z (-100) < zero /\
  handleWheel over_child (of_Z (-100)) (Some dom_wheel) scenario_default
    = (scenario_default, untouched).
Proof.
  assert (H0 : zero <= getMaxScrollY scenario_default)
    by (vm_compute; reflexivity).
  assert (H1 : zero <= _wheelStep scenario_default)
    by (vm_compute; reflexivity).
  assert (H2 : _scrollY scenario_default = zero)
    by (vm_compute; reflexivity).
  assert (H3 : of_Z (-100) < zero) by (vm_compute; reflexivity).
  split; [exact H0 |]. split; [exact H1 |]. split; [exact H2 |].
  split; [exact H3 |].
  exact (proj1 (wheel_passes_through_at_ends over_child (of_Z (-100))
                  (Some dom_wheel) scenario_default H0 H1) H2 H3).
Defined.

(** *** The thumb of the scrollbar *)

Lemma drawn_thumb_inv s (y h : num) :
  drawn_thumb (redrawScrollbar s) = Some (y, h) ->
  (getMaxScrollY s <=? zero) = false /\
  h = Clamp (getViewportHeight s / _contentHeight s * getViewportHeight s)
        (_scrollbarMinThumbHeight s) (getViewportHeight s) /\
  y = getViewportTop s
      + _scrollY s / getMaxScrollY s * max zero (getViewportHeight s - h).
Proof.
  unfold redrawScrollbar.
  destruct (negb _); [discriminate |].
  destruct (getMaxScrollY s <=? zero); [discriminate |].
  destruct (getViewportWidth s <=? _); [discriminate |].
  unfold drawn_thumb. cbn [_scrollbar set_scrollbar].
  intros [= <- <-]. now repeat split.
Qed.

Lemma drawn_thumb_ext a b :
  _scrollbar a = _scrollbar b -> drawn_thumb a = drawn_thumb b.
Proof. unfold drawn_thumb. now intros ->. Qed.

Lemma setScrollY_thumb t (v : num) :
  (Clamp v zero (getMaxScrollY t) === _scrollY t) = false ->
  exists u,
    drawn_thumb (setScrollY v t) = drawn_thumb (redrawScrollbar u) /\
    style u = style t /\ _contentHeight u = _contentHeight t /\
    _scrollY u = Clamp v zero (getMaxScrollY t).
Proof.
  intros E. rewrite (setScrollY_changed v t E). cbv zeta.
  exists (applyScroll (set_scrollY t (Clamp v zero (getMaxScrollY t)))).
  repeat split.
Qed.

Lemma getContentHeight_unfold t : getContentHeight t = _contentHeight t.
Proof. reflexivity. Qed.

Lemma scrollToTop_unfold t : scrollToTop t = setScrollY zero t.
Proof. reflexivity. Qed.

Lemma scrollToBottom_unfold t :
  scrollToBottom t = setScrollY (getMaxScrollY t) t.
Proof. reflexivity. Qed.

(** The thumb drawn for a state with the style of [s], in the terms of
    [s]. *)
Lemma thumb_drawn_for s u (y h : num) :
  style u = style s ->
  drawn_thumb (redrawScrollbar u) = Some (y, h) ->
  (getMaxScrollY u <=? zero) = false /\
  h = Clamp (getViewportHeight s / _contentHeight u * getViewportHeight s)
        (_scrollbarMinThumbHeight s) (getViewportHeight s) /\
  y = getViewportTop s
      + _scrollY u / getMaxScrollY u * max zero (getViewportHeight s - h).
Proof.
  intros Es Hd.
  destruct (drawn_thumb_inv u y h Hd) as (Hm & Eh & Ey).
  destruct (getViewport_style u s Es) as [_ Et].
  rewrite (getViewportHeight_style u s Es) in Eh, Ey.
  rewrite Et in Ey.
  replace (_scrollbarMinThumbHeight u) with (_scrollbarMinThumbHeight s)
    in Eh by (unfold _scrollbarMinThumbHeight; now rewrite Es).
  now repeat split.
Qed.

(** The thumb after [setScrollY] on a laid-out container. *)
Lemma scrolled_thumb s (v y h : num) :
  drawn_thumb (setScrollY v (layout s)) = Some (y, h) ->
  (getMaxScrollY (layout s) <=? zero) = false /\
  h = Clamp (getViewportHeight s / _contentHeight (layout s)
             * getViewportHeight s)
        (_scrollbarMinThumbHeight s) (getViewportHeight s) /\
  y = getViewportTop s
      + Clamp v zero (getMaxScrollY (layout s)) / getMaxScrollY (layout s)
        * max zero (getViewportHeight s - h).
Proof.
  intros Hd.
  destruct (Clamp v zero (getMaxScrollY (layout s)) === _scrollY (layout s))
    eqn:E.
  - rewrite (setScrollY_same v _ E) in Hd.
    rewrite (drawn_thumb_ext _ _ (layout_scrollbar s)) in Hd.
    rewrite (eqb_eq _ _ E).
    exact (thumb_drawn_for s (layout s) y h (layout_style s) Hd).
  - destruct (setScrollY_thumb (layout s) v E) as (u & Ed & Es & Ec & Eu).
    rewrite Ed in Hd.
    rewrite <- Eu, <- Ec, <- (getMaxScrollY_ext u (layout s) Es Ec).
    apply thumb_drawn_for; [| exact Hd].
    now rewrite Es, layout_style.
Qed.

Lemma thumb_arith (vt vh ch c lo m y h : num) :
  isFinite vt = true -> isFinite vh = true -> isFinite ch = true ->
  isFinite lo = true -> one <= vh ->
  m = max zero (ch - vh) -> (m <=? zero) = false ->
  zero <= c -> c <= m ->
  h = Clamp (vh / ch * vh) lo vh ->
  y = vt + c / m * max zero (vh - h) ->
  vt <= y /\
  (lo <= vh -> lo <= h /\ h <= vh) /\
  (c = zero -> y = vt) /\
  (c = m -> y = vt + max zero (vh - h)).
Proof.
  intros Fvt Fvh Fch Flo H1 -> Hm H0 Hs -> ->.
  destruct vt as [vt | | |]; try discriminate.
  destruct vh as [vh | | |]; try discriminate.
  destruct ch as [ch | | |]; try discriminate.
  destruct lo as [lo | | |]; try discriminate.
  change (Fin ch - Fin vh) with (Fin (ch - vh)) in *.
  destruct (max_zero_fin_pos _ Hm) as [Em Hpos]. rewrite Em in *.
  destruct c as [q | | |];
    try (exfalso; unfold le, leb, zero, of_Z in *; discriminate).
  unfold zero at 1, of_Z in H0. unfold one, of_Z in H1.
  apply le_Fin in H0, Hs, H1.
  assert (Hch : (Q2Qc 0 < ch)%Qc) by qc_arith.
  rewrite (div_fin_pos vh ch Hch), (div_fin_pos q (ch - vh) Hpos).
  change (Fin (vh / ch) * Fin vh) with (Fin (vh / ch * vh)).
  split; [| split].
  - destruct (Clamp_fin (vh / ch * vh) lo vh) as (hq & ->).
    change (Fin vh - Fin hq) with (Fin (vh - hq)).
    destruct (max_zero_fin_any (vh - hq)) as (t & -> & Ht).
    pose proof (fraction_nonneg q (ch - vh) t H0 Hpos Ht) as P.
    change (Fin (q / (ch - vh)) * Fin t) with (Fin (q / (ch - vh) * t)).
    remember (q / (ch - vh) * t)%Qc as p eqn:Ep. clear Ep.
    change (Fin vt + Fin p) with (Fin (vt + p)).
    apply le_Fin. clear Em Hm. qc_arith.
  - intros Hlo. apply Clamp_bounds; [discriminate | exact Hlo].
  - destruct (Clamp_fin (vh / ch * vh) lo vh) as (hq & ->).
    change (Fin vh - Fin hq) with (Fin (vh - hq)).
    destruct (max_zero_fin_any (vh - hq)) as (t & -> & Ht).
    change (Fin (q / (ch - vh)) * Fin t) with (Fin (q / (ch - vh) * t)).
    split.
    + intros E. unfold zero, of_Z in E.
      change (Q2Qc (inject_Z 0)) with (Q2Qc 0) in E.
      assert (Eq : q = Q2Qc 0) by congruence.
      rewrite Eq, fraction_none.
      change (Fin vt + Fin (Q2Qc 0)) with (Fin (vt + Q2Qc 0)).
      f_equal. ring.
    + intros E. assert (Eq : q = (ch - vh)%Qc) by congruence.
      rewrite Eq, (fraction_whole _ t Hpos). reflexivity.
Qed.

(** X29.  The thumb of the scrollbar never starts above its track.  Whenever
    a thumb is drawn, after [layout()] and after [setScrollY(v)] on a
    laid-out container with [v] a number, its top edge is not above the top
    of the viewport, and its height lies between the minimum thumb height
    and the viewport height when the minimum is at most the viewport
    height.  After [scrollToTop()] the thumb is at the top of the viewport;
    after [scrollToBottom()] it is lower by the whole travel,
    [max(0, viewportHeight - thumbHeight)].  The offset before [layout()]
    is not [NaN]; the viewport top, the viewport height, the minimum thumb
    height and the content height measured by [layout()] are finite. *)
Theorem thumb_on_track s (v : num) :
  _scrollY s <> NaN -> v <> NaN ->
  isFinite (getViewportTop s) = true ->
  isFinite (getViewportHeight s) = true ->
  isFinite (_scrollbarMinThumbHeight s) = true ->
  isFinite (getContentHeight (layout s)) = true ->
  (forall t, t = layout s \/ t = setScrollY v (layout s) ->
   forall y h : num, drawn_thumb t = Some (y, h) ->
   getViewportTop s <= y /\
   (_scrollbarMinThumbHeight s <= getViewportHeight s ->
    _scrollbarMinThumbHeight s <= h /\ h <= getViewportHeight s)) /\
  (forall y h : num,
     drawn_thumb (scrollToTop (layout s)) = Some (y, h) ->
     y = getViewportTop s) /\
  (forall y h : num,
     drawn_thumb (scrollToBottom (layout s)) = Some (y, h) ->
     y = getViewportTop s + max zero (getViewportHeight s - h)).
Proof.
  intros Hy Hv Ft Fv Flo Fc.
  rewrite (getContentHeight_unfold (layout s)) in Fc.
  assert (Hvh : getViewportHeight s <> NaN).
  { intros E. rewrite E in Fv. discriminate. }
  pose proof (viewportHeight_ge_one s Hvh) as H1.
  destruct (layout_range s Hy Hvh) as [R0 R1].
  assert (Hmax : getMaxScrollY (layout s)
                 = max zero (_contentHeight (layout s) - getViewportHeight s)).
  { unfold getMaxScrollY. now rewrite layout_viewportHeight. }
  assert (Hpos : zero <= getMaxScrollY (layout s))
    by now apply le_trans with (_scrollY (layout s)).
  destruct (le_not_nan _ _ R1) as [Hyn Hn].
  assert (Hany : forall w y h : num,
             w <> NaN ->
             drawn_thumb (setScrollY w (layout s)) = Some (y, h) ->
             getViewportTop s <= y /\
             (_scrollbarMinThumbHeight s <= getViewportHeight s ->
              _scrollbarMinThumbHeight s <= h /\ h <= getViewportHeight s)
             /\
             (Clamp w zero (getMaxScrollY (layout s)) = zero ->
              y = getViewportTop s) /\
             (Clamp w zero (getMaxScrollY (layout s))
              = getMaxScrollY (layout s) ->
              y = getViewportTop s + max zero (getViewportHeight s - h))).
  { intros w y h Hw Hd.
    destruct (scrolled_thumb s w y h Hd) as (Hm & Eh & Ey).
    destruct (Clamp_bounds w zero (getMaxScrollY (layout s)) Hw Hpos)
      as [B0 B1].
    exact (thumb_arith (getViewportTop s) (getViewportHeight s)
             (_contentHeight (layout s))
             (Clamp w zero (getMaxScrollY (layout s)))
             (_scrollbarMinThumbHeight s) (getMaxScrollY (layout s)) y h
             Ft Fv Fc Flo H1 Hmax Hm B0 B1 Eh Ey). }
  split; [| split].
  - intros t [-> | ->] y h Hd.
    + assert (Hd' : drawn_thumb (setScrollY (_scrollY (layout s)) (layout s))
                    = Some (y, h)).
      { rewrite setScrollY_same; [exact Hd |].
        rewrite (Clamp_inside _ _ _ R0 R1).
        now apply eqb_refl. }
      destruct (Hany (_scrollY (layout s)) y h Hyn Hd')
        as (A & B & _).
      now split.
    + destruct (Hany v y h Hv Hd) as (A & B & _). now split.
  - intros y h Hd. rewrite (scrollToTop_unfold (layout s)) in Hd.
    assert (Hz : zero <> NaN) by discriminate.
    destruct (Hany zero y h Hz Hd) as (_ & _ & A & _).
    apply A. apply Clamp_inside; [reflexivity | exact Hpos].
  - intros y h Hd. rewrite (scrollToBottom_unfold (layout s)) in Hd.
    destruct (Hany (getMaxScrollY (layout s)) y h Hn Hd) as (_ & _ & _ & A).
    apply A. apply Clamp_inside; [exact Hpos | now apply le_refl].
Qed.

Lemma thumb_on_track_witness :
  _scrollY scenario_default <> NaN /\ of_Z 100 <> NaN /\
  isFinite (getViewportTop scenario_default) = true /\
  isFinite (getViewportHeight scenario_default) = true /\
  isFinite (_scrollbarMinThumbHeight scenario_default) = true /\
  isFinite (getContentHeight (layout scenario_default)) = true /\
  _scrollbarMinThumbHeight scenario_default
    <= getViewportHeight scenario_default /\
  exists y h : num,
    drawn_thumb (setScrollY (of_Z 100) (layout scenario_default))
      = Some (y, h) /\
    getViewportTop scenario_default <= y /\
    _scrollbarMinThumbHeight scenario_default <= h /\
    h <= getViewportHeight scenario_default.
Proof.
  assert (H1 : _scrollY scenario_default <> NaN) by (vm_compute; discriminate).
  assert (H2 : of_Z 100 <> NaN) by discriminate.
  assert (H3 : isFinite (getViewportTop scenario_default) = true)
    by (vm_compute; reflexivity).
  assert (H4 : isFinite (getViewportHeight scenario_default) = true)
    by (vm_compute; reflexivity).
  assert (H5 : isFinite (_scrollbarMinThumbHeight scenario_default) = true)
    by (vm_compute; reflexivity).
  assert (H6 : _scrollbarMinThumbHeight scenario_default
               <= getViewportHeight scenario_default)
    by (vm_compute; reflexivity).
  assert (H7 : isFinite (getContentHeight (layout scenario_default)) = true)
    by (vm_compute; reflexivity).
  split; [exact H1 |]. split; [exact H2 |]. split; [exact H3 |].
  split; [exact H4 |]. split; [exact H5 |]. split; [exact H7 |].
  split; [exact H6 |].
  destruct (drawn_thumb (setScrollY (of_Z 100) (layout scenario_default)))
    as [[y h] |] eqn:Hd; [| vm_compute in Hd; discriminate Hd].
  exists y, h. split; [reflexivity |].
  destruct (thumb_on_track scenario_default (of_Z 100) H1 H2 H3 H4 H5 H7)
    as (Hall & _ & _).
  destruct (Hall (setScrollY (of_Z 100) (layout scenario_default))
              (or_intror eq_refl) y h Hd) as (A & B).
  split; [exact A | exact (B H6)].
Defined.

(** *** Scrolling a laid-out container *)

(** A state that differs from a laid-out one only by its offset, with the
    offset in range and the content and the scrollbar drawn for it, is laid
    out too. *)
Lemma laid_out_by_fields t u :
  layout t = t ->
  style u = style t ->
  _contentMinY u = _contentMinY t ->
  _contentHeight u = _contentHeight t ->
  Clamp (_scrollY u) zero (getMaxScrollY t) = _scrollY u ->
  position u = position t ->
  size u = size t ->
  _panel u = _panel t ->
  content_list u = content_list t ->
  content_pos u =
    (getViewportLeft t, getViewportTop t - _contentMinY t - _scrollY u) ->
  _maskGraphics u = _maskGraphics t ->
  _wheelZone u = _wheelZone t ->
  _scrollbar u = _scrollbar (redrawScrollbar u) ->
  layout u = u.
Proof.
  intros Ht Est Emin Ech Ey Epos Esize Epanel Elist Ecpos Emask Ezone Ebar.
  destruct (layout_metrics t) as [T1 T2]. rewrite Ht in T1, T2.
  pose proof (layout_size t) as T3. rewrite Ht in T3.
  pose proof (layout_panel t) as T4. rewrite Ht in T4.
  destruct (layout_mask_zone t) as [T5 T6]. rewrite Ht in T5, T6.
  assert (Hc1 : _contentMinY (layout u) = _contentMinY u).
  { destruct (layout_metrics u) as [-> _]. now rewrite Elist, Emin. }
  assert (Hc2 : _contentHeight (layout u) = _contentHeight u).
  { destruct (layout_metrics u) as [_ ->]. now rewrite Elist, Ech. }
  assert (Hy : _scrollY (layout u) = _scrollY u).
  { rewrite layout_scrollY, layout_maxScrollY, Elist, <- T2.
    rewrite (getViewportHeight_style u t Est). exact Ey. }
  apply container_ext.
  - apply layout_style.
  - exact Hc1.
  - exact Hc2.
  - exact Hy.
  - apply layout_position.
  - rewrite layout_size, Esize, T3. unfold _width, _height. now rewrite Est.
  - rewrite layout_panel, Epanel, T4. now apply redrawPanel_ext.
  - apply layout_content_list.
  - rewrite layout_content_pos, Hc1, Hy, Ecpos, Emin.
    now destruct (getViewport_style u t Est) as [-> ->].
  - destruct (layout_mask_zone u) as [-> _]. rewrite Emask, T5.
    now apply redrawMaskAndWheelZone_ext.
  - rewrite layout_scrollbar, Ebar.
    apply redrawScrollbar_ext; [apply layout_style | exact Hc2 | exact Hy].
  - destruct (layout_mask_zone u) as [_ ->]. rewrite Ezone, T6.
    now apply redrawMaskAndWheelZone_ext.
  - apply layout_emitted.
Qed.

Lemma setScrollY_laid_out (v : num) t :
  layout t = t -> layout (setScrollY v t) = setScrollY v t.
Proof.
  intros Ht.
  destruct (Clamp v zero (getMaxScrollY t) === _scrollY t) eqn:E.
  - now rewrite (setScrollY_same v t E).
  - rewrite (setScrollY_changed v t E). cbv zeta.
    apply (laid_out_by_fields t); try exact Ht; try reflexivity.
    + apply Clamp_idem.
    + apply redrawScrollbar_ext; reflexivity.
Qed.

(** X30.  Scrolling keeps a laid-out container laid out.  If [layout()] would
    change nothing, it still changes nothing after [setScrollY],
    [scrollBy], [scrollToTop], [scrollToBottom] or a wheel event, whatever
    the offset, the delta and the event are: the content position and the
    scrollbar already show the new offset. *)
Theorem scrolling_keeps_laid_out (t : DebugScrollContainer) :
  layout t = t ->
  (forall v : num, layout (setScrollY v t) = setScrollY v t) /\
  (forall d : num, layout (scrollBy d t) = scrollBy d t) /\
  layout (scrollToTop t) = scrollToTop t /\
  layout (scrollToBottom t) = scrollToBottom t /\
  (forall (over : list OverObject) (deltaY : num) (event : option WheelEvent),
     layout (fst (handleWheel over deltaY event t))
     = fst (handleWheel over deltaY event t)).
Proof.
  intros Ht.
  assert (Hset : forall v : num, layout (setScrollY v t) = setScrollY v t)
    by (intros v; now apply setScrollY_laid_out).
  assert (Hby : forall d : num, layout (scrollBy d t) = scrollBy d t).
  { intros d. destruct (scrollBy_cases d t) as [-> | ->];
      [exact Ht | apply Hset]. }
  split; [exact Hset |]. split; [exact Hby |].
  split; [exact (Hset zero) |]. split; [exact (Hset (getMaxScrollY t)) |].
  intros over deltaY event. unfold handleWheel.
  destruct (negb (_wheelEnabled t)); [exact Ht |].
  destruct (deltaY === zero); [exact Ht |].
  destruct (negb (isWheelOverThisContainer over)); [exact Ht |].
  cbv zeta.
  destruct (_ === _); [apply Hby |].
  destruct event; apply Hby.
Qed.

Lemma scrolling_keeps_laid_out_witness :
  layout scenario_default = scenario_default /\
  layout (setScrollY (of_Z 100) scenario_default)
    = setScrollY (of_Z 100) scenario_default /\
  layout (fst (handleWheel over_child (of_Z 120) (Some dom_wheel)
                 scenario_default))
    = fst (handleWheel over_child (of_Z 120) (Some dom_wheel)
             scenario_default).
Proof.
  assert (H : layout scenario_default = scenario_default)
    by (vm_compute; reflexivity).
  destruct (scrolling_keeps_laid_out scenario_default H)
    as (Hset & _ & _ & _ & Hwheel).
  split; [exact H |]. split; [apply Hset | apply Hwheel].
Defined.

End ScrollControlsFacts.

(* ================================================================== *)
(** ** The layout scheduler: marking, cancelling and destroying *)
(* ================================================================== *)

Module SchedLifecycleFacts.
Import LayoutAuto LayoutAutoTrace SchedFacts.
Local Open Scope list_scope.

#[local] Arguments member : simpl never.

(** *** Marking *)

Lemma with_dirty_same (s : Scheduler) : with_dirty s (dirty s) = s.
Proof. now destruct s. Qed.

Lemma markAll_alive (ts : list Target) :
  forall s, destroyed s = false ->
  markAll ts s =
  with_dirty s (fold_left (fun d t => set_add t d) ts (dirty s)).
Proof.
  unfold markAll.
  induction ts as [| a ts IH]; intros s D; cbn [fold_left].
  - now rewrite with_dirty_same.
  - unfold markDirty at 2. rewrite D.
    rewrite IH by exact D. reflexivity.
Qed.

Lemma markAll_dead (ts : list Target) (s : Scheduler) :
  destroyed s = true -> markAll ts s = s.
Proof.
  unfold markAll. intros D.
  induction ts as [| a ts IH]; cbn [fold_left]; [reflexivity |].
  unfold markDirty at 2. now rewrite D.
Qed.

(** X14.  [markDirtyMany(targets)] does what one [markDirty] per target does,
    in the order of the array, whatever the state of the scheduler. *)
Theorem markDirtyMany_marks_each (ts : list Target) (s : Scheduler) :
  markDirtyMany ts s = markAll ts s.
Proof.
  unfold markDirtyMany. destruct (destroyed s) eqn:D; cbn [orb].
  - now rewrite markAll_dead.
  - rewrite markAll_alive by exact D.
    destruct ts as [| a ts]; cbn [List.length Nat.eqb fold_left].
    + now rewrite with_dirty_same.
    + reflexivity.
Qed.

Lemma marks_incl_nodup (l : list Target) :
  incl (marks l) (nodup Nat.eq_dec l) /\ incl (nodup Nat.eq_dec l) (marks l).
Proof.
  split; intros t Ht.
  - apply nodup_In. apply member_In. rewrite <- member_marks.
    now apply member_In.
  - apply member_In. rewrite member_marks. apply member_In.
    now apply nodup_In in Ht.
Qed.

Lemma marks_length (l : list Target) :
  List.length (marks l) = List.length (nodup Nat.eq_dec l).
Proof.
  destruct (marks_incl_nodup l) as [H1 H2].
  apply Nat.le_antisymm.
  - apply NoDup_incl_length; [apply marks_NoDup | exact H1].
  - apply NoDup_incl_length; [apply NoDup_nodup | exact H2].
Qed.

(** X15.  [getDirtyCount()] counts targets, not calls: after any run of
    [markDirty] calls on a live scheduler it is the number of distinct
    targets among those pending before and those marked. *)
Theorem getDirtyCount_counts_targets (ms : list Target) (s : Scheduler) :
  destroyed s = false -> NoDup (dirty s) ->
  getDirtyCount (markAll ms s)
  = List.length (nodup Nat.eq_dec (dirty s ++ ms)).
Proof.
  intros D N. unfold getDirtyCount.
  destruct (markAll_state ms s D) as (-> & _ & _).
  rewrite fold_set_add_marks by exact N.
  apply marks_length.
Qed.

Lemma getDirtyCount_counts_targets_witness :
  destroyed layoutAuto = false /\
  NoDup (dirty layoutAuto) /\
  getDirtyCount (markAll [3; 0; 3; 3; 0]%nat layoutAuto) = 2%nat.
Proof.
  assert (H0 : destroyed layoutAuto = false) by reflexivity.
  assert (H1 : NoDup (dirty layoutAuto)) by constructor.
  split; [exact H0 |]. split; [exact H1 |].
  rewrite (getDirtyCount_counts_targets [3; 0; 3; 3; 0]%nat layoutAuto H0 H1).
  reflexivity.
Defined.

(** *** Cancelling *)

Lemma ends_unique (o : Outcome) (s1 s2 : Scheduler) (t1 t2 : Trace) :
  ends o s1 t1 -> ends o s2 t2 -> s1 = s2 /\ t1 = t2.
Proof.
  intros [-> | ->] [E | E]; inversion E; now split.
Qed.

Lemma flush_entries_pending layoutCode (s s' : Scheduler) (tr : Trace) :
  isFlushing s = false ->
  ends (flush layoutCode enough s) s' tr ->
  forall t, In t (entries tr) -> In t (dirty s).
Proof.
  intros B He t Hin.
  destruct (destroyed s) eqn:D.
  { unfold flush, enough in He.
    rewrite flushNow_skips in He by now left.
    destruct (ends_unique _ _ _ _ _ He (or_introl eq_refl)) as [_ ->].
    destruct Hin. }
  destruct (dirty s) as [| d0 rest0] eqn:Q.
  { unfold flush, enough in He.
    rewrite flushNow_skips in He by (right; now left).
    destruct (ends_unique _ _ _ _ _ He (or_introl eq_refl)) as [_ ->].
    destruct Hin. }
  destruct (flush_pass layoutCode 0 s D B) as (s1 & evs & Hout & (r & Hr) & _);
    [rewrite Q; discriminate |].
  assert (He1 : ends (flush layoutCode enough s) s1 (Began (dirty s) :: evs)).
  { unfold flush, enough. destruct Hout as [[-> _] | [-> _]];
      [now left | now right]. }
  destruct (ends_unique _ _ _ _ _ He He1) as [_ ->].
  cbn [entries] in Hin. rewrite Q in Hr. rewrite Hr.
  apply in_or_app. now left.
Qed.

(** X16.  A target taken back with [remove] is not laid out by the next
    flush, whatever the layouts of the other targets do, and after [clear]
    the next flush runs no layout at all. *)
Theorem removed_target_not_laid_out layoutCode (t : Target) (s : Scheduler) :
  isFlushing s = false ->
  (forall s' tr, ends (flush layoutCode enough (remove t s)) s' tr ->
     ~ In t (entries tr)) /\
  flush layoutCode enough (clear s) = Normal (clear s) [].
Proof.
  intros B. split.
  - intros s' tr He Hin.
    assert (B' : isFlushing (remove t s) = false).
    { destruct (calls_keep_isFlushing s) as (_ & _ & Hr & _).
      now rewrite Hr. }
    pose proof (flush_entries_pending layoutCode _ _ _ B' He t Hin) as Hd.
    unfold remove in Hd. destruct (destroyed s) eqn:D.
    + unfold flush, enough, remove in He. rewrite D in He.
      rewrite flushNow_skips in He by now left.
      destruct (ends_unique _ _ _ _ _ He (or_introl eq_refl)) as [_ ->].
      destruct Hin.
    + cbn [with_dirty dirty] in Hd.
      apply member_In in Hd. rewrite member_set_delete in Hd.
      rewrite Nat.eqb_refl in Hd. cbn in Hd.
      rewrite andb_false_r in Hd. discriminate Hd.
  - unfold flush, enough. apply flushNow_skips.
    unfold clear. destruct (destroyed s) eqn:D; [now left |].
    right. now left.
Qed.

Lemma removed_target_not_laid_out_witness :
  isFlushing (markAll [0; 2]%nat layoutAuto) = false /\
  flush remarking_code enough (remove 0%nat (markAll [0; 2]%nat layoutAuto))
    = Normal layoutAuto [Began [2%nat]; Entered 2%nat] /\
  ~ In 0%nat (entries [Began [2%nat]; Entered 2%nat]).
Proof.
  assert (H0 : isFlushing (markAll [0; 2]%nat layoutAuto) = false)
    by reflexivity.
  assert (H1 : flush remarking_code enough
                 (remove 0%nat (markAll [0; 2]%nat layoutAuto))
               = Normal layoutAuto [Began [2%nat]; Entered 2%nat])
    by reflexivity.
  split; [exact H0 |]. split; [exact H1 |].
  apply (proj1 (removed_target_not_laid_out remarking_code 0%nat
                  (markAll [0; 2]%nat layoutAuto) H0) layoutAuto).
  left. exact H1.
Defined.

(** *** Destroying *)

(** X17.  [destroy()] is final.  The scheduler reports itself destroyed, a
    second [destroy()] changes nothing, every marking or cancelling call is
    ignored, and neither [flush()] nor the scene's flush event runs a
    layout.  Destroying a live scheduler empties the dirty set and takes the
    handler off the scene. *)
Theorem destroy_is_final (s : Scheduler) :
  isDestroyed (destroyScheduler s) = true /\
  destroyScheduler (destroyScheduler s) = destroyScheduler s /\
  (forall t ts,
     markDirty t (destroyScheduler s) = destroyScheduler s /\
     markDirtyMany ts (destroyScheduler s) = destroyScheduler s /\
     remove t (destroyScheduler s) = destroyScheduler s /\
     clear (destroyScheduler s) = destroyScheduler s) /\
  (forall layoutCode fuel tr,
     flushNow layoutCode (S fuel) (destroyScheduler s) tr
       = Normal (destroyScheduler s) tr /\
     emit_flushEvent layoutCode fuel (destroyScheduler s) tr
       = Normal (destroyScheduler s) tr) /\
  (destroyed s = false ->
     getDirtyCount (destroyScheduler s) = 0%nat /\
     listening (destroyScheduler s) = false).
Proof.
  assert (D : destroyed (destroyScheduler s) = true).
  { unfold destroyScheduler. destruct (destroyed s) eqn:E; [exact E |].
    reflexivity. }
  split; [exact D |].
  split; [unfold destroyScheduler at 1; now rewrite D |].
  split.
  { intros t ts.
    unfold markDirty, markDirtyMany, remove, clear. now rewrite D. }
  split.
  { intros layoutCode fuel tr. split.
    - apply flushNow_skips. now left.
    - unfold emit_flushEvent, onFlushEvent. rewrite D.
      now destruct (listening (destroyScheduler s)). }
  intros E. unfold destroyScheduler. now rewrite E.
Qed.

Lemma destroy_is_final_witness :
  destroyed (markAll [0; 2]%nat layoutAuto) = false /\
  getDirtyCount (markAll [0; 2]%nat layoutAuto) = 2%nat /\
  getDirtyCount (destroyScheduler (markAll [0; 2]%nat layoutAuto)) = 0%nat /\
  markDirty 7%nat (destroyScheduler (markAll [0; 2]%nat layoutAuto))
    = destroyScheduler (markAll [0; 2]%nat layoutAuto).
Proof.
  assert (H0 : destroyed (markAll [0; 2]%nat layoutAuto) = false)
    by reflexivity.
  destruct (destroy_is_final (markAll [0; 2]%nat layoutAuto))
    as (_ & _ & Hcalls & _ & Hlive).
  split; [exact H0 |]. split; [reflexivity |].
  split; [exact (proj1 (Hlive H0)) |].
  exact (proj1 (Hcalls 7%nat [])).
Defined.

(** *** [destroy()] from inside a layout *)

Lemma entered_after_none (evs : Trace) :
  entries evs = [] -> entered_after_destroy evs = [].
Proof.
  induction evs as [| e evs IH]; [reflexivity |].
  destruct e as [q | t | c]; cbn [entries entered_after_destroy].
  - exact IH.
  - discriminate.
  - intros H. destruct c; auto.
Qed.

Lemma entered_after_app (a b : Trace) :
  entered_after_destroy (a ++ b) =
  if calls_destroy a then entered_after_destroy a ++ entries b
  else entered_after_destroy b.
Proof.
  induction a as [| e a IH]; [reflexivity |].
  destruct e as [q | t | c];
    cbn [app entered_after_destroy calls_destroy]; try exact IH.
  destruct c; try exact IH. apply entries_app.
Qed.

Lemma entered_after_split (e1 e2 : Trace) :
  entered_after_destroy (e1 ++ Called call_destroy :: e2) = [] ->
  entries e2 = [].
Proof.
  rewrite entered_after_app. cbn [entered_after_destroy].
  destruct (calls_destroy e1); [| auto].
  intros H. apply app_eq_nil in H. destruct H as [_ H].
  exact H.
Qed.

Lemma replay_after_destroy (t : Target) (evs : Trace) :
  forall st, calls_destroy evs = true -> (fst st = false -> snd st = false) ->
  replay t evs st = (false, false).
Proof.
  induction evs as [| e evs IH]; intros st Hc Hst; [discriminate Hc |].
  destruct e as [q | u | c]; cbn [calls_destroy replay] in *.
  - now apply IH.
  - now apply IH.
  - destruct c; cbn [calls_destroy] in Hc;
      try (apply IH; [exact Hc |];
           unfold step_call; destruct st as [[] m]; cbn in *; auto;
           discriminate).
    unfold step_call. destruct st as [[] m]; cbn [fst snd] in *.
    + apply replay_dead.
    + rewrite (Hst eq_refl). apply replay_dead.
Qed.

Lemma run_queue_dead layoutCode fl (queue : list Target) (s : Scheduler)
  (tr : Trace) :
  destroyed s = true -> run_queue layoutCode fl queue s tr = Normal s tr.
Proof. intros D. destruct queue; cbn [run_queue]; now rewrite ?D. Qed.

Lemma exec_destroy fl (c : Code) (s : Scheduler) (tr : Trace) :
  guarded fl -> isFlushing s = true ->
  exists s' evs,
    ends (exec fl c s tr) s' (tr ++ evs) /\
    isFlushing s' = true /\ entries evs = [] /\
    (calls_destroy evs = true -> destroyed s' = true).
Proof.
  intros G B.
  destruct (exec_busy fl c G s tr B) as (s' & evs & He & B' & En & _ & V & _).
  exists s', evs. do 3 (split; [assumption |]).
  intros Hc. specialize (V 0%nat).
  unfold view in V at 1.
  destruct (destroyed s') eqn:D'; [reflexivity |].
  cbn [negb] in V.
  destruct (destroyed s) eqn:D.
  - unfold view in V. rewrite D in V. cbn [negb] in V.
    rewrite replay_dead in V. discriminate V.
  - rewrite (replay_after_destroy 0%nat evs (view 0%nat s) Hc) in V.
    + discriminate V.
    + unfold view. rewrite D. discriminate.
Qed.

Lemma run_queue_destroy layoutCode fl (queue : list Target) :
  guarded fl ->
  forall (s : Scheduler) (tr : Trace),
  isFlushing s = true ->
  exists s' evs,
    ends (run_queue layoutCode fl queue s tr) s' (tr ++ evs) /\
    entered_after_destroy evs = [].
Proof.
  intros G. induction queue as [| target rest IH]; intros s tr B.
  - exists s, []. rewrite app_nil_r. split; [now left | reflexivity].
  - cbn [run_queue]. destruct (destroyed s) eqn:D.
    + exists s, []. rewrite app_nil_r. split; [now left | reflexivity].
    + destruct (exec_destroy fl (layoutCode tr target) s
                  (tr ++ [Entered target]) G B)
        as (s1 & evs1 & He & B1 & En1 & Hd1).
      destruct He as [He | He]; rewrite He.
      * destruct (destroyed s1) eqn:D1.
        -- rewrite run_queue_dead by exact D1.
           exists s1, (Entered target :: evs1).
           split; [left; now rewrite <- app_assoc |].
           cbn [entered_after_destroy]. now apply entered_after_none.
        -- destruct (IH s1 ((tr ++ [Entered target]) ++ evs1) B1)
             as (s' & evs2 & He2 & Ha2).
           exists s', (Entered target :: evs1 ++ evs2).
           replace (tr ++ Entered target :: evs1 ++ evs2)
             with (((tr ++ [Entered target]) ++ evs1) ++ evs2)
             by (now rewrite <- !app_assoc).
           split; [exact He2 |].
           cbn [entered_after_destroy]. rewrite entered_after_app.
           destruct (calls_destroy evs1) eqn:C1; [| exact Ha2].
           discriminate (Hd1 eq_refl).
      * exists s1, (Entered target :: evs1).
        split; [right; now rewrite <- app_assoc |].
        cbn [entered_after_destroy]. now apply entered_after_none.
Qed.

Lemma calls_destroy_split (e1 e2 : Trace) :
  calls_destroy (e1 ++ Called call_destroy :: e2) = true.
Proof.
  induction e1 as [| e e1 IH]; [reflexivity |].
  destruct e as [q | t | c]; cbn [app calls_destroy]; try exact IH.
  destruct c; auto.
Qed.

(** X18.  When a layout destroys the scheduler in the middle of a pass, the
    pass ends with that layout: no target queued behind it is laid out, and
    the scheduler is left destroyed with nothing pending, whatever the
    layout went on to mark. *)
Theorem destroy_stops_the_pass layoutCode (s : Scheduler) :
  destroyed s = false -> isFlushing s = false -> dirty s <> [] ->
  exists s' evs,
    ends (flush layoutCode enough s) s' (Began (dirty s) :: evs) /\
    forall e1 e2, evs = e1 ++ Called call_destroy :: e2 ->
      entries e2 = [] /\ destroyed s' = true /\ dirty s' = [].
Proof.
  intros D B Q.
  destruct (flush_pass layoutCode 0 s D B Q)
    as (s1 & evs & Hout & _ & _ & V & _).
  assert (He1 : ends (flush layoutCode enough s) s1 (Began (dirty s) :: evs)).
  { unfold flush, enough. destruct Hout as [[-> _] | [-> _]];
      [now left | now right]. }
  exists s1, evs. split; [exact He1 |].
  intros e1 e2 ->.
  assert (Hc : calls_destroy (e1 ++ Called call_destroy :: e2) = true)
    by apply calls_destroy_split.
  assert (Hv : forall t, view t s1 = (false, false)).
  { intros t. rewrite V. apply replay_after_destroy; [exact Hc |].
    discriminate. }
  split; [| split].
  - apply (entered_after_split e1).
    unfold flush, enough in He1.
    rewrite flushNow_pass in He1 by assumption.
    destruct (run_queue_destroy layoutCode (flushNow layoutCode 1) (dirty s)
                (flushNow_guarded layoutCode 0) (pass_start s)
                ([] ++ [Began (dirty s)]) eq_refl)
      as (s2 & evs2 & He2 & Ha).
    cbn [app] in He1, He2.
    assert (Hsame : evs2 = e1 ++ Called call_destroy :: e2).
    { destruct He2 as [He2 | He2]; rewrite He2 in He1; cbv beta iota in He1.
      - destruct He1 as [He1 | He1]; inversion He1. reflexivity.
      - destruct He1 as [He1 | He1]; inversion He1. reflexivity. }
    now rewrite <- Hsame.
  - specialize (Hv 0%nat). unfold view in Hv.
    destruct (destroyed s1); [reflexivity | discriminate Hv].
  - destruct (dirty s1) as [| t rest] eqn:Q1; [reflexivity |].
    specialize (Hv t). unfold view in Hv. rewrite Q1 in Hv.
    unfold member in Hv. cbn [existsb] in Hv.
    rewrite Nat.eqb_refl in Hv. cbn in Hv. discriminate Hv.
Qed.

Lemma destroy_stops_the_pass_witness :
  destroyed (markAll [0; 1; 2]%nat layoutAuto) = false /\
  isFlushing (markAll [0; 1; 2]%nat layoutAuto) = false /\
  dirty (markAll [0; 1; 2]%nat layoutAuto) <> [] /\
  exists s',
    flush destroying_code enough (markAll [0; 1; 2]%nat layoutAuto)
    = Normal s'
        ([Began [0; 1; 2]%nat; Entered 0%nat; Entered 1%nat]
         ++ Called call_destroy :: [Called (call_markDirty 5%nat)]) /\
    destroyed s' = true /\ dirty s' = [].
Proof.
  assert (H0 : destroyed (markAll [0; 1; 2]%nat layoutAuto) = false)
    by reflexivity.
  assert (H1 : isFlushing (markAll [0; 1; 2]%nat layoutAuto) = false)
    by reflexivity.
  assert (H2 : dirty (markAll [0; 1; 2]%nat layoutAuto) <> [])
    by discriminate.
  split; [exact H0 |]. split; [exact H1 |]. split; [exact H2 |].
  destruct (destroy_stops_the_pass destroying_code
              (markAll [0; 1; 2]%nat layoutAuto) H0 H1 H2)
    as (s' & evs & He & Hafter).
  assert (Hrun : exists s1,
             flush destroying_code enough (markAll [0; 1; 2]%nat layoutAuto)
             = Normal s1
                 (Began [0; 1; 2]%nat
                  :: [Entered 0%nat; Entered 1%nat]
                     ++ Called call_destroy
                        :: [Called (call_markDirty 5%nat)]))
    by (eexists; reflexivity).
  destruct Hrun as (s1 & Hrun).
  assert (Hsame : s' = s1 /\
                  evs = [Entered 0%nat; Entered 1%nat]
                        ++ Called call_destroy
                           :: [Called (call_markDirty 5%nat)]).
  { rewrite Hrun in He. destruct He as [He | He]; inversion He. now split. }
  destruct Hsame as [-> Hevs].
  exists s1. split; [exact Hrun |].
  exact (proj2 (Hafter _ _ Hevs)).
Defined.

End SchedLifecycleFacts.

(* ================================================================== *)
(** ** Viewport anchoring: where the target ends up, updates and errors *)
(* ================================================================== *)

Module AnchorPlacementFacts.
Import JsNum JsNumFacts JsNumOrderFacts Anchor AnchorFacts.
Local Open Scope num_scope.

(** *** Inside the safe area *)

(** Each of the three places a target of width [w] can be put along an
    axis lies between [lo] and [hi] when the target fits there. *)
Lemma placed_within (lo hi w x : num) :
  isFinite lo = true -> isFinite hi = true -> isFinite w = true ->
  x = lo + w / two \/ x = lo + max zero (hi - lo) / two \/ x = hi - w / two ->
  zero <= w -> w <= hi - lo ->
  lo <= x + zero /\ x + zero <= hi.
Proof.
  destruct lo as [l | | |], hi as [r | | |], w as [q | | |]; try discriminate.
  intros _ _ _ Hx H0 Hfit.
  assert (Hspan : max zero (Fin r - Fin l) = Fin r - Fin l).
  { apply max_r. eapply le_trans; [exact H0 | exact Hfit]. }
  rewrite Hspan in Hx. clear Hspan.
  destruct (half_fin q) as (h & Eh & Hh). rewrite Eh in *.
  cbn [sub add neg] in Hx, Hfit.
  destruct (half_fin (r + - l)) as (g & Eg & Hg). rewrite Eg in Hx.
  unfold zero, of_Z in *. cbn [add] in Hx.
  apply le_Fin in H0, Hfit.
  destruct Hx as [-> | [-> | ->]]; cbn [sub add neg]; rewrite !le_Fin;
    split; qc_arith.
Qed.

Lemma across_place (hz : Horizontal) (lo hi half : num) :
  across hz lo hi half = lo + half \/
  across hz lo hi half = lo + max zero (hi - lo) / two \/
  across hz lo hi half = hi - half.
Proof. destruct hz; cbn [across]; auto. Qed.

Lemma down_place (vt : Vertical) (lo hi half : num) :
  down vt lo hi half = lo + half \/
  down vt lo hi half = lo + max zero (hi - lo) / two \/
  down vt lo hi half = hi - half.
Proof. destruct vt; cbn [down]; auto. Qed.

Lemma placeTarget_xy (b : Binding) (scene : Scene) (target placed : GameObject) :
  destroyed b = false -> placeTarget b scene target = Ok placed ->
  xy placed = anchored_position b scene target /\
  has_setPosition target = true /\
  has_setPosition placed = true /\
  getDisplaySize placed = getDisplaySize target.
Proof.
  unfold placeTarget. intros ->.
  destruct (anchored_position b scene target) as [x y].
  unfold setTargetPosition.
  destruct (has_setPosition target); [| discriminate].
  intros E. injection E as <-. repeat split.
Qed.

(** X19.  With no offset, a target that fits the viewport left by the safe
    area is put within it, for each of the nine anchors: the position
    given to the target, the centre of its box, is neither left of the
    left edge nor right of the right edge, neither above the top edge nor
    below the bottom edge.  The edges, the width and the height between
    them and the size of the target are finite numbers. *)
Theorem anchored_target_within_safe_area (b : Binding) (scene : Scene)
  (target placed : GameObject) :
  destroyed b = false -> placeTarget b scene target = Ok placed ->
  offsetX b = zero -> offsetY b = zero ->
  isFinite (edge_left b scene) = true ->
  isFinite (edge_right b scene) = true ->
  isFinite (edge_top b scene) = true ->
  isFinite (edge_bottom b scene) = true ->
  isFinite (edge_right b scene - edge_left b scene) = true ->
  isFinite (edge_bottom b scene - edge_top b scene) = true ->
  isFinite (fst (getDisplaySize target)) = true ->
  isFinite (snd (getDisplaySize target)) = true ->
  fst (getDisplaySize target) <= edge_right b scene - edge_left b scene ->
  snd (getDisplaySize target) <= edge_bottom b scene - edge_top b scene ->
  (edge_left b scene <= fst (xy placed) /\
   fst (xy placed) <= edge_right b scene) /\
  (edge_top b scene <= snd (xy placed) /\
   snd (xy placed) <= edge_bottom b scene).
Proof.
  intros D P Ox Oy Fl Fr Ft Fb _ _ Fw Fh Hw Hh.
  destruct (placeTarget_xy b scene target placed D P) as (-> & _).
  rewrite anchored_position_by_name, Ox, Oy. cbn [fst snd].
  assert (W0 : zero <= fst (getDisplaySize target)).
  { unfold getDisplaySize in *.
    destruct (is_some (displayWidth target) || is_some (displayHeight target));
      [| destruct (is_some (width target) || is_some (height target));
         [| destruct (getBounds target)]];
      cbn [fst] in *; try reflexivity;
      apply max_zero_nonneg; intros E; rewrite E, max_nan_r in Fw;
      discriminate Fw. }
  assert (H0 : zero <= snd (getDisplaySize target)).
  { unfold getDisplaySize in *.
    destruct (is_some (displayWidth target) || is_some (displayHeight target));
      [| destruct (is_some (width target) || is_some (height target));
         [| destruct (getBounds target)]];
      cbn [snd] in *; try reflexivity;
      apply max_zero_nonneg; intros E; rewrite E, max_nan_r in Fh;
      discriminate Fh. }
  split.
  - apply (placed_within _ _ (fst (getDisplaySize target)));
      try assumption; apply across_place.
  - apply (placed_within _ _ (snd (getDisplaySize target)));
      try assumption; apply down_place.
Qed.

Lemma anchored_target_within_safe_area_witness :
  exists placed,
    placeTarget (mkBinding center_right zero zero true None true false)
      example_scene example_target = Ok placed /\
    fst (xy placed) = of_Z 750 /\
    edge_left (mkBinding center_right zero zero true None true false)
      example_scene <= fst (xy placed) /\
    fst (xy placed)
      <= edge_right (mkBinding center_right zero zero true None true false)
           example_scene.
Proof.
  assert (P : exists placed,
            placeTarget (mkBinding center_right zero zero true None true false)
              example_scene example_target = Ok placed /\
            fst (xy placed) = of_Z 750)
    by (eexists; split; vm_compute; reflexivity).
  destruct P as (placed & P & Hx).
  exists placed. split; [exact P |]. split; [exact Hx |].
  refine (proj1 (anchored_target_within_safe_area
            (mkBinding center_right zero zero true None true false)
            example_scene example_target placed
            eq_refl P eq_refl eq_refl _ _ _ _ _ _ _ _ _ _));
    vm_compute; reflexivity.
Defined.

(** *** Updates *)

(** X20.  [update()] is repeatable: on a live handle, placing a target that
    was just placed puts it where it is, and the place does not depend on
    where the target was before. *)
Theorem update_is_repeatable (b : Binding) (scene : Scene)
  (target placed : GameObject) :
  destroyed b = false -> placeTarget b scene target = Ok placed ->
  placeTarget b scene placed = Ok placed /\
  (forall x y,
     placeTarget b scene
       (mkGameObject (displayWidth target) (displayHeight target)
          (width target) (height target) (getBounds target)
          (has_setPosition target) (x, y))
     = Ok placed).
Proof.
  unfold placeTarget. intros ->.
  unfold anchored_position, setTargetPosition, getDisplaySize.
  destruct (has_setPosition target) eqn:S; [| discriminate].
  intros E. injection E as <-. cbn. now split.
Qed.

Lemma update_is_repeatable_witness :
  exists placed,
    placeTarget (mkBinding bottom_center zero zero false None true false)
      example_scene example_target = Ok placed /\
    xy placed = (of_Z 400, of_Z 575) /\
    placeTarget (mkBinding bottom_center zero zero false None true false)
      example_scene placed = Ok placed.
Proof.
  assert (P : exists placed,
            placeTarget (mkBinding bottom_center zero zero false None true false)
              example_scene example_target = Ok placed /\
            xy placed = (of_Z 400, of_Z 575))
    by (eexists; split; vm_compute; reflexivity).
  destruct P as (placed & P & Hxy).
  exists placed. split; [exact P |]. split; [exact Hxy |].
  exact (proj1 (update_is_repeatable
                  (mkBinding bottom_center zero zero false None true false)
                  example_scene example_target placed eq_refl P)).
Defined.

(** X21.  After [destroy()] the handle is inert: it reports itself
    destroyed, a second [destroy()] changes nothing, and [update()] leaves
    any target where it is without raising an error, even a target that has
    no [setPosition]. *)
Theorem destroyed_handle_is_inert (b : Binding) :
  destroyed (destroyHandle b) = true /\
  destroyHandle (destroyHandle b) = destroyHandle b /\
  (forall scene target,
     placeTarget (destroyHandle b) scene target = Ok target) /\
  (anchor (destroyHandle b), offsetX (destroyHandle b),
   offsetY (destroyHandle b), useSafeArea (destroyHandle b),
   safeArea (destroyHandle b), autoResize (destroyHandle b))
  = (anchor b, offsetX b, offsetY b, useSafeArea b, safeArea b, autoResize b).
Proof.
  assert (D : destroyed (destroyHandle b) = true).
  { unfold destroyHandle. destruct (destroyed b) eqn:E; [exact E |].
    reflexivity. }
  split; [exact D |].
  split; [unfold destroyHandle at 1; now rewrite D |].
  split; [intros scene target; unfold placeTarget; now rewrite D |].
  unfold destroyHandle. now destruct (destroyed b).
Qed.

(** *** Errors *)

Lemma anchorToViewport_with_scene (options : AnchorToViewportOptions)
  (scene : Scene) :
  opt_scene options = Some scene \/
  opt_scene options = None /\ opt_target_scene options = Some scene ->
  exists b0,
    destroyed b0 = false /\
    anchorToViewport options =
      match placeTarget b0 scene (opt_target options) with
      | Ok t => Ok (b0, t)
      | Error msg => Error msg
      end.
Proof.
  unfold anchorToViewport. intros [-> | [-> ->]];
    eexists; (split; [| reflexivity]); reflexivity.
Qed.

Lemma anchorToViewport_without_scene (options : AnchorToViewportOptions) :
  opt_scene options = None -> opt_target_scene options = None ->
  anchorToViewport options =
    Error "anchorToViewport: scene not found. Pass options.scene or use a scene-owned target.".
Proof. unfold anchorToViewport. now intros -> ->. Qed.

Lemma placeTarget_live (b : Binding) (scene : Scene) (target : GameObject) :
  destroyed b = false ->
  (has_setPosition target = true ->
   exists placed,
     placeTarget b scene target = Ok placed /\
     has_setPosition placed = true) /\
  (has_setPosition target = false ->
   placeTarget b scene target =
     Error "anchorToViewport: target does not support setPosition(x, y)").
Proof.
  unfold placeTarget. intros ->.
  destruct (anchored_position b scene target) as [x y].
  unfold setTargetPosition. split; intros ->.
  - eexists. split; reflexivity.
  - reflexivity.
Qed.

Lemma scene_found (options : AnchorToViewportOptions) :
  opt_scene options <> None \/ opt_target_scene options <> None ->
  exists scene,
    opt_scene options = Some scene \/
    opt_scene options = None /\ opt_target_scene options = Some scene.
Proof.
  destruct (opt_scene options) as [sc |].
  - intros _. exists sc. now left.
  - destruct (opt_target_scene options) as [sc |].
    + intros _. exists sc. right. now split.
    + intros [H | H]; congruence.
Qed.

(** X22.  [anchorToViewport] succeeds exactly when a scene is found, in the
    options or on the target, and the target has [setPosition]; the handle
    it returns is live and the target it returns has been placed.  Without
    a scene it raises the scene error, whatever the target is; with a scene
    and no [setPosition] it raises the other one. *)
Theorem anchorToViewport_succeeds_iff (options : AnchorToViewportOptions) :
  ((exists b placed, anchorToViewport options = Ok (b, placed)) <->
   (opt_scene options <> None \/ opt_target_scene options <> None) /\
   has_setPosition (opt_target options) = true) /\
  (forall b placed, anchorToViewport options = Ok (b, placed) ->
     destroyed b = false /\ has_setPosition placed = true /\
     exists scene,
       (opt_scene options = Some scene \/
        opt_scene options = None /\ opt_target_scene options = Some scene) /\
       placeTarget b scene (opt_target options) = Ok placed) /\
  (opt_scene options = None -> opt_target_scene options = None ->
   anchorToViewport options =
     Error "anchorToViewport: scene not found. Pass options.scene or use a scene-owned target.") /\
  ((opt_scene options <> None \/ opt_target_scene options <> None) ->
   has_setPosition (opt_target options) = false ->
   anchorToViewport options =
     Error "anchorToViewport: target does not support setPosition(x, y)").
Proof.
  assert (Hok : forall b placed, anchorToViewport options = Ok (b, placed) ->
     destroyed b = false /\ has_setPosition placed = true /\
     exists scene,
       (opt_scene options = Some scene \/
        opt_scene options = None /\ opt_target_scene options = Some scene) /\
       placeTarget b scene (opt_target options) = Ok placed).
  { intros b placed E.
    destruct (opt_scene options) as [sc |] eqn:S1;
      [| destruct (opt_target_scene options) as [sc |] eqn:S2].
    3: { rewrite anchorToViewport_without_scene in E by assumption.
         discriminate E. }
    all: (assert (Hsc : opt_scene options = Some sc \/
                        opt_scene options = None /\
                        opt_target_scene options = Some sc)
            by (rewrite ?S1, ?S2; first [now left | right; now split]));
      destruct (anchorToViewport_with_scene options sc Hsc)
        as (b0 & D0 & E0);
      rewrite E0 in E;
      destruct (has_setPosition (opt_target options)) eqn:P;
      [ destruct (proj1 (placeTarget_live b0 sc (opt_target options) D0) P)
          as (pl & Hpl & Hset);
        rewrite Hpl in E; injection E as <- <-;
        split; [exact D0 |]; split; [exact Hset |];
        exists sc; split; [rewrite <- ?S1, <- ?S2 in Hsc |- *; auto | exact Hpl]
      | rewrite (proj2 (placeTarget_live b0 sc (opt_target options) D0) P)
          in E; discriminate E ]. }
  split; [| split; [exact Hok | split]].
  - split.
    + intros (b & placed & E).
      destruct (Hok b placed E) as (D & _ & sc & Hsc & Hpl).
      split.
      * destruct Hsc as [-> | [_ ->]];
          [left; discriminate | right; discriminate].
      * destruct (has_setPosition (opt_target options)) eqn:P;
          [reflexivity |].
        rewrite (proj2 (placeTarget_live b sc (opt_target options) D) P)
          in Hpl.
        discriminate Hpl.
    + intros [Hsc P]. destruct (scene_found options Hsc) as (sc & Hsc').
      destruct (anchorToViewport_with_scene options sc Hsc')
        as (b0 & D0 & ->).
      destruct (proj1 (placeTarget_live b0 sc (opt_target options) D0) P)
        as (pl & -> & _).
      now exists b0, pl.
  - apply anchorToViewport_without_scene.
  - intros Hsc P. destruct (scene_found options Hsc) as (sc & Hsc').
    destruct (anchorToViewport_with_scene options sc Hsc')
      as (b0 & D0 & ->).
    now rewrite (proj2 (placeTarget_live b0 sc (opt_target options) D0) P).
Qed.

Lemma anchorToViewport_succeeds_iff_witness :
  (opt_scene example_options <> None \/
   opt_target_scene example_options <> None) /\
  has_setPosition (opt_target example_options) = true /\
  exists b placed, anchorToViewport example_options = Ok (b, placed).
Proof.
  assert (H0 : opt_scene example_options <> None \/
               opt_target_scene example_options <> None)
    by (left; discriminate).
  assert (H1 : has_setPosition (opt_target example_options) = true)
    by reflexivity.
  split; [exact H0 |]. split; [exact H1 |].
  exact (proj2 (proj1 (anchorToViewport_succeeds_iff example_options))
           (conj H0 H1)).
Defined.

(** *** The safe area *)

Lemma inset_nonneg (x : num) : isFinite (max zero x) = true -> zero <= max zero x.
Proof.
  intros F. apply max_zero_nonneg. intros ->. discriminate F.
Qed.

Lemma insets_of_nonneg (b : Binding) (scene : Scene) :
  (isFinite (left (insets_of b scene)) = true ->
   zero <= left (insets_of b scene)) /\
  (isFinite (right (insets_of b scene)) = true ->
   zero <= right (insets_of b scene)) /\
  (isFinite (top (insets_of b scene)) = true ->
   zero <= top (insets_of b scene)) /\
  (isFinite (bottom (insets_of b scene)) = true ->
   zero <= bottom (insets_of b scene)).
Proof.
  unfold insets_of. destruct (useSafeArea b).
  - unfold getSafeAreaInsets. cbn [left right top bottom].
    repeat split; apply inset_nonneg.
  - repeat split; reflexivity.
Qed.

Lemma inset_shrinks (x w i : num) :
  isFinite x = true -> isFinite w = true -> isFinite i = true ->
  zero <= i -> x <= x + i /\ x + w - i <= x + w.
Proof.
  destruct x as [x | | |], w as [w | | |], i as [i | | |]; try discriminate.
  intros _ _ _ H. unfold zero, of_Z in H. apply le_Fin in H.
  cbn [add sub neg]. rewrite !le_Fin. split; qc_arith.
Qed.

(** X23.  The insets are never negative, so the safe area lies within the
    viewport: the left and top edge used for anchoring are not before the
    viewport's, the right and bottom edge not beyond them.  Extra insets
    below zero can cancel what the browser reports, not turn an inset
    around.  The viewport rectangle and the insets are finite numbers. *)
Theorem safe_area_within_viewport (b : Binding) (scene : Scene) :
  isFinite (rect_x (getViewportRect scene)) = true ->
  isFinite (rect_y (getViewportRect scene)) = true ->
  isFinite (rect_width (getViewportRect scene)) = true ->
  isFinite (rect_height (getViewportRect scene)) = true ->
  isFinite (left (insets_of b scene)) = true ->
  isFinite (right (insets_of b scene)) = true ->
  isFinite (top (insets_of b scene)) = true ->
  isFinite (bottom (insets_of b scene)) = true ->
  (zero <= left (insets_of b scene) /\ zero <= right (insets_of b scene) /\
   zero <= top (insets_of b scene) /\ zero <= bottom (insets_of b scene)) /\
  rect_x (getViewportRect scene) <= edge_left b scene /\
  edge_right b scene
    <= rect_x (getViewportRect scene) + rect_width (getViewportRect scene) /\
  rect_y (getViewportRect scene) <= edge_top b scene /\
  edge_bottom b scene
    <= rect_y (getViewportRect scene) + rect_height (getViewportRect scene).
Proof.
  intros Fx Fy Fw Fh Fl Fr Ft Fb.
  destruct (insets_of_nonneg b scene) as (Hl & Hr & Ht & Hb).
  specialize (Hl Fl). specialize (Hr Fr).
  specialize (Ht Ft). specialize (Hb Fb).
  split; [now repeat split |].
  unfold edge_left, edge_right, edge_top, edge_bottom.
  split; [| split; [| split]].
  - apply (inset_shrinks _ (rect_width (getViewportRect scene))); assumption.
  - apply (inset_shrinks (rect_x (getViewportRect scene))); assumption.
  - apply (inset_shrinks _ (rect_height (getViewportRect scene))); assumption.
  - apply (inset_shrinks (rect_y (getViewportRect scene))); assumption.
Qed.

Lemma safe_area_within_viewport_witness :
  insets_of AnchorSamples.notched_binding AnchorSamples.notched_scene
    = mkInsets zero zero (of_Z 45) zero /\
  rect_y (getViewportRect AnchorSamples.notched_scene)
    <= edge_top AnchorSamples.notched_binding AnchorSamples.notched_scene /\
  edge_top AnchorSamples.notched_binding AnchorSamples.notched_scene
    = of_Z 45 /\
  rect_x (getViewportRect AnchorSamples.notched_scene)
    <= edge_left AnchorSamples.notched_binding AnchorSamples.notched_scene.
Proof.
  split; [vm_compute; reflexivity |].
  destruct (safe_area_within_viewport AnchorSamples.notched_binding
              AnchorSamples.notched_scene)
    as (_ & Hl & _ & Ht & _); try (vm_compute; reflexivity).
  split; [exact Ht |]. split; [vm_compute; reflexivity | exact Hl].
Defined.

End AnchorPlacementFacts.

(* ================================================================== *)
(** ** Hex colours: reading them and writing them back *)
(* ================================================================== *)

Module UtilsFacts.
Import Ascii JsNum JsNumFacts JsNumOrderFacts Utils.
Local Open Scope string_scope.
Local Open Scope Z_scope.

(** *** Digits *)

Lemma digit_facts (c : ascii) (v : Z) :
  digitValue c = Some v ->
  0 <= v < 16 /\
  isStrWhiteSpaceChar c = false /\
  Ascii.eqb c "-"%char = false /\
  Ascii.eqb c "+"%char = false /\
  Ascii.eqb c "x"%char = false /\
  Ascii.eqb c "X"%char = false /\
  Ascii.eqb c "#"%char = false /\
  digitValue (hexDigit v) = Some v.
Proof.
  intros H.
  destruct c as [[] [] [] [] [] [] [] []]; vm_compute in H;
    try discriminate H; injection H as <-;
    vm_compute; repeat split; discriminate.
Qed.

Lemma hexDigit_lower (v : Z) :
  0 <= v < 16 -> hexDigit (match digitValue (hexDigit v) with
                           | Some w => w
                           | None => v
                           end) = hexDigit v.
Proof.
  intros H.
  assert (C : v = 0 \/ v = 1 \/ v = 2 \/ v = 3 \/ v = 4 \/ v = 5 \/ v = 6 \/
              v = 7 \/ v = 8 \/ v = 9 \/ v = 10 \/ v = 11 \/ v = 12 \/
              v = 13 \/ v = 14 \/ v = 15) by lia.
  repeat (destruct C as [-> | C]; [reflexivity |]). subst. reflexivity.
Qed.

(** *** Two digits *)

Lemma parseInt16_two_digits (c1 c2 : ascii) (v1 v2 : Z) :
  digitValue c1 = Some v1 -> digitValue c2 = Some v2 ->
  parseInt16 (String c1 (String c2 EmptyString)) = of_Z (16 * v1 + v2).
Proof.
  intros H1 H2.
  destruct (digit_facts c1 v1 H1) as (_ & W1 & M1 & P1 & _).
  destruct (digit_facts c2 v2 H2) as (_ & _ & _ & _ & X2 & XX2 & _).
  unfold parseInt16. cbn [trimStart]. rewrite W1, M1, P1, X2, XX2.
  rewrite andb_false_r. cbn [orb leadingDigits]. rewrite H1, H2.
  f_equal. lia.
Qed.

(** *** 32-bit integers *)

Lemma this_of_Z (z : Z) : this (Q2Qc (inject_Z z)) = inject_Z z.
Proof.
  unfold Q2Qc. cbn [this]. apply Qred_identity.
  unfold inject_Z. cbn [Qnum Qden]. apply Z.gcd_1_r.
Qed.

Lemma wrap32_small (z : Z) : - 2 ^ 31 <= z < 2 ^ 31 -> wrap32 z = z.
Proof.
  intros H. unfold wrap32.
  destruct (Z.ltb_spec (z mod 2 ^ 32) (2 ^ 31)) as [L | L].
  - destruct (Z.lt_ge_cases z 0) as [N | N].
    + exfalso.
      assert (E : z mod 2 ^ 32 = z + 2 ^ 32).
      { symmetry. apply (Z.mod_unique_pos _ _ (-1)); lia. }
      lia.
    + apply Z.mod_small. lia.
  - destruct (Z.lt_ge_cases z 0) as [N | N].
    + assert (E : z mod 2 ^ 32 = z + 2 ^ 32).
      { symmetry. apply (Z.mod_unique_pos _ _ (-1)); lia. }
      lia.
    + rewrite Z.mod_small in L by lia. lia.
Qed.

Lemma ToInt32_of_Z (z : Z) :
  - 2 ^ 31 <= z < 2 ^ 31 -> ToInt32 (of_Z z) = z.
Proof.
  intros H. unfold ToInt32, of_Z. rewrite this_of_Z.
  unfold inject_Z. cbn [Qnum Qden]. rewrite Z.quot_1_r.
  now apply wrap32_small.
Qed.

Lemma land_shiftl_low (hi lo n : Z) :
  0 <= n -> 0 <= lo < 2 ^ n -> Z.land (Z.shiftl hi n) lo = 0.
Proof.
  intros Hn Hlo. apply Z.bits_inj'. intros m Hm.
  rewrite Z.land_spec, Z.bits_0.
  destruct (Z.lt_ge_cases m n) as [L | L].
  - now rewrite Z.shiftl_spec_low.
  - apply andb_false_iff. right.
    destruct (Z.eq_dec lo 0) as [-> | Hnz]; [apply Z.bits_0 |].
    apply Z.bits_above_log2; [lia |].
    assert (Z.log2 lo < n) by (apply Z.log2_lt_pow2; lia). lia.
Qed.

Lemma lor_shiftl_low (hi lo n : Z) :
  0 <= n -> 0 <= lo < 2 ^ n -> Z.lor (Z.shiftl hi n) lo = hi * 2 ^ n + lo.
Proof.
  intros Hn Hlo.
  pose proof (Z.add_lor_land (Z.shiftl hi n) lo) as E.
  rewrite land_shiftl_low in E by assumption.
  rewrite Z.shiftl_mul_pow2 in E |- * by assumption. lia.
Qed.

Lemma toColorInt_bytes (rr gg bb : Z) (aa : num) :
  0 <= rr < 256 -> 0 <= gg < 256 -> 0 <= bb < 256 ->
  toColorInt (mkRgba (of_Z rr) (of_Z gg) (of_Z bb) aa)
  = rr * 65536 + gg * 256 + bb.
Proof.
  intros Hr Hg Hb. unfold toColorInt. cbn [r g b].
  rewrite !ToInt32_of_Z by lia.
  unfold shl32.
  change (16 mod 32) with 16. change (8 mod 32) with 8.
  rewrite (Z.shiftl_mul_pow2 rr 16), (Z.shiftl_mul_pow2 gg 8) by lia.
  rewrite !wrap32_small by lia.
  rewrite <- (Z.shiftl_mul_pow2 rr 16) by lia.
  rewrite (lor_shiftl_low rr (gg * 2 ^ 8) 16) by lia.
  replace (rr * 2 ^ 16 + gg * 2 ^ 8) with (Z.shiftl (rr * 2 ^ 8 + gg) 8)
    by (rewrite Z.shiftl_mul_pow2; lia).
  rewrite (lor_shiftl_low _ bb 8) by lia.
  lia.
Qed.

(** *** Writing an integer in radix 16 *)

Lemma zeros_snoc (k : nat) :
  zeros k ++ String "0"%char EmptyString = zeros (S k).
Proof. induction k as [| k IH]; cbn; [reflexivity | now rewrite IH]. Qed.

Lemma length_append (s t : string) :
  String.length (s ++ t) = (String.length s + String.length t)%nat.
Proof. induction s as [| c s IH]; cbn; [reflexivity | now rewrite IH]. Qed.

Lemma append_assoc (s t u : string) : (s ++ t) ++ u = s ++ (t ++ u).
Proof. induction s as [| c s IH]; cbn; [reflexivity | now rewrite IH]. Qed.

Lemma toHex_digit (fuel : nat) (v : Z) :
  0 <= v < 16 -> toHex (S fuel) v = String (hexDigit v) EmptyString.
Proof.
  intros H. cbn [toHex].
  destruct (Z.ltb_spec v 16); [reflexivity | lia].
Qed.

Lemma toHex_step (fuel : nat) (m v : Z) :
  0 < m -> 0 <= v < 16 ->
  toHex (S fuel) (16 * m + v)
  = toHex fuel m ++ String (hexDigit v) EmptyString.
Proof.
  intros Hm Hv. cbn [toHex].
  destruct (Z.ltb_spec (16 * m + v) 16); [lia |].
  replace ((16 * m + v) / 16) with m
    by (apply (Z.div_unique _ _ _ v); lia).
  replace ((16 * m + v) mod 16) with v
    by (apply (Z.mod_unique _ _ m); lia).
  reflexivity.
Qed.

Lemma padStart_snoc (k fuel : nat) (m v : Z) :
  (1 <= k)%nat -> 0 <= m -> 0 <= v < 16 ->
  padStart (S k) (toHex (S (S fuel)) (16 * m + v))
  = padStart k (toHex (S fuel) m) ++ String (hexDigit v) EmptyString.
Proof.
  intros Hk Hm Hv. unfold padStart.
  destruct (Z.eq_dec m 0) as [-> | Hnz].
  - replace (16 * 0 + v) with v by lia.
    rewrite !toHex_digit by lia. cbn [String.length].
    replace (S k - 1)%nat with k by lia.
    destruct k as [| k]; [lia |].
    replace (S k - 1)%nat with k by lia.
    rewrite append_assoc. cbn [append].
    change (String (hexDigit 0) (String (hexDigit v) EmptyString))
      with (String "0"%char EmptyString ++ String (hexDigit v) EmptyString).
    rewrite <- append_assoc. now rewrite zeros_snoc.
  - rewrite toHex_step by lia.
    rewrite length_append. cbn [String.length].
    replace (S k - (String.length (toHex (S fuel) m) + 1))%nat
      with (k - String.length (toHex (S fuel) m))%nat by lia.
    now rewrite append_assoc.
Qed.

(** Six digits, most significant first, written with [padStart(6, "0")]. *)
Lemma padStart_six (v1 v2 v3 v4 v5 v6 : Z) :
  0 <= v1 < 16 -> 0 <= v2 < 16 -> 0 <= v3 < 16 ->
  0 <= v4 < 16 -> 0 <= v5 < 16 -> 0 <= v6 < 16 ->
  padStart 6
    (toHex 8 (16 * (16 * (16 * (16 * (16 * v1 + v2) + v3) + v4) + v5) + v6))
  = String (hexDigit v1) (String (hexDigit v2) (String (hexDigit v3)
      (String (hexDigit v4) (String (hexDigit v5) (String (hexDigit v6)
        EmptyString))))).
Proof.
  intros H1 H2 H3 H4 H5 H6.
  rewrite (padStart_snoc 5 6) by lia.
  rewrite (padStart_snoc 4 5) by lia.
  rewrite (padStart_snoc 3 4) by lia.
  rewrite (padStart_snoc 2 3) by lia.
  rewrite (padStart_snoc 1 2) by lia.
  rewrite toHex_digit by lia. reflexivity.
Qed.

(** *** Six digits read *)

Lemma hexValue_six (d1 d2 d3 d4 d5 d6 : ascii) (n : Z) :
  hexValue
    (String d1 (String d2 (String d3 (String d4 (String d5 (String d6
       EmptyString)))))) 0 = Some n ->
  exists v1 v2 v3 v4 v5 v6,
    digitValue d1 = Some v1 /\ digitValue d2 = Some v2 /\
    digitValue d3 = Some v3 /\ digitValue d4 = Some v4 /\
    digitValue d5 = Some v5 /\ digitValue d6 = Some v6 /\
    n = 16 * (16 * (16 * (16 * (16 * v1 + v2) + v3) + v4) + v5) + v6.
Proof.
  cbn [hexValue].
  destruct (digitValue d1) as [v1 |]; [| discriminate].
  destruct (digitValue d2) as [v2 |]; [| discriminate].
  destruct (digitValue d3) as [v3 |]; [| discriminate].
  destruct (digitValue d4) as [v4 |]; [| discriminate].
  destruct (digitValue d5) as [v5 |]; [| discriminate].
  destruct (digitValue d6) as [v6 |]; [| discriminate].
  intros E. injection E as <-.
  exists v1, v2, v3, v4, v5, v6. repeat split.
Qed.

Lemma parseHex_six (d1 d2 d3 d4 d5 d6 : ascii) (v1 v2 v3 v4 v5 v6 : Z) :
  digitValue d1 = Some v1 -> digitValue d2 = Some v2 ->
  digitValue d3 = Some v3 -> digitValue d4 = Some v4 ->
  digitValue d5 = Some v5 -> digitValue d6 = Some v6 ->
  parseHex
    (String d1 (String d2 (String d3 (String d4 (String d5 (String d6
       EmptyString))))))
  = mkRgba (of_Z (16 * v1 + v2)) (of_Z (16 * v3 + v4)) (of_Z (16 * v5 + v6))
      one /\
  parseHex
    (String "#"%char
       (String d1 (String d2 (String d3 (String d4 (String d5 (String d6
          EmptyString)))))))
  = mkRgba (of_Z (16 * v1 + v2)) (of_Z (16 * v3 + v4)) (of_Z (16 * v5 + v6))
      one.
Proof.
  intros H1 H2 H3 H4 H5 H6.
  destruct (digit_facts d1 v1 H1) as (_ & _ & _ & _ & _ & _ & N1 & _).
  unfold parseHex. cbn [startsWith_hash slice_from_1]. rewrite N1.
  change (Ascii.eqb "#"%char "#"%char) with true. cbv iota.
  unfold slice. cbn [Nat.sub substring String.length Nat.leb].
  rewrite (parseInt16_two_digits d1 d2 v1 v2 H1 H2),
    (parseInt16_two_digits d3 d4 v3 v4 H3 H4),
    (parseInt16_two_digits d5 d6 v5 v6 H5 H6).
  now split.
Qed.

Lemma six_digits_bytes (v1 v2 v3 v4 v5 v6 : Z) :
  0 <= v1 < 16 -> 0 <= v2 < 16 -> 0 <= v3 < 16 ->
  0 <= v4 < 16 -> 0 <= v5 < 16 -> 0 <= v6 < 16 ->
  (16 * v1 + v2) * 65536 + (16 * v3 + v4) * 256 + (16 * v5 + v6)
  = 16 * (16 * (16 * (16 * (16 * v1 + v2) + v3) + v4) + v5) + v6 /\
  0 <= 16 * (16 * (16 * (16 * (16 * v1 + v2) + v3) + v4) + v5) + v6 < 2 ^ 24 /\
  16 * v1 + v2
  = (16 * (16 * (16 * (16 * (16 * v1 + v2) + v3) + v4) + v5) + v6) / 65536 /\
  16 * v3 + v4
  = (16 * (16 * (16 * (16 * (16 * v1 + v2) + v3) + v4) + v5) + v6) / 256
    mod 256 /\
  16 * v5 + v6
  = (16 * (16 * (16 * (16 * (16 * v1 + v2) + v3) + v4) + v5) + v6) mod 256.
Proof.
  intros H1 H2 H3 H4 H5 H6.
  split; [lia |]. split; [lia |]. split; [| split].
  - apply (Z.div_unique _ _ _ (256 * (16 * v3 + v4) + (16 * v5 + v6))); lia.
  - apply (Z.mod_unique _ _ (16 * v1 + v2)); [lia |].
    replace ((16 * (16 * (16 * (16 * (16 * v1 + v2) + v3) + v4) + v5) + v6)
             / 256)
      with (256 * (16 * v1 + v2) + (16 * v3 + v4))
      by (apply (Z.div_unique _ _ _ (16 * v5 + v6)); lia).
    lia.
  - apply (Z.mod_unique _ _ (256 * (16 * v1 + v2) + (16 * v3 + v4))); lia.
Qed.

Lemma hexToColorAlpha_digits_value (d1 d2 d3 d4 d5 d6 : ascii) (n : Z) :
  hexValue
    (String d1 (String d2 (String d3 (String d4 (String d5 (String d6
       EmptyString)))))) 0 = Some n ->
  hexToColorAlpha
    (String "#"%char
       (String d1 (String d2 (String d3 (String d4 (String d5 (String d6
          EmptyString)))))))
  = mkColorAlpha n one /\
  hexToColorAlpha
    (String d1 (String d2 (String d3 (String d4 (String d5 (String d6
       EmptyString))))))
  = mkColorAlpha n one /\
  0 <= n < 2 ^ 24.
Proof.
  intros Hn.
  destruct (hexValue_six _ _ _ _ _ _ n Hn)
    as (v1 & v2 & v3 & v4 & v5 & v6 & H1 & H2 & H3 & H4 & H5 & H6 & ->).
  destruct (digit_facts d1 v1 H1) as (R1 & _).
  destruct (digit_facts d2 v2 H2) as (R2 & _).
  destruct (digit_facts d3 v3 H3) as (R3 & _).
  destruct (digit_facts d4 v4 H4) as (R4 & _).
  destruct (digit_facts d5 v5 H5) as (R5 & _).
  destruct (digit_facts d6 v6 H6) as (R6 & _).
  destruct (parseHex_six d1 d2 d3 d4 d5 d6 v1 v2 v3 v4 v5 v6
              H1 H2 H3 H4 H5 H6) as [P0 P1].
  destruct (six_digits_bytes v1 v2 v3 v4 v5 v6 R1 R2 R3 R4 R5 R6)
    as (E & Hrange & _).
  unfold hexToColorAlpha. rewrite P0, P1. cbn [a].
  rewrite toColorInt_bytes by (clear - R1 R2 R3 R4 R5 R6; lia).
  rewrite E. now repeat split.
Qed.

(** X24.  A colour written as six hex digits, with or without the leading
    [#], is read as the number those digits denote in radix 16: red in bits
    16 to 23, green in bits 8 to 15, blue in bits 0 to 7, and an alpha
    of 1. *)
Theorem hexToColorAlpha_six_digits (d1 d2 d3 d4 d5 d6 : ascii) (n : Z) :
  hexValue
    (String d1 (String d2 (String d3 (String d4 (String d5 (String d6
       EmptyString)))))) 0 = Some n ->
  hexToColorAlpha
    (String "#"%char
       (String d1 (String d2 (String d3 (String d4 (String d5 (String d6
          EmptyString)))))))
  = mkColorAlpha n one /\
  hexToColorAlpha
    (String d1 (String d2 (String d3 (String d4 (String d5 (String d6
       EmptyString))))))
  = mkColorAlpha n one /\
  0 <= n < 2 ^ 24 /\
  parseHex
    (String "#"%char
       (String d1 (String d2 (String d3 (String d4 (String d5 (String d6
          EmptyString)))))))
  = mkRgba (of_Z (n / 65536)) (of_Z (n / 256 mod 256)) (of_Z (n mod 256)) one.
Proof.
  intros Hn.
  destruct (hexValue_six _ _ _ _ _ _ n Hn)
    as (v1 & v2 & v3 & v4 & v5 & v6 & H1 & H2 & H3 & H4 & H5 & H6 & ->).
  destruct (digit_facts d1 v1 H1) as (R1 & _).
  destruct (digit_facts d2 v2 H2) as (R2 & _).
  destruct (digit_facts d3 v3 H3) as (R3 & _).
  destruct (digit_facts d4 v4 H4) as (R4 & _).
  destruct (digit_facts d5 v5 H5) as (R5 & _).
  destruct (digit_facts d6 v6 H6) as (R6 & _).
  destruct (parseHex_six d1 d2 d3 d4 d5 d6 v1 v2 v3 v4 v5 v6
              H1 H2 H3 H4 H5 H6) as [P0 P1].
  destruct (six_digits_bytes v1 v2 v3 v4 v5 v6 R1 R2 R3 R4 R5 R6)
    as (E & Hrange & Er & Eg & Eb).
  unfold hexToColorAlpha. rewrite P0, P1. cbn [a].
  rewrite toColorInt_bytes by (clear - R1 R2 R3 R4 R5 R6; lia).
  rewrite E. split; [reflexivity |]. split; [reflexivity |].
  split; [exact Hrange |].
  now rewrite <- Er, <- Eg, <- Eb.
Qed.

Lemma hexToColorAlpha_six_digits_witness :
  hexValue "A3a3f0" 0 = Some 10724336 /\
  hexToColorAlpha "#A3a3f0" = mkColorAlpha 10724336 one /\
  parseHex "#A3a3f0" = mkRgba (of_Z 163) (of_Z 163) (of_Z 240) one.
Proof.
  assert (H : hexValue "A3a3f0" 0 = Some 10724336) by reflexivity.
  destruct (hexToColorAlpha_six_digits "A" "3" "a" "3" "f" "0" 10724336 H)
    as (H1 & _ & _ & H2).
  split; [exact H |]. split; [exact H1 | exact H2].
Defined.

(** *** Writing the colour back *)

Lemma lowerHex_six (d1 d2 d3 d4 d5 d6 : ascii) (v1 v2 v3 v4 v5 v6 : Z) :
  digitValue d1 = Some v1 -> digitValue d2 = Some v2 ->
  digitValue d3 = Some v3 -> digitValue d4 = Some v4 ->
  digitValue d5 = Some v5 -> digitValue d6 = Some v6 ->
  lowerHex
    (String d1 (String d2 (String d3 (String d4 (String d5 (String d6
       EmptyString))))))
  = String (hexDigit v1) (String (hexDigit v2) (String (hexDigit v3)
      (String (hexDigit v4) (String (hexDigit v5) (String (hexDigit v6)
        EmptyString))))).
Proof. intros H1 H2 H3 H4 H5 H6. cbn [lowerHex]. now rewrite H1, H2, H3, H4, H5, H6. Qed.

Lemma toString16_nonneg (n : Z) : 0 <= n -> toString16 n = toHex 8 n.
Proof.
  intros H. unfold toString16.
  destruct (Z.ltb_spec n 0); [lia | reflexivity].
Qed.

Lemma hexValue_lowerHex_six (d1 d2 d3 d4 d5 d6 : ascii) (n : Z) :
  hexValue
    (String d1 (String d2 (String d3 (String d4 (String d5 (String d6
       EmptyString)))))) 0 = Some n ->
  hexValue
    (lowerHex
       (String d1 (String d2 (String d3 (String d4 (String d5 (String d6
          EmptyString))))))) 0 = Some n /\
  lowerHex
    (lowerHex
       (String d1 (String d2 (String d3 (String d4 (String d5 (String d6
          EmptyString)))))))
  = lowerHex
      (String d1 (String d2 (String d3 (String d4 (String d5 (String d6
         EmptyString)))))).
Proof.
  intros Hn.
  destruct (hexValue_six _ _ _ _ _ _ n Hn)
    as (v1 & v2 & v3 & v4 & v5 & v6 & H1 & H2 & H3 & H4 & H5 & H6 & ->).
  destruct (digit_facts d1 v1 H1) as (_ & _ & _ & _ & _ & _ & _ & L1).
  destruct (digit_facts d2 v2 H2) as (_ & _ & _ & _ & _ & _ & _ & L2).
  destruct (digit_facts d3 v3 H3) as (_ & _ & _ & _ & _ & _ & _ & L3).
  destruct (digit_facts d4 v4 H4) as (_ & _ & _ & _ & _ & _ & _ & L4).
  destruct (digit_facts d5 v5 H5) as (_ & _ & _ & _ & _ & _ & _ & L5).
  destruct (digit_facts d6 v6 H6) as (_ & _ & _ & _ & _ & _ & _ & L6).
  rewrite (lowerHex_six _ _ _ _ _ _ _ _ _ _ _ _ H1 H2 H3 H4 H5 H6).
  split.
  - cbn [hexValue]. now rewrite L1, L2, L3, L4, L5, L6.
  - cbn [lowerHex]. now rewrite L1, L2, L3, L4, L5, L6.
Qed.

(** X25.  Reading a six-digit colour and writing it back, as the label and
    the badge do for their text colour, gives the same colour in the
    canonical form: a [#] and the six digits with letters in lower case,
    leading zeros kept.  A colour already in that form comes back unchanged,
    and writing back what was written back changes nothing. *)
Theorem colorStr_round_trip (d1 d2 d3 d4 d5 d6 : ascii) (n : Z) :
  hexValue
    (String d1 (String d2 (String d3 (String d4 (String d5 (String d6
       EmptyString)))))) 0 = Some n ->
  colorStr
    (String "#"%char
       (String d1 (String d2 (String d3 (String d4 (String d5 (String d6
          EmptyString)))))))
  = String "#"%char
      (lowerHex
         (String d1 (String d2 (String d3 (String d4 (String d5 (String d6
            EmptyString))))))) /\
  colorStr
    (String d1 (String d2 (String d3 (String d4 (String d5 (String d6
       EmptyString))))))
  = String "#"%char
      (lowerHex
         (String d1 (String d2 (String d3 (String d4 (String d5 (String d6
            EmptyString))))))) /\
  (lowerHex
     (String d1 (String d2 (String d3 (String d4 (String d5 (String d6
        EmptyString))))))
   = String d1 (String d2 (String d3 (String d4 (String d5 (String d6
       EmptyString))))) ->
   colorStr
     (String "#"%char
        (String d1 (String d2 (String d3 (String d4 (String d5 (String d6
           EmptyString)))))))
   = String "#"%char
       (String d1 (String d2 (String d3 (String d4 (String d5 (String d6
          EmptyString))))))) /\
  colorStr
    (colorStr
       (String "#"%char
          (String d1 (String d2 (String d3 (String d4 (String d5 (String d6
             EmptyString))))))))
  = colorStr
      (String "#"%char
         (String d1 (String d2 (String d3 (String d4 (String d5 (String d6
            EmptyString))))))).
Proof.
  intros Hn.
  assert (Hgen : forall e1 e2 e3 e4 e5 e6,
    hexValue
      (String e1 (String e2 (String e3 (String e4 (String e5 (String e6
         EmptyString)))))) 0 = Some n ->
    colorStr
      (String "#"%char
         (String e1 (String e2 (String e3 (String e4 (String e5 (String e6
            EmptyString)))))))
    = String "#"%char
        (lowerHex
           (String e1 (String e2 (String e3 (String e4 (String e5 (String e6
              EmptyString))))))) /\
    colorStr
      (String e1 (String e2 (String e3 (String e4 (String e5 (String e6
         EmptyString))))))
    = String "#"%char
        (lowerHex
           (String e1 (String e2 (String e3 (String e4 (String e5 (String e6
              EmptyString)))))))).
  { intros e1 e2 e3 e4 e5 e6 He.
    destruct (hexToColorAlpha_digits_value e1 e2 e3 e4 e5 e6 n He)
      as (C1 & C0 & Hr).
    destruct (hexValue_six _ _ _ _ _ _ n He)
      as (v1 & v2 & v3 & v4 & v5 & v6 & H1 & H2 & H3 & H4 & H5 & H6 & E).
    unfold colorStr. rewrite C1, C0. cbn [color].
    rewrite toString16_nonneg by lia.
    rewrite (lowerHex_six _ _ _ _ _ _ _ _ _ _ _ _ H1 H2 H3 H4 H5 H6).
    destruct (digit_facts e1 v1 H1) as (R1 & _).
    destruct (digit_facts e2 v2 H2) as (R2 & _).
    destruct (digit_facts e3 v3 H3) as (R3 & _).
    destruct (digit_facts e4 v4 H4) as (R4 & _).
    destruct (digit_facts e5 v5 H5) as (R5 & _).
    destruct (digit_facts e6 v6 H6) as (R6 & _).
    rewrite E, padStart_six by assumption. now split. }
  destruct (Hgen d1 d2 d3 d4 d5 d6 Hn) as [G1 G0].
  split; [exact G1 |]. split; [exact G0 |]. split.
  - intros Hl. now rewrite G1, Hl.
  - destruct (hexValue_lowerHex_six d1 d2 d3 d4 d5 d6 n Hn) as [Hn' Hl'].
    rewrite G1.
    destruct (hexValue_six _ _ _ _ _ _ n Hn)
      as (v1 & v2 & v3 & v4 & v5 & v6 & H1 & H2 & H3 & H4 & H5 & H6 & E).
    rewrite (lowerHex_six _ _ _ _ _ _ _ _ _ _ _ _ H1 H2 H3 H4 H5 H6)
      in Hn', Hl' |- *.
    destruct (Hgen _ _ _ _ _ _ Hn') as [G1' _].
    now rewrite G1', Hl'.
Qed.

Lemma colorStr_round_trip_witness :
  hexValue "A3a3f0" 0 = Some 10724336 /\
  colorStr "#A3a3f0" = "#a3a3f0" /\
  colorStr "#00000f" = "#00000f".
Proof.
  assert (H : hexValue "A3a3f0" 0 = Some 10724336) by reflexivity.
  assert (H' : hexValue "00000f" 0 = Some 15) by reflexivity.
  split; [exact H |]. split.
  - exact (proj1 (colorStr_round_trip "A" "3" "a" "3" "f" "0" 10724336 H)).
  - exact (proj1 (proj2 (proj2
             (colorStr_round_trip "0" "0" "0" "0" "0" "f" 15 H'))) eq_refl).
Defined.

(** *** The short form and the alpha channel *)

Lemma alpha_of_byte (x : Z) :
  0 <= x <= 255 ->
  (zero <= of_Z x / of_Z 255)%num /\ (of_Z x / of_Z 255 <= one)%num.
Proof.
  intros H.
  assert (Ed : (of_Z x / of_Z 255)%num
               = Fin (Q2Qc (inject_Z x) / Q2Qc (inject_Z 255))%Qc).
  { unfold of_Z, div. change (sgn (Q2Qc (inject_Z 255))) with Gt.
    reflexivity. }
  rewrite Ed. unfold zero, one, of_Z. rewrite !le_Fin.
  set (q := (Q2Qc (inject_Z x) / Q2Qc (inject_Z 255))%Qc).
  assert (E : (q * Q2Qc (inject_Z 255) = Q2Qc (inject_Z x))%Qc).
  { unfold q. field. intros E. discriminate E. }
  assert (B0 : (inject_Z 0 <= inject_Z x)%Q) by (rewrite <- Zle_Qle; lia).
  assert (B1 : (inject_Z x <= inject_Z 255)%Q) by (rewrite <- Zle_Qle; lia).
  assert (E' : (this q * inject_Z 255 == inject_Z x)%Q).
  { apply (f_equal this) in E. unfold Qcmult, Q2Qc in E. cbn [this] in E.
    rewrite <- (Qred_correct (this q * Qred (inject_Z 255))).
    rewrite E. rewrite !Qred_correct. reflexivity. }
  clearbody q. clear E.
  unfold Qcle, Q2Qc. cbn [this]. rewrite !Qred_correct.
  unfold inject_Z in *. split; lra.
Qed.

Lemma hexValue_cons (c : ascii) (rest : string) (acc : Z) :
  hexValue (String c rest) acc =
  match digitValue c with
  | Some v => hexValue rest (16 * acc + v)
  | None => None
  end.
Proof. reflexivity. Qed.

Lemma hexValue_eight (d1 d2 d3 d4 d5 d6 d7 d8 : ascii) (n : Z) :
  hexValue
    (String d1 (String d2 (String d3 (String d4 (String d5 (String d6
       (String d7 (String d8 EmptyString)))))))) 0 = Some n ->
  exists m v7 v8,
    hexValue
      (String d1 (String d2 (String d3 (String d4 (String d5 (String d6
         EmptyString)))))) 0 = Some m /\
    digitValue d7 = Some v7 /\ digitValue d8 = Some v8 /\
    n = 256 * m + (16 * v7 + v8).
Proof.
  rewrite !hexValue_cons.
  destruct (digitValue d1) as [v1 |]; cbv beta iota; [| discriminate].
  rewrite !hexValue_cons.
  destruct (digitValue d2) as [v2 |]; cbv beta iota; [| discriminate].
  rewrite !hexValue_cons.
  destruct (digitValue d3) as [v3 |]; cbv beta iota; [| discriminate].
  rewrite !hexValue_cons.
  destruct (digitValue d4) as [v4 |]; cbv beta iota; [| discriminate].
  rewrite !hexValue_cons.
  destruct (digitValue d5) as [v5 |]; cbv beta iota; [| discriminate].
  rewrite !hexValue_cons.
  destruct (digitValue d6) as [v6 |]; cbv beta iota; [| discriminate].
  rewrite !hexValue_cons.
  destruct (digitValue d7) as [v7 |]; cbv beta iota; [| discriminate].
  rewrite !hexValue_cons.
  destruct (digitValue d8) as [v8 |]; cbv beta iota; [| discriminate].
  set (m := 16 * (16 * (16 * (16 * (16 * (16 * 0 + v1) + v2) + v3) + v4) + v5)
            + v6).
  unfold hexValue. intros E.
  exists m, v7, v8.
  split; [reflexivity |]. split; [reflexivity |]. split; [reflexivity |].
  assert (E' : 16 * (16 * m + v7) + v8 = n) by congruence.
  clearbody m. clear - E'. lia.
Qed.

(** X26.  The three-character form stands for the six-character form with
    every character doubled, whatever the characters are.  With eight hex
    digits the first six give the colour as before and the last two the
    alpha, their value divided by 255, which lies between 0 and 1. *)
Theorem hexToColorAlpha_short_and_alpha :
  (forall h0 h1 h2 : ascii,
     hexToColorAlpha
       (String "#"%char (String h0 (String h1 (String h2 EmptyString))))
     = hexToColorAlpha
         (String "#"%char
            (String h0 (String h0 (String h1 (String h1 (String h2
               (String h2 EmptyString)))))))) /\
  (forall (d1 d2 d3 d4 d5 d6 d7 d8 : ascii) (n : Z),
     hexValue
       (String d1 (String d2 (String d3 (String d4 (String d5 (String d6
          (String d7 (String d8 EmptyString)))))))) 0 = Some n ->
     color
       (hexToColorAlpha
          (String "#"%char
             (String d1 (String d2 (String d3 (String d4 (String d5
                (String d6 (String d7 (String d8 EmptyString))))))))))
     = n / 256 /\
     alpha
       (hexToColorAlpha
          (String "#"%char
             (String d1 (String d2 (String d3 (String d4 (String d5
                (String d6 (String d7 (String d8 EmptyString))))))))))
     = (of_Z (n mod 256) / of_Z 255)%num /\
     (zero <= of_Z (n mod 256) / of_Z 255)%num /\
     (of_Z (n mod 256) / of_Z 255 <= one)%num).
Proof.
  split; [reflexivity |].
  intros d1 d2 d3 d4 d5 d6 d7 d8 n Hn.
  destruct (hexValue_eight _ _ _ _ _ _ _ _ n Hn)
    as (m & v7 & v8 & Hm & H7 & H8 & ->).
  destruct (hexValue_six _ _ _ _ _ _ m Hm)
    as (v1 & v2 & v3 & v4 & v5 & v6 & H1 & H2 & H3 & H4 & H5 & H6 & Em).
  destruct (digit_facts d1 v1 H1) as (R1 & _).
  destruct (digit_facts d2 v2 H2) as (R2 & _).
  destruct (digit_facts d3 v3 H3) as (R3 & _).
  destruct (digit_facts d4 v4 H4) as (R4 & _).
  destruct (digit_facts d5 v5 H5) as (R5 & _).
  destruct (digit_facts d6 v6 H6) as (R6 & _).
  destruct (digit_facts d7 v7 H7) as (R7 & _).
  destruct (digit_facts d8 v8 H8) as (R8 & _).
  assert (Ediv : (256 * m + (16 * v7 + v8)) / 256 = m)
    by (symmetry; apply (Z.div_unique _ _ _ (16 * v7 + v8));
        clear - R7 R8; lia).
  assert (Emod : (256 * m + (16 * v7 + v8)) mod 256 = 16 * v7 + v8)
    by (symmetry; apply (Z.mod_unique _ _ m); clear - R7 R8; lia).
  rewrite Ediv, Emod.
  unfold hexToColorAlpha, parseHex.
  cbn [startsWith_hash slice_from_1 color alpha a].
  change (Ascii.eqb "#"%char "#"%char) with true. cbv iota.
  unfold slice. cbn [Nat.sub substring String.length Nat.leb].
  rewrite (parseInt16_two_digits d1 d2 v1 v2 H1 H2),
    (parseInt16_two_digits d3 d4 v3 v4 H3 H4),
    (parseInt16_two_digits d5 d6 v5 v6 H5 H6),
    (parseInt16_two_digits d7 d8 v7 v8 H7 H8).
  rewrite toColorInt_bytes by (clear - R1 R2 R3 R4 R5 R6; lia).
  destruct (six_digits_bytes v1 v2 v3 v4 v5 v6 R1 R2 R3 R4 R5 R6)
    as (E & _).
  split; [now rewrite E, Em |]. split; [reflexivity |].
  apply alpha_of_byte. clear - R7 R8. lia.
Qed.

Lemma hexToColorAlpha_short_and_alpha_witness :
  hexValue "ff000080" 0 = Some 4278190208 /\
  color (hexToColorAlpha "#ff000080") = 16711680 /\
  alpha (hexToColorAlpha "#ff000080") = (of_Z 128 / of_Z 255)%num /\
  hexToColorAlpha "#f80" = hexToColorAlpha "#ff8800".
Proof.
  assert (H : hexValue "ff000080" 0 = Some 4278190208) by reflexivity.
  destruct (proj2 hexToColorAlpha_short_and_alpha
              "f"%char "f"%char "0"%char "0"%char "0"%char "0"%char
              "8"%char "0"%char 4278190208 H)
    as (Hc & Ha & _).
  split; [exact H |]. split; [exact Hc |]. split; [exact Ha |].
  exact (proj1 hexToColorAlpha_short_and_alpha "f"%char "8"%char "0"%char).
Defined.

End UtilsFacts.

(* ================================================================== *)
(** ** The column container: how the children are stacked *)
(* ================================================================== *)

Module ColumnFacts.
Import JsNum JsNumFacts JsNumOrderFacts Column.
Local Open Scope list_scope.
Local Open Scope num_scope.

(** *** Arithmetic of one step of the loop *)

Lemma add_finite (x y : num) :
  isFinite x = true -> isFinite y = true -> isFinite (x + y) = true.
Proof. destruct x, y; try discriminate; reflexivity. Qed.

(** The centre of a child is not above the cursor it is placed from, and
    not below the cursor left for the next child. *)
Lemma centre_after_cursor (cur h : num) :
  isFinite cur = true -> isFinite h = true -> zero <= h ->
  cur <= cur + h / two.
Proof.
  destruct cur as [c | | |], h as [h | | |]; try discriminate.
  intros _ _ H0. destruct (half_fin h) as (g & -> & Hg).
  unfold zero, of_Z in H0. apply le_Fin in H0.
  cbn [add]. apply le_Fin. qc_arith.
Qed.

Lemma centre_before_next (cur h s : num) :
  isFinite cur = true -> isFinite h = true -> isFinite s = true ->
  zero <= h -> zero <= s ->
  cur + h / two <= cur + (h + s).
Proof.
  destruct cur as [c | | |], h as [h | | |], s as [s | | |];
    try discriminate.
  intros _ _ _ H0 S0. destruct (half_fin h) as (g & -> & Hg).
  unfold zero, of_Z in H0, S0. apply le_Fin in H0, S0.
  cbn [add]. apply le_Fin. qc_arith.
Qed.

Lemma finite_le_refl (a : num) : isFinite a = true -> a <= a.
Proof.
  destruct a; try discriminate. intros _. apply le_refl. discriminate.
Qed.

Lemma sum_grows (t a : num) :
  isFinite t = true -> isFinite a = true -> zero <= a -> t <= t + a.
Proof.
  destruct t as [t | | |], a as [a | | |]; try discriminate.
  intros _ _ H0. unfold zero, of_Z in H0. apply le_Fin in H0.
  cbn [add]. apply le_Fin. qc_arith.
Qed.

(** *** The loop of [layout()] *)

Lemma stackable_cons (go : Child) (rest : list Child) :
  stackable (go :: rest) = true ->
  child_setPosition go = true /\ isFinite (heightOf go) = true /\
  zero <= heightOf go /\ stackable rest = true.
Proof.
  unfold stackable. cbn [forallb]. intros H.
  apply andb_true_iff in H. destruct H as [H1 H2].
  apply andb_true_iff in H1. destruct H1 as [H1 H4].
  apply andb_true_iff in H1. destruct H1 as [H1 H3]. now repeat split.
Qed.

Lemma stackable_In (items : list Child) :
  stackable items = true ->
  forall go, In go items ->
    isFinite (heightOf go) = true /\ zero <= heightOf go.
Proof.
  unfold stackable. rewrite forallb_forall. intros H go Hin.
  specialize (H go Hin).
  apply andb_true_iff in H. destruct H as [H1 H4].
  apply andb_true_iff in H1. destruct H1 as [_ H3]. now split.
Qed.

Lemma stackable_ordered (d : Direction) (items : list Child) :
  stackable items = true -> stackable (ordered d items) = true.
Proof.
  destruct d; [auto |]. unfold stackable, ordered.
  rewrite !forallb_forall. intros H x Hx. apply H. now apply in_rev.
Qed.

Lemma place_cons (pl s cur : num) (go : Child) (rest : list Child) :
  child_setPosition go = true ->
  place pl s cur (go :: rest) =
  setPosition go pl (cur + heightOf go / two)
  :: place pl s (cur + (heightOf go + s)) rest.
Proof. intros H. cbn [place]. now rewrite H. Qed.

(** The loop keeps every child's height, whatever the children are. *)
Lemma place_heights (pl s : num) (items : list Child) :
  forall cur, map heightOf (place pl s cur items) = map heightOf items.
Proof.
  induction items as [| go rest IH]; intros cur; [reflexivity |].
  cbn [place]. destruct (negb (child_setPosition go)); cbn [map];
    now rewrite IH.
Qed.

Lemma place_stacks (pl s : num) (items : list Child) :
  isFinite s = true -> zero <= s ->
  forall cur, isFinite cur = true -> stackable items = true ->
  List.length (place pl s cur items) = List.length items /\
  (forall go, In go (place pl s cur items) ->
     fst (child_xy go) = pl /\ cur <= snd (child_xy go)) /\
  (forall first rest,
     place pl s cur items = first :: rest ->
     snd (child_xy first) = cur + heightOf first / two) /\
  (forall pre a b post,
     place pl s cur items = pre ++ a :: b :: post ->
     snd (child_xy a) <= snd (child_xy b)).
Proof.
  intros Fs S0. induction items as [| go rest IH]; intros cur Fc St.
  - cbn [place]. repeat split; try (intros; discriminate).
    + destruct H.
    + destruct H.
    + intros pre a b post E. destruct pre; discriminate E.
  - destruct (stackable_cons go rest St) as (Hp & Fh & H0 & St').
    rewrite (place_cons pl s cur go rest Hp).
    assert (Fc' : isFinite (cur + (heightOf go + s)) = true)
      by (apply add_finite; [assumption | now apply add_finite]).
    destruct (IH (cur + (heightOf go + s)) Fc' St')
      as (Hlen & Hall & Hfirst & Hchain).
    pose proof (centre_after_cursor cur (heightOf go) Fc Fh H0) as C1.
    pose proof (centre_before_next cur (heightOf go) s Fc Fh Fs H0 S0) as C2.
    split; [cbn [List.length]; now rewrite Hlen |].
    split; [| split].
    + intros x [<- | Hin]; [split; [reflexivity | exact C1] |].
      destruct (Hall x Hin) as [Hx Hy]. split; [exact Hx |].
      eapply le_trans; [| exact Hy].
      eapply le_trans; [exact C1 | exact C2].
    + intros first rest' E. injection E as <- _. reflexivity.
    + intros pre a b post E. destruct pre as [| p pre].
      * cbn [app] in E. injection E as <- E.
        assert (Hb : In b (place pl s (cur + (heightOf go + s)) rest))
          by (rewrite E; now left).
        destruct (Hall b Hb) as [_ Hy].
        eapply le_trans; [exact C2 | exact Hy].
      * cbn [app] in E. injection E as _ E. now apply (Hchain pre a b post).
Qed.

Lemma ordered_twice (d : Direction) (items : list Child) :
  ordered d (ordered d items) = items.
Proof. destruct d; [reflexivity | apply rev_involutive]. Qed.

Lemma ordered_facts (d : Direction) (items : list Child) :
  List.length (ordered d items) = List.length items /\
  (forall go, In go (ordered d items) <-> In go items).
Proof.
  destruct d; cbn [ordered].
  - split; [reflexivity | tauto].
  - split; [apply length_rev |]. intros go. symmetry. apply in_rev.
Qed.

(** [layout()] keeps every child's height, in the order of the list. *)
Lemma layout_heights (c : DebugColumnContainer) :
  map heightOf (this_list (layout c)) = map heightOf (this_list c).
Proof.
  unfold layout. cbn [set_list this_list].
  destruct (_direction c); cbn [ordered].
  - apply place_heights.
  - now rewrite map_rev, place_heights, <- map_rev, rev_involutive.
Qed.

(** X27.  [layout()] puts the children in a column, in the order they are
    shown (the order of the list, or its reverse for "bottom-to-top").
    Each child is put at [x = paddingLeft]; the first child shown has its
    centre at [paddingTop + height / 2]; no child's centre is above
    [paddingTop], and every next child's centre is at or below the centre
    of the one before.  The list keeps its length and every child its
    height.  The children all have [setPosition] and heights that are
    finite and not negative; [paddingTop] is finite and [spacingY] finite
    and not negative. *)
Theorem column_stacks (c : DebugColumnContainer) :
  stackable (this_list c) = true ->
  isFinite (_paddingTop c) = true -> isFinite (_spacingY c) = true ->
  zero <= _spacingY c ->
  List.length (this_list (layout c)) = List.length (this_list c) /\
  map heightOf (this_list (layout c)) = map heightOf (this_list c) /\
  (forall go, In go (this_list (layout c)) ->
     fst (child_xy go) = _paddingLeft c /\
     _paddingTop c <= snd (child_xy go)) /\
  (forall first rest,
     ordered (_direction c) (this_list (layout c)) = first :: rest ->
     snd (child_xy first) = _paddingTop c + heightOf first / two) /\
  (forall pre a b post,
     ordered (_direction c) (this_list (layout c)) = pre ++ a :: b :: post ->
     snd (child_xy a) <= snd (child_xy b)).
Proof.
  intros St Fp Fs S0.
  split; [| split; [apply layout_heights |]].
  - unfold layout. cbn [set_list this_list].
    destruct (ordered_facts (_direction c)
                (place (_paddingLeft c) (_spacingY c) (_paddingTop c)
                   (ordered (_direction c) (this_list c)))) as [L1 _].
    destruct (ordered_facts (_direction c) (this_list c)) as [L2 _].
    destruct (place_stacks (_paddingLeft c) (_spacingY c)
                (ordered (_direction c) (this_list c)) Fs S0 (_paddingTop c)
                Fp (stackable_ordered _ _ St)) as (Hlen & _).
    now rewrite L1, Hlen, L2.
  - unfold layout. cbn [set_list this_list _direction].
    rewrite ordered_twice.
    destruct (place_stacks (_paddingLeft c) (_spacingY c)
                (ordered (_direction c) (this_list c)) Fs S0 (_paddingTop c)
                Fp (stackable_ordered _ _ St))
      as (_ & Hall & Hfirst & Hchain).
    destruct (ordered_facts (_direction c)
                (place (_paddingLeft c) (_spacingY c) (_paddingTop c)
                   (ordered (_direction c) (this_list c)))) as [_ I1].
    split; [intros go Hin; apply Hall; now apply I1 |].
    split; [exact Hfirst | exact Hchain].
Qed.

Lemma column_stacks_witness :
  stackable three_labels = true /\
  zero <= of_Z 8 /\
  this_list
    (layout (mkColumn (of_Z 8) (of_Z 5) zero (of_Z 10) zero bottom_to_top
               three_labels))
  = [mkChild 0 true (Some (of_Z 20)) (of_Z 5, of_Z 106);
     mkChild 1 true (Some (of_Z 30)) (of_Z 5, of_Z 73);
     mkChild 2 true (Some (of_Z 40)) (of_Z 5, of_Z 30)] /\
  forall go,
    In go (this_list
             (layout (mkColumn (of_Z 8) (of_Z 5) zero (of_Z 10) zero
                        bottom_to_top three_labels))) ->
    fst (child_xy go) = of_Z 5 /\ of_Z 10 <= snd (child_xy go).
Proof.
  split; [reflexivity |]. split; [reflexivity |].
  split; [vm_compute; reflexivity |].
  exact (proj1 (proj2 (proj2
           (column_stacks
              (mkColumn (of_Z 8) (of_Z 5) zero (of_Z 10) zero bottom_to_top
                 three_labels) eq_refl eq_refl eq_refl eq_refl)))).
Defined.

(** *** The content height *)

Lemma addHeights_ext (s : num) (l1 l2 : list Child) :
  map heightOf l1 = map heightOf l2 ->
  forall total, addHeights s total l1 = addHeights s total l2.
Proof.
  revert l2. induction l1 as [| a l1 IH]; intros [| b l2] E total;
    try discriminate E; [reflexivity |].
  cbn [map] in E. injection E as Eh Et.
  cbn [addHeights]. rewrite Eh.
  destruct l1 as [| a' l1'], l2 as [| b' l2']; try discriminate Et;
    [reflexivity |].
  now apply IH.
Qed.

(** The running total never goes down while heights and spacing are not
    negative. *)
Lemma addHeights_grows (s : num) (items : list Child) :
  isFinite s = true -> zero <= s -> stackable items = true ->
  forall total, isFinite total = true ->
  isFinite (addHeights s total items) = true /\
  total <= addHeights s total items.
Proof.
  intros Fs S0. induction items as [| go rest IH]; intros St total Ft.
  - cbn [addHeights]. split; [exact Ft |].
    now apply finite_le_refl.
  - destruct (stackable_cons go rest St) as (_ & Fh & H0 & St').
    cbn [addHeights].
    pose proof (add_finite _ _ Ft Fh) as F1.
    pose proof (sum_grows total (heightOf go) Ft Fh H0) as G1.
    destruct rest as [| g2 r]; [now split |].
    pose proof (add_finite _ _ F1 Fs) as F2.
    pose proof (sum_grows _ s F1 Fs S0) as G2.
    destruct (IH St' _ F2) as [F3 G3].
    split; [exact F3 |].
    eapply le_trans; [exact G1 |]. eapply le_trans; [exact G2 | exact G3].
Qed.

(** One more child at the end of the list. *)
Lemma addHeights_snoc (s : num) (items : list Child) (go : Child) :
  forall total,
  addHeights s total (items ++ [go]) =
  match items with
  | [] => total + heightOf go
  | _ => (addHeights s total items + s) + heightOf go
  end.
Proof.
  induction items as [| a rest IH]; intros total; [reflexivity |].
  destruct rest as [| b r]; [reflexivity |].
  change (addHeights s (total + heightOf a + s) ((b :: r) ++ [go])
          = addHeights s (total + heightOf a + s) (b :: r) + s + heightOf go).
  exact (IH (total + heightOf a + s)).
Qed.

(** X28.  [getContentHeight()] is not changed by [layout()], whatever the
    children are; without children it is [paddingTop + paddingBottom].
    With heights and a spacing that are finite and not negative (and
    finite paddings) it is never less than [paddingTop + paddingBottom],
    and [addItem] never makes it smaller: an object that is a child
    already is not added again, another object is put at the end of the
    list. *)
Theorem column_content_height (c : DebugColumnContainer) :
  getContentHeight (layout c) = getContentHeight c /\
  (this_list c = [] ->
   getContentHeight c = _paddingTop c + _paddingBottom c) /\
  (stackable (this_list c) = true ->
   isFinite (_paddingTop c) = true -> isFinite (_paddingBottom c) = true ->
   isFinite (_spacingY c) = true -> zero <= _spacingY c ->
   _paddingTop c + _paddingBottom c <= getContentHeight c /\
   (forall child : Child,
      isFinite (heightOf child) = true -> zero <= heightOf child ->
      (is_child (this_list c) child = true ->
       this_list (addItem child c) = this_list c) /\
      (is_child (this_list c) child = false ->
       this_list (addItem child c) = this_list c ++ [child]) /\
      getContentHeight c <= getContentHeight (addItem child c))).
Proof.
  split; [| split].
  - unfold getContentHeight.
    replace (_spacingY (layout c)) with (_spacingY c) by reflexivity.
    replace (_paddingTop (layout c)) with (_paddingTop c) by reflexivity.
    replace (_paddingBottom (layout c)) with (_paddingBottom c)
      by reflexivity.
    apply addHeights_ext, layout_heights.
  - intros E. unfold getContentHeight. now rewrite E.
  - intros St Fp Fb Fs S0.
    pose proof (add_finite _ _ Fp Fb) as Ft.
    destruct (addHeights_grows (_spacingY c) (this_list c) Fs S0 St _ Ft)
      as [Fh Hge].
    split; [exact Hge |].
    intros child Fc C0.
    unfold addItem, container_add, getContentHeight.
    cbn [set_list this_list _spacingY _paddingTop _paddingBottom].
    destruct (is_child (this_list c) child).
    + split; [reflexivity |]. split; [discriminate |].
      now apply finite_le_refl.
    + split; [discriminate |]. split; [reflexivity |].
      rewrite addHeights_snoc.
      destruct (this_list c) as [| a rest] eqn:El.
      * cbn [addHeights]. now apply sum_grows.
      * pose proof (add_finite _ _ Fh Fs) as F2.
        eapply le_trans; [apply (sum_grows _ (_spacingY c) Fh Fs S0) |].
        now apply sum_grows.
Qed.

Lemma column_content_height_witness :
  stackable three_labels = true /\
  zero <= of_Z 8 /\ zero <= heightOf fourth_label /\
  getContentHeight
    (mkColumn (of_Z 8) (of_Z 5) zero (of_Z 10) (of_Z 4) top_to_bottom
       three_labels) = of_Z 120 /\
  getContentHeight
    (addItem fourth_label
       (mkColumn (of_Z 8) (of_Z 5) zero (of_Z 10) (of_Z 4) top_to_bottom
          three_labels)) = of_Z 178 /\
  getContentHeight
    (mkColumn (of_Z 8) (of_Z 5) zero (of_Z 10) (of_Z 4) top_to_bottom
       three_labels)
  <= getContentHeight
       (addItem fourth_label
          (mkColumn (of_Z 8) (of_Z 5) zero (of_Z 10) (of_Z 4) top_to_bottom
             three_labels)).
Proof.
  split; [reflexivity |]. split; [reflexivity |]. split; [reflexivity |].
  split; [vm_compute; reflexivity |]. split; [vm_compute; reflexivity |].
  destruct (proj2 (proj2 (column_content_height
                     (mkColumn (of_Z 8) (of_Z 5) zero (of_Z 10) (of_Z 4)
                        top_to_bottom three_labels)))
              eq_refl eq_refl eq_refl eq_refl eq_refl) as [_ Hadd].
  exact (proj2 (proj2 (Hadd fourth_label eq_refl eq_refl))).
Defined.

End ColumnFacts.
